(** * Maximum-activation search (intent/maxact.py): a shallow embedding

    The module [intent/maxact.py] builds, with Theano, the update of a
    streaming top-N table: for every unit of a monitored output it keeps the
    N largest activations seen so far together with the coordinates of the
    examples that produced them.

    The file has three layers.
    - [Module Tensor]: the part of NumPy/Theano that the source calls
      (n-dimensional arrays with a shape, broadcasting, integer-array
      indexing, [arange], [tile], [concatenate], [argmax], [argsort], ...).
    - the functions of [maxact.py], translated line by line on top of it.
    - the properties of the update, first with a stable [argsort], then
      for every sorting routine [argsort] may run.

    Activations are floating-point numbers in the source.  The update only
    copies, negates and compares them, which is exact on floats (NaN apart),
    so they are represented by integers ([Z]); index tensors are [int64]
    arrays and are integers in the source too. *)

From Stdlib Require Import ZArith List Lia Bool Arith PeanoNat.
From Stdlib Require Import Sorting.Sorted Sorting.Permutation.
Import ListNotations.

(** ** An error monad for the calls that can raise *)

Definition bind {A B : Type} (m : option A) (f : A -> option B) : option B :=
  match m with
  | Some a => f a
  | None => None
  end.

Notation "x <- m ;; k" := (bind m (fun x => k))
  (at level 61, m at next level, right associativity).

Fixpoint mapM {A B : Type} (f : A -> option B) (l : list A) : option (list B) :=
  match l with
  | [] => Some []
  | a :: l' => b <- f a ;; bs <- mapM f l' ;; Some (b :: bs)
  end.

Fixpoint map2 {A B C : Type} (f : A -> B -> C) (la : list A) (lb : list B)
  : list C :=
  match la, lb with
  | a :: la', b :: lb' => f a b :: map2 f la' lb'
  | _, _ => []
  end.

Fixpoint forallb2 {A B : Type} (f : A -> B -> bool) (la : list A) (lb : list B)
  : bool :=
  match la, lb with
  | a :: la', b :: lb' => f a b && forallb2 f la' lb'
  | _, _ => true
  end.

(** ** Sorting keys: the permutation that sorts a list *)

(** Modelled from the spec: [argsort] is NumPy's, not part of this
    repository.  It returns the positions of the keys in ascending order of
    key; on equal keys the spec fixes "argsort's underlying stable order",
    that is, equal keys keep their original relative order.  The model is
    an insertion sort of the positions: [insert_by] puts position [i] after
    every position whose key is not greater.

    The source calls [argsort] with its default sort kind, for which NumPy
    does not promise this order of equal keys.  What depends on the order
    of equal keys is therefore stated for every routine that sorts, see
    [sorts] and [_create_maximum_activation_update_with]. *)
Fixpoint insert_by (key : nat -> Z) (i : nat) (l : list nat) : list nat :=
  match l with
  | [] => [i]
  | j :: l' =>
      if (key i <? key j)%Z then i :: j :: l' else j :: insert_by key i l'
  end.

(** Modelled from the spec: NumPy's [argsort] of a list of keys, as a
    stable sort (see [insert_by]). *)
Definition argsort_list (keys : list Z) : list nat :=
  let key i := nth i keys 0%Z in
  fold_left (fun acc i => insert_by key i acc) (seq 0 (length keys)) [].

(** Position of the first maximum of a non-empty list (NumPy's [argmax]
    returns the first occurrence of the maximum). *)
Fixpoint argmax_from (best : nat) (bestv : Z) (i : nat) (l : list Z) : nat :=
  match l with
  | [] => best
  | x :: l' =>
      if (bestv <? x)%Z then argmax_from i x (S i) l'
      else argmax_from best bestv (S i) l'
  end.

Definition argmax_list (l : list Z) : nat :=
  match l with
  | [] => 0
  | x :: l' => argmax_from 0 x 1 l'
  end.

Definition max_list (l : list Z) : Z :=
  match l with
  | [] => 0%Z
  | x :: l' => fold_left Z.max l' x
  end.

(** ** Tensors *)

Module Tensor.

(** An n-dimensional array: its shape and the item at every multi-index. *)
Record tensor : Type := Tensor { shape : list nat; item : list nat -> Z }.

Definition ndim (t : tensor) : nat := length (shape t).

(** All multi-indices of a shape, in row-major order. *)
Fixpoint indices_of (sh : list nat) : list (list nat) :=
  match sh with
  | [] => [[]]
  | n :: sh' =>
      flat_map (fun i => map (cons i) (indices_of sh')) (seq 0 n)
  end.

(** The items in row-major order ([ravel]). *)
Definition ravel (t : tensor) : list Z := map (item t) (indices_of (shape t)).

(** Reading and writing matrices and higher-rank arrays as nested lists. *)
Definition dim (t : tensor) (a : nat) : nat := nth a (shape t) 0.

Definition to_list1 (t : tensor) : list Z :=
  map (fun i => item t [i]) (seq 0 (dim t 0)).

Definition to_list2 (t : tensor) : list (list Z) :=
  map (fun i => map (fun j => item t [i; j]) (seq 0 (dim t 1)))
      (seq 0 (dim t 0)).

Definition to_list3 (t : tensor) : list (list (list Z)) :=
  map (fun i =>
         map (fun j => map (fun k => item t [i; j; k]) (seq 0 (dim t 2)))
             (seq 0 (dim t 1)))
      (seq 0 (dim t 0)).

Definition of_list1 (l : list Z) : tensor :=
  Tensor [length l] (fun s => nth (nth 0 s 0) l 0%Z).

Definition of_list2 (cols : nat) (l : list (list Z)) : tensor :=
  Tensor [length l; cols]
         (fun s => nth (nth 1 s 0) (nth (nth 0 s 0) l []) 0%Z).

Definition of_list4 (units h w : nat) (l : list (list (list (list Z))))
  : tensor :=
  Tensor [length l; units; h; w]
         (fun s =>
            nth (nth 3 s 0)
                (nth (nth 2 s 0) (nth (nth 1 s 0) (nth (nth 0 s 0) l []) []) [])
                0%Z).

(** [numpy.zeros(shape)]: a negative dimension raises [ValueError]. *)
Definition zeros (sh : list nat) : tensor := Tensor sh (fun _ => 0%Z).

Definition np_zeros (sh : list Z) : option tensor :=
  if forallb (fun d => (0 <=? d)%Z) sh
  then Some (zeros (map Z.to_nat sh))
  else None.

(** [tensor.arange(n)]. *)
Definition arange (n : nat) : tensor :=
  Tensor [n] (fun s => Z.of_nat (nth 0 s 0)).

(** Elementwise operations. *)
Definition tmap (f : Z -> Z) (t : tensor) : tensor :=
  Tensor (shape t) (fun s => f (item t s)).

Definition neg (t : tensor) : tensor := tmap Z.opp t.

(** [int64] arithmetic wraps around. *)
Definition wrap64 (z : Z) : Z :=
  ((z + 2 ^ 63) mod 2 ^ 64 - 2 ^ 63)%Z.

Definition add_scalar (t : tensor) (z : Z) : tensor :=
  tmap (fun x => wrap64 (x + z)) t.

(** Python's [divmod(t, d)] on an integer tensor: floor division and the
    remainder with the sign of the divisor, elementwise. *)
Definition tdivmod (t : tensor) (d : Z) : tensor * tensor :=
  (tmap (fun x => (x / d)%Z) t, tmap (fun x => (x mod d)%Z) t).

(** [x.dimshuffle(pattern)]: [Some k] takes input axis [k], [None] ('x')
    inserts a broadcastable axis of length 1. *)
Fixpoint position_of (k : nat) (pattern : list (option nat)) : nat :=
  match pattern with
  | [] => 0
  | Some k' :: p' => if k =? k' then 0 else S (position_of k p')
  | None :: p' => S (position_of k p')
  end.

Definition dimshuffle (t : tensor) (pattern : list (option nat)) : tensor :=
  Tensor (map (fun p => match p with
                        | Some k => nth k (shape t) 1
                        | None => 1
                        end) pattern)
         (fun s => item t (map (fun k => nth (position_of k pattern) s 0)
                               (seq 0 (ndim t)))).

(** [tensor.shape_padright(t, n_ones)]. *)
Definition shape_padright (t : tensor) (n_ones : nat) : tensor :=
  Tensor (shape t ++ repeat 1 n_ones) (fun s => item t (firstn (ndim t) s)).

(** [tensor.tile(x, reps)], with one repetition count per axis of [x]. *)
Definition tile (t : tensor) (reps : list nat) : tensor :=
  Tensor (map2 Nat.mul (shape t) reps)
         (fun s => item t (map2 (fun i d => i mod d) s (shape t))).

(** [tensor.concatenate((a, b), axis=0)]: the other axes must agree. *)
Definition concatenate0 (a b : tensor) : option tensor :=
  match shape a, shape b with
  | na :: ra, nb :: rb =>
      if list_eq_dec Nat.eq_dec ra rb
      then Some (Tensor (na + nb :: ra)
                   (fun s => match s with
                             | i :: r =>
                                 if i <? na then item a (i :: r)
                                 else item b (i - na :: r)
                             | [] => 0%Z
                             end))
      else None
  | _, _ => None
  end.

(** Multi-index surgery along one axis. *)
Definition remove_axis {A : Type} (axis : nat) (s : list A) : list A :=
  firstn axis s ++ skipn (S axis) s.

Definition insert_axis {A : Type} (axis : nat) (x : A) (s : list A) : list A :=
  firstn axis s ++ x :: skipn axis s.

Definition set_axis {A : Type} (axis : nat) (x : A) (s : list A) : list A :=
  firstn axis s ++ x :: skipn (S axis) s.

(** [tensor.stack(ts, axis)]: equal shapes, a new axis of length [len(ts)]. *)
Definition stack (ts : list tensor) (axis : nat) : option tensor :=
  match ts with
  | [] => None
  | t0 :: _ =>
      if forallb (fun t => if list_eq_dec Nat.eq_dec (shape t) (shape t0)
                           then true else false) ts
      then Some (Tensor (insert_axis axis (length ts) (shape t0))
                   (fun s => item (nth (nth axis s 0) ts t0)
                                  (remove_axis axis s)))
      else None
  end.

(** Row-major position -> multi-index. *)
Fixpoint unravel (sh : list nat) (n : nat) : list nat :=
  match sh with
  | [] => []
  | d :: sh' =>
      let m := fold_right Nat.mul 1 sh' in
      (n / m) :: unravel sh' (n mod m)
  end.

(** [t.flatten(ndim=k)]: the axes from [k-1] on are rolled into one. *)
Definition flatten (t : tensor) (k : nat) : option tensor :=
  if (1 <=? k) && (k <=? ndim t) then
    let lead := firstn (k - 1) (shape t) in
    let rest := skipn (k - 1) (shape t) in
    Some (Tensor (lead ++ [fold_right Nat.mul 1 rest])
            (fun s => item t (firstn (k - 1) s
                                ++ unravel rest (nth (k - 1) s 0))))
  else None.

(** The items of [t] along [axis] at the position [s] of the other axes. *)
Definition lane (t : tensor) (axis : nat) (s : list nat) : list Z :=
  map (fun r => item t (insert_axis axis r s)) (seq 0 (dim t axis)).

(** [t.argmax(axis)] and [t.max(axis)] (here [amax]): an empty axis
    raises. *)
Definition argmax (t : tensor) (axis : nat) : option tensor :=
  if (axis <? ndim t) && negb (dim t axis =? 0) then
    Some (Tensor (remove_axis axis (shape t))
            (fun s => Z.of_nat (argmax_list (lane t axis s))))
  else None.

Definition amax (t : tensor) (axis : nat) : option tensor :=
  if (axis <? ndim t) && negb (dim t axis =? 0) then
    Some (Tensor (remove_axis axis (shape t))
            (fun s => max_list (lane t axis s)))
  else None.

(** [t.argsort(axis)]: along [axis], the positions in ascending order of
    item. *)
Definition argsort (t : tensor) (axis : nat) : tensor :=
  Tensor (shape t)
         (fun s => Z.of_nat
                     (nth (nth axis s 0)
                          (argsort_list (lane t axis (remove_axis axis s))) 0)).

(** [t[:k]] on the first axis, with Python's reading of a negative [k]. *)
Definition slice_to (t : tensor) (k : Z) : tensor :=
  match shape t with
  | [] => t
  | n :: r =>
      let stop := if (k <? 0)%Z then Z.to_nat (Z.of_nat n + k)
                  else Nat.min (Z.to_nat k) n in
      Tensor (stop :: r) (item t)
  end.

(** *** Broadcasting and integer-array indexing *)

Definition lpad (r : nat) (sh : list nat) : list nat :=
  repeat 1 (r - length sh) ++ sh.

Definition bdim (x y : nat) : option nat :=
  if x =? y then Some x
  else if x =? 1 then Some y
  else if y =? 1 then Some x
  else None.

Fixpoint bdims (a b : list nat) : option (list nat) :=
  match a, b with
  | [], [] => Some []
  | x :: a', y :: b' =>
      d <- bdim x y ;; r <- bdims a' b' ;; Some (d :: r)
  | _, _ => None
  end.

Definition broadcast_shapes (shs : list (list nat)) : option (list nat) :=
  let r := list_max (map (@length nat) shs) in
  fold_right (fun sh acc => a <- acc ;; bdims (lpad r sh) a)
             (Some (repeat 1 r)) shs.

(** The item of [t] seen at position [s] of a broadcast shape: axes are
    aligned on the right and an axis of length 1 is read at 0. *)
Definition bidx (d i : nat) : nat := if d =? 1 then 0 else i.

Definition bitem (t : tensor) (s : list nat) : Z :=
  item t (map2 bidx (shape t) (skipn (length s - ndim t) s)).

(** An index [v] along an axis of length [d]: negative indices count from
    the end, anything outside [-d, d) raises [IndexError]. *)
Definition in_bounds (d : nat) (v : Z) : bool :=
  ((- Z.of_nat d <=? v) && (v <? Z.of_nat d))%Z.

Definition resolve (d : nat) (v : Z) : nat :=
  Z.to_nat (if (v <? 0)%Z then v + Z.of_nat d else v)%Z.

(** [data[tuple(idxs)]] with one integer array per axis of [data]: the index
    arrays are broadcast together and the result has the broadcast shape.
    (The tuples built in this module always have [ndim] entries.) *)
Definition adv_index (data : tensor) (idxs : list tensor) : option tensor :=
  if length idxs =? ndim data then
    bs <- broadcast_shapes (map shape idxs) ;;
    if forallb (fun s => forallb2 (fun d ix => in_bounds d (bitem ix s))
                                  (shape data) idxs)
               (indices_of bs)
    then Some (Tensor bs
                 (fun s => item data
                             (map2 (fun d ix => resolve d (bitem ix s))
                                   (shape data) idxs)))
    else None
  else None.

End Tensor.

Import Tensor.

(** ** The functions of [intent/maxact.py] *)

(** [_axis_count(shape, axis, ndim)]: [arange(shape[axis])] laid along axis
    [axis] of an [ndim]-dimensional array, every other axis broadcastable. *)
Definition _axis_count (shp : list nat) (axis ndim : nat) : tensor :=
  dimshuffle (arange (nth axis shp 0))
             (map (fun a => if axis =? a then Some 0 else None) (seq 0 ndim)).

(** [_apply_perm(data, indices, axis)]. *)
Definition _apply_perm (data indices : tensor) (axis : nat) : option tensor :=
  let ndim := Tensor.ndim data in
  let shp := shape data in
  let indices :=
    if Tensor.ndim indices <? ndim
    then shape_padright indices (ndim - Tensor.ndim indices)
    else indices in
  adv_index data
    (map (fun a => if a =? axis then indices else _axis_count shp a ndim)
         (seq 0 ndim)).

(** [_apply_index(data, indices, axis)]. *)
Definition _apply_index (data indices : tensor) (axis : nat) : option tensor :=
  let ndim := Tensor.ndim data in
  let shp := shape data in
  let indices :=
    if Tensor.ndim indices <? ndim - 1
    then shape_padright indices (ndim - Tensor.ndim indices - 1)
    else indices in
  adv_index data
    (map (fun a => if a =? axis then indices
                   else if a <? axis then _axis_count shp a (ndim - 1)
                   else _axis_count shp (a - 1) (ndim - 1))
         (seq 0 ndim)).

(** The statistics record of one monitored output: the tuple
    [(dims, quantity, index, snapshot)]. *)
Record stat_record : Type := StatRecord {
  dims : list Z;
  maximums : tensor;
  indices : tensor;
  snapshot : option tensor
}.

(** The [dims] argument: an integer (dense output) or a tuple
    (units, height, width).  When the caller gives none the source asks the
    brick that produced the output; the answer is one of these two forms. *)
Inductive dims_arg : Type :=
| DimsInt (n : Z)
| DimsTuple (d : list Z).

(** [_create_maximum_activation_for(output, topn, dims)]. *)
Definition _create_maximum_activation_for (topn : Z) (dims : dims_arg)
  : option stat_record :=
  match dims with
  | DimsInt n =>
      let dims := [n] in
      index <- np_zeros [topn; n] ;;
      quantity <- np_zeros [topn; n] ;;
      Some (StatRecord dims quantity index None)
  | DimsTuple dims =>
      d0 <- nth_error dims 0 ;;
      index <- np_zeros [topn; d0; 3%Z] ;;
      snapshot <- np_zeros (topn :: dims) ;;
      quantity <- np_zeros [topn; d0] ;;
      Some (StatRecord dims quantity index (Some snapshot))
  end.

(** [_create_maximum_activation_update(output, record, streamindex, topn)]:
    the new values of [maximums], [indices] and, when there is one,
    [snapshot]. *)
Definition _create_maximum_activation_update
    (output : tensor) (record : stat_record) (streamindex : Z) (topn : Z)
  : option (tensor * tensor * option tensor) :=
  b <- nth_error (shape output) 0 ;;
  u <- nth_error (shape output) 1 ;;
  let counters :=
    tile (shape_padright (add_scalar (arange b) streamindex) 1) [1; u] in
  tt <- (if length (dims record) =? 1 then
           (* output is a 2d tensor, (cases, units) -> activation *)
           Some (output, counters)
         else
           (* output is a 4d tensor: fmax flattens it to 3d *)
           fmax <- flatten output 3 ;;
           fargmax <- argmax fmax 2 ;;
           tmax <- _apply_index fmax fargmax 2 ;;
           d2 <- nth_error (dims record) 2 ;;
           let targmax := tdivmod fargmax d2 in
           tind <- stack [counters; fst targmax; snd targmax] 2 ;;
           Some (tmax, tind)) ;;
  let tmax := fst tt in
  let tind := snd tt in
  cmax <- concatenate0 (maximums record) tmax ;;
  cind <- concatenate0 (indices record) tind ;;
  let cargsort := slice_to (argsort (neg cmax) 0) topn in
  newmax <- _apply_perm cmax cargsort 0 ;;
  newind <- _apply_perm cind cargsort 0 ;;
  match snapshot record with
  | Some snap =>
      csnap <- concatenate0 snap output ;;
      newsnap <- _apply_perm csnap cargsort 0 ;;
      Some (newmax, newind, Some newsnap)
  | None => Some (newmax, newind, None)
  end.

(** The controller [MaximumActivationSearch]: the top-N size, the position
    in the data stream (an [int64] shared scalar) and one record per
    monitored output. *)
Record MaximumActivationSearch : Type := Controller {
  topn : Z;
  streamindex : Z;
  maximum_activations : list stat_record
}.

(** [MaximumActivationSearch.__init__(outputs, dims, topn)].  An output is
    given by its [dims].  The update bundle ends with the advance of
    [streamindex] by [outputs[0].shape[0]], which needs a first output.

    The source also builds the symbolic update of every record here, and
    keys the records by output.  The model covers the allocation of the
    records and the read of [outputs[0]]; it stands for the source when the
    outputs are distinct variables and every [dims] is an integer (for a 2d
    output) or a (units, height, width) tuple (for a 4d output), the case
    [dims_ok] below, in which building the updates does not raise. *)
Definition MaximumActivationSearch_init (outputs : list dims_arg) (topn : Z)
  : option MaximumActivationSearch :=
  records <- mapM (_create_maximum_activation_for topn) outputs ;;
  _ <- nth_error outputs 0 ;;
  Some (Controller topn 0 records).

(** The update bundle registered by [__init__] is applied by the training
    step of the framework: every shared variable takes its new value,
    computed from the old values, once per step.  [zipM] pairs the batch
    values with the records and fails when their numbers differ. *)
Fixpoint zipM {A B C : Type} (f : A -> B -> option C)
    (la : list A) (lb : list B) : option (list C) :=
  match la, lb with
  | [], [] => Some []
  | a :: la', b :: lb' =>
      c <- f a b ;; cs <- zipM f la' lb' ;; Some (c :: cs)
  | _, _ => None
  end.

(** A record after its updates [(maximums, newmax)], [(indices, newind)]
    and, when there is a snapshot, [(snapshot, newsnap)]. *)
Definition apply_updates (r : stat_record)
    (u : tensor * tensor * option tensor) : stat_record :=
  let '(newmax, newind, newsnap) := u in
  StatRecord (dims r) newmax newind
             (match newsnap with Some s => Some s | None => snapshot r end).

(** One training step: the registered updates are computed from the old
    values and applied together, the last of them
    [(streamindex, streamindex + outputs[0].shape[0])].  [outputs] holds
    the batch value of every monitored output, in the order of
    construction. *)
Definition process_batch (c : MaximumActivationSearch) (outputs : list tensor)
  : option MaximumActivationSearch :=
  records <- zipM (fun o r =>
                     u <- _create_maximum_activation_update
                            o r (streamindex c) (topn c) ;;
                     Some (apply_updates r u))
                  outputs (maximum_activations c) ;;
  o0 <- nth_error outputs 0 ;;
  b <- nth_error (shape o0) 0 ;;
  Some (Controller (topn c)
                   (wrap64 (streamindex c + Z.of_nat b))
                   records).

(** A sequence of training steps. *)
Fixpoint process_batches (c : MaximumActivationSearch)
    (batches : list (list tensor)) : option MaximumActivationSearch :=
  match batches with
  | [] => Some c
  | outputs :: rest =>
      c' <- process_batch c outputs ;; process_batches c' rest
  end.

(** * The vocabulary of the properties

    These definitions are not code of the repository: they name what the
    lemmas and theorems talk about. *)

(** [before key i j]: position [i] is ranked before position [j], by key
    and, on equal keys, by position. *)
Definition before (key : nat -> Z) (i j : nat) : Prop :=
  (key i < key j)%Z \/ (key i = key j /\ i < j).

(** The key at a position of a list of keys. *)
Definition key_of (keys : list Z) (i : nat) : Z := nth i keys 0%Z.

(** The items of unit [u] along the ranking axis of a (slots, units) matrix. *)
Definition column (t : tensor) (u : nat) : list Z := lane t 0 [u].

(** [counters]: the stream position of every example of the batch, repeated
    for every unit. *)
Definition counters_of (b u : nat) (streamindex : Z) : tensor :=
  tile (shape_padright (add_scalar (arange b) streamindex) 1) [1; u].

(** The values of one feature map, rolled out row by row. *)
Definition feature_map (output : tensor) (h w e u : nat) : list Z :=
  map (fun k => item output [e; u; k / w; k mod w]) (seq 0 (h * w)).

(** The candidates of unit [u] are the retained entries followed by the
    entries of the batch.  [rank maximums tmax u i] is the candidate ranked
    [i]-th by the update. *)
Definition rank (maximums tmax : tensor) (u i : nat) : nat :=
  nth i (argsort_list (map Z.opp (column maximums u ++ column tmax u))) 0.

(** [pick old new n p rest] reads candidate [p] in the concatenation of
    [old] (with [n] slots) and [new]. *)
Definition pick (old new : tensor) (n p : nat) (rest : list nat) : Z :=
  if p <? n then item old (p :: rest) else item new (p - n :: rest).

(** A monitored output is described by the [dims] it was declared with;
    [units] is its number of units, [dims[0]]. *)
Definition units (d : dims_arg) : nat :=
  match d with
  | DimsInt n => Z.to_nat n
  | DimsTuple (u :: _) => Z.to_nat u
  | DimsTuple [] => 0
  end.

(** The declared dimensions the update works with: a unit count, or
    (units, height, width) with a non-empty feature map. *)
Definition dims_ok (d : dims_arg) : Prop :=
  match d with
  | DimsInt n => (0 <= n)%Z
  | DimsTuple [u; h; w] => (0 <= u)%Z /\ (0 < h)%Z /\ (0 < w)%Z
  | DimsTuple _ => False
  end.

(** The shapes of the buffers of a record with [N] slots. *)
Definition record_shape (N : nat) (d : dims_arg) (r : stat_record) : Prop :=
  shape (maximums r) = [N; units d] /\
  match d with
  | DimsInt n =>
      dims r = [n] /\ snapshot r = None /\
      shape (indices r) = [N; units d]
  | DimsTuple dd =>
      dims r = dd /\ shape (indices r) = [N; units d; 3] /\
      exists snap, snapshot r = Some snap /\
                   shape snap = N :: map Z.to_nat dd
  end.

(** The shape of a batch of [b] examples of such an output. *)
Definition batch_shape (b : nat) (d : dims_arg) (o : tensor) : Prop :=
  match d with
  | DimsInt n => shape o = [b; Z.to_nat n]
  | DimsTuple dd => shape o = b :: map Z.to_nat dd
  end.

(** The coordinate recorded in slot [(i, u)] of an index buffer: the example
    for a dense output, (example, row, column) for a spatial one. *)
Definition coord (d : dims_arg) (ind : tensor) (i u : nat) : list Z :=
  match d with
  | DimsInt _ => [item ind [i; u]]
  | DimsTuple _ => [item ind [i; u; 0]; item ind [i; u; 1]; item ind [i; u; 2]]
  end.

(** Example [e] of the batch [o], seen at stream position [pos], yields for
    unit [u] the candidate quantity [q] with coordinate [c]. *)
Definition produced (d : dims_arg) (o : tensor) (pos : Z) (e u : nat)
    (q : Z) (c : list Z) : Prop :=
  match d with
  | DimsInt _ => q = item o [e; u] /\ c = [wrap64 (Z.of_nat e + pos)]
  | DimsTuple _ =>
      exists row col,
        row < dim o 2 /\ col < dim o 3 /\
        q = item o [e; u; row; col] /\
        c = [wrap64 (Z.of_nat e + pos); Z.of_nat row; Z.of_nat col]
  end.

(** The activation that batch [o], whose first example has stream position
    [start], holds at the coordinate [c] for unit [u]. *)
Definition fetch_batch (d : dims_arg) (o : tensor) (start : Z) (u : nat)
    (c : list Z) : option Z :=
  match c with
  | [] => None
  | p :: loc =>
      if ((start <=? p) && (p <? start + Z.of_nat (dim o 0)))%Z then
        let e := Z.to_nat (p - start) in
        match d, loc with
        | DimsInt _, [] => Some (item o [e; u])
        | DimsTuple _, [row; col] =>
            if ((0 <=? row) && (row <? Z.of_nat (dim o 2))
                && (0 <=? col) && (col <? Z.of_nat (dim o 3)))%Z
            then Some (item o [e; u; Z.to_nat row; Z.to_nat col])
            else None
        | _, _ => None
        end
      else None
  end.

(** The same over the whole history of batches of one output, the first
    batch starting at stream position [start]. *)
Fixpoint fetch (d : dims_arg) (history : list tensor) (start : Z) (u : nat)
    (c : list Z) : option Z :=
  match history with
  | [] => None
  | o :: h =>
      match fetch_batch d o start u c with
      | Some q => Some q
      | None => fetch d h (start + Z.of_nat (dim o 0)) u c
      end
  end.

(** Number of examples in a history. *)
Definition total (history : list tensor) : Z :=
  fold_right (fun o acc => (Z.of_nat (dim o 0) + acc)%Z) 0%Z history.

(** A slot either still holds the zero entry of the initial record, or
    re-fetching its coordinate from the history gives back its quantity. *)
Definition slot_ok (d : dims_arg) (history : list tensor) (u : nat) (q : Z)
    (c : list Z) : Prop :=
  (q = 0%Z /\ Forall (eq 0%Z) c) \/ fetch d history 0 u c = Some q.

(** Every column of a (slots, units) matrix is non-increasing. *)
Definition sorted_columns (N U : nat) (t : tensor) : Prop :=
  forall u i j, u < U -> i <= j -> j < N ->
                (item t [j; u] <= item t [i; u])%Z.

(** The invariant of a record after the batches of [history]. *)
Definition record_inv (N : nat) (d : dims_arg) (history : list tensor)
    (r : stat_record) : Prop :=
  record_shape N d r /\
  sorted_columns N (units d) (maximums r) /\
  forall i u, i < N -> u < units d ->
    slot_ok d history u (item (maximums r) [i; u]) (coord d (indices r) i u).

(** One step feeds one batch value per monitored output; the values of one
    step share their batch size (the precondition of the source, which
    advances the stream position by the batch size of the first output). *)
Definition step_ok (ds : list dims_arg) (outs : list tensor) : Prop :=
  exists b, Forall2 (batch_shape b) ds outs.

(** The batch size of a step: [outputs[0].shape[0]]. *)
Definition batch_size (outs : list tensor) : nat :=
  dim (nth 0 outs (zeros [])) 0.

(** Number of examples in a sequence of steps. *)
Definition position (batches : list (list tensor)) : Z :=
  fold_right (fun outs acc => (Z.of_nat (batch_size outs) + acc)%Z) 0%Z
             batches.

(** The batches seen by output [k]. *)
Definition history (k : nat) (batches : list (list tensor)) : list tensor :=
  map (fun outs => nth k outs (zeros [])) batches.

(** The invariant of the controller after the steps of [batches]. *)
Definition controller_inv (N : nat) (ds : list dims_arg)
    (batches : list (list tensor)) (c : MaximumActivationSearch) : Prop :=
  topn c = Z.of_nat N /\
  streamindex c = position batches /\
  length (maximum_activations c) = length ds /\
  forall k d r,
    nth_error ds k = Some d ->
    nth_error (maximum_activations c) k = Some r ->
    record_inv N d (history k batches) r.

(** The buffers of a freshly allocated record hold zeros. *)
Definition zero_record (d : dims_arg) (r : stat_record) : Prop :=
  (forall s, item (maximums r) s = 0%Z) /\
  (forall s, item (indices r) s = 0%Z).

(** A record of a dense output with one unit and two slots, as it stands
    after the batch [[5], [1]]. *)
Definition record_5_1 : stat_record :=
  StatRecord [1%Z] (of_list2 1 [[5%Z]; [1%Z]]) (of_list2 1 [[0%Z]; [1%Z]])
             None.

(** The quantities and the indices of every record, as nested lists. *)
Definition view2 (c : MaximumActivationSearch)
  : list (list (list Z) * list (list Z)) :=
  map (fun r => (to_list2 (maximums r), to_list2 (indices r)))
      (maximum_activations c).

(** Index-quantity correspondence as the specification states it: after
    any run, re-fetching the coordinate of every slot gives back the
    quantity of the slot. *)
Definition index_quantity_correspondence (N : nat) (ds : list dims_arg)
    (batches : list (list tensor)) : Prop :=
  forall c0 c,
    MaximumActivationSearch_init ds (Z.of_nat N) = Some c0 ->
    process_batches c0 batches = Some c ->
    forall k d r,
      nth_error ds k = Some d ->
      nth_error (maximum_activations c) k = Some r ->
      forall i u, i < N -> u < units d ->
        fetch d (history k batches) 0 u (coord d (indices r) i u)
        = Some (item (maximums r) [i; u]).

(** The coordinate [c] of a slot of quantity [q] is that of an example of
    the history: its example component lies in [0, sum) and is the stream
    position at the start of some batch plus an offset within that batch,
    and the example found there has activation [q] at the recorded
    location. *)
Definition recorded_example (d : dims_arg) (history : list tensor) (sum : Z)
    (u : nat) (q : Z) (c : list Z) : Prop :=
  exists p loc j o e,
    c = p :: loc /\ (0 <= p < sum)%Z /\
    nth_error history j = Some o /\ e < dim o 0 /\
    p = (total (firstn j history) + Z.of_nat e)%Z /\
    fetch_batch d o (total (firstn j history)) u c = Some q.

(** Stream position and coordinate range as the specification states
    them: the position is the number of examples seen, and every slot
    records an example of the history. *)
Definition stream_position_claim (N : nat) (ds : list dims_arg)
    (batches : list (list tensor)) : Prop :=
  forall c0 c,
    MaximumActivationSearch_init ds (Z.of_nat N) = Some c0 ->
    process_batches c0 batches = Some c ->
    streamindex c = position batches /\
    forall k d r,
      nth_error ds k = Some d ->
      nth_error (maximum_activations c) k = Some r ->
      forall i u, i < N -> u < units d ->
        recorded_example d (history k batches) (position batches) u
                         (item (maximums r) [i; u])
                         (coord d (indices r) i u).

(** A batch without any activation. *)
Definition all_zero (o : tensor) : Prop := forall s, item o s = 0%Z.

(** The arguments with which the buffers of a record can be allocated: no
    negative dimension, and a tuple of dimensions has a first entry. *)
Definition allocatable (topn : Z) (d : dims_arg) : Prop :=
  (0 <= topn)%Z /\
  match d with
  | DimsInt n => (0 <= n)%Z
  | DimsTuple dd => dd <> [] /\ Forall (fun x => (0 <= x)%Z) dd
  end.

(** The quantity with which example [e] of a batch competes for unit [u]:
    its activation for a dense output, the maximum of its feature map for a
    spatial one. *)
Definition batch_quantity (d : dims_arg) (o : tensor) (e u : nat) : Z :=
  match d with
  | DimsInt _ => item o [e; u]
  | DimsTuple dd =>
      max_list (feature_map o (Z.to_nat (nth 1 dd 0%Z))
                              (Z.to_nat (nth 2 dd 0%Z)) e u)
  end.

(** The candidates of unit [u] at an update: the retained quantities
    followed by the quantities of the batch. *)
Definition candidates (d : dims_arg) (r : stat_record) (o : tensor) (u : nat)
  : list Z :=
  column (maximums r) u
  ++ map (fun e => batch_quantity d o e u) (seq 0 (dim o 0)).

(** The first [N] of a list of quantities put in descending order. *)
Definition top_n (N : nat) (cands : list Z) : list Z :=
  map (fun p => nth p cands 0%Z) (firstn N (argsort_list (map Z.opp cands))).

(** The snapshot of a spatial record agrees with its slots: the recorded
    (row, column) of every slot lies inside the feature map, the quantity of
    the slot is the value of its snapshot at that location, and no value of
    the snapshot exceeds it. *)
Definition snapshot_ok (N U h w : nat) (r : stat_record) : Prop :=
  exists snap,
    snapshot r = Some snap /\
    forall i u, i < N -> u < U ->
      exists row col,
        item (indices r) [i; u; 1] = Z.of_nat row /\
        item (indices r) [i; u; 2] = Z.of_nat col /\
        row < h /\ col < w /\
        item snap [i; u; row; col] = item (maximums r) [i; u] /\
        forall y x, y < h -> x < w ->
          (item snap [i; u; y; x] <= item (maximums r) [i; u])%Z.

(** ** The sort kind of [argsort]

    Line 119 calls [argsort] with its default sort kind.  Of every kind
    NumPy promises that the positions it returns put the keys in ascending
    order; only the stable kinds promise more, and the default kind is not
    one of them: the order in which it returns equal keys is left to the
    library.  The definitions of this part leave the sorting routine open,
    so that a property proved for every routine that sorts holds of the
    update whatever the library does on equal keys. *)

(** A sorting routine: from a list of keys to their positions in sorted
    order. *)
Definition sorter : Type := list Z -> list nat.

(** What [argsort] returns for every sort kind: each position once, the
    keys read in that order being ascending. *)
Definition sorts (s : sorter) : Prop :=
  forall keys,
    Permutation (seq 0 (length keys)) (s keys) /\
    forall i j, i <= j -> j < length keys ->
      (key_of keys (nth i (s keys) 0%nat)
       <= key_of keys (nth j (s keys) 0%nat))%Z.

(** [t.argsort(axis)] with the sorting routine [s]. *)
Definition argsort_with (s : sorter) (t : tensor) (axis : nat) : tensor :=
  Tensor (shape t)
         (fun idx => Z.of_nat
                       (nth (nth axis idx 0)
                            (s (lane t axis (remove_axis axis idx))) 0)).

(** [_create_maximum_activation_update(output, record, streamindex, topn)]
    with the sorting routine of line 119 left open; with [argsort_list] it
    is [_create_maximum_activation_update] above. *)
Definition _create_maximum_activation_update_with (s : sorter)
    (output : tensor) (record : stat_record) (streamindex : Z) (topn : Z)
  : option (tensor * tensor * option tensor) :=
  b <- nth_error (shape output) 0 ;;
  u <- nth_error (shape output) 1 ;;
  let counters :=
    tile (shape_padright (add_scalar (arange b) streamindex) 1) [1; u] in
  tt <- (if length (dims record) =? 1 then
           Some (output, counters)
         else
           fmax <- flatten output 3 ;;
           fargmax <- argmax fmax 2 ;;
           tmax <- _apply_index fmax fargmax 2 ;;
           d2 <- nth_error (dims record) 2 ;;
           let targmax := tdivmod fargmax d2 in
           tind <- stack [counters; fst targmax; snd targmax] 2 ;;
           Some (tmax, tind)) ;;
  let tmax := fst tt in
  let tind := snd tt in
  cmax <- concatenate0 (maximums record) tmax ;;
  cind <- concatenate0 (indices record) tind ;;
  let cargsort := slice_to (argsort_with s (neg cmax) 0) topn in
  newmax <- _apply_perm cmax cargsort 0 ;;
  newind <- _apply_perm cind cargsort 0 ;;
  match snapshot record with
  | Some snap =>
      csnap <- concatenate0 snap output ;;
      newsnap <- _apply_perm csnap cargsort 0 ;;
      Some (newmax, newind, Some newsnap)
  | None => Some (newmax, newind, None)
  end.

(** A routine that sorts and is not stable: an insertion sort that puts a
    position before the positions of equal key, so that equal keys come out
    in the reverse of their original order. *)
Fixpoint insert_first (key : nat -> Z) (i : nat) (l : list nat) : list nat :=
  match l with
  | [] => [i]
  | j :: l' =>
      if (key i <=? key j)%Z then i :: j :: l' else j :: insert_first key i l'
  end.

(** The sort by [insert_first].  It is not the library's routine: it is
    one more routine that does what the library promises of [argsort]. *)
Definition argsort_list_unstable : sorter :=
  fun keys =>
    let key i := nth i keys 0%Z in
    fold_left (fun acc i => insert_first key i acc) (seq 0 (length keys)) [].

(** [rank_with s maximums tmax u i] is the candidate of unit [u] ranked
    [i]-th by the update when [argsort] runs the routine [s]. *)
Definition rank_with (s : sorter) (maximums tmax : tensor) (u i : nat) : nat :=
  nth i (s (map Z.opp (column maximums u ++ column tmax u))) 0.

(** The coordinate with which example [e] of a batch competes for unit [u]:
    its stream position and, for a spatial output, the (row, column) of the
    first maximum of its feature map. *)
Definition batch_coord (d : dims_arg) (o : tensor) (pos : Z) (e u : nat)
  : list Z :=
  match d with
  | DimsInt _ => [wrap64 (Z.of_nat e + pos)]
  | DimsTuple dd =>
      let w := Z.to_nat (nth 2 dd 0%Z) in
      let k := argmax_list (feature_map o (Z.to_nat (nth 1 dd 0%Z)) w e u) in
      [wrap64 (Z.of_nat e + pos); Z.of_nat (k / w); Z.of_nat (k mod w)]
  end.

(** Candidate [p] of unit [u] at an update, quantity and coordinate: the
    retained slot [p] for [p < N], example [p - N] of the batch after. *)
Definition candidate (d : dims_arg) (N : nat) (r : stat_record) (o : tensor)
    (pos : Z) (u p : nat) : Z * list Z :=
  if p <? N then (item (maximums r) [p; u], coord d (indices r) p u)
  else (batch_quantity d o (p - N) u, batch_coord d o pos (p - N) u).

(** Slot [(i, u)] of the new values returned by an update, quantity and
    coordinate. *)
Definition slot (d : dims_arg) (res : option (tensor * tensor * option tensor))
    (i u : nat) : option (Z * list Z) :=
  match res with
  | Some (newmax, newind, _) => Some (item newmax [i; u], coord d newind i u)
  | None => None
  end.

(** The ranking the specification asks for: the positions of the
    candidates in descending order of quantity, candidates of equal
    quantity in their order in the concatenation (existing entries first,
    then the batch, each in original order): a stable sort. *)
Definition stable_rank (cands : list Z) : list nat :=
  argsort_list (map Z.opp cands).

(** The tie-break as the specification states it, for an update whose
    [argsort] runs [s]: every slot of the new values holds the candidate
    that the stable ranking puts at its place. *)
Definition stable_tie_break (s : sorter) (d : dims_arg) (N b : nat)
    (r : stat_record) (o : tensor) (pos : Z) : Prop :=
  dims_ok d -> record_shape N d r -> batch_shape b d o ->
  forall i u, i < N -> u < units d ->
    slot d (_create_maximum_activation_update_with s o r pos (Z.of_nat N))
         i u
    = Some (candidate d N r o pos u
              (nth i (stable_rank (candidates d r o u)) 0)).

(** Idempotent re-ranking as the specification states it, for an update
    whose [argsort] runs [s]: on a record in the order every update leaves
    it in, a unit whose quantities are all positive keeps the quantity and
    the coordinate of every slot under an all-zero batch. *)
Definition zero_batch_idempotence (s : sorter) (d : dims_arg) (N b : nat)
    (r : stat_record) (o : tensor) (pos : Z) (u : nat) : Prop :=
  dims_ok d -> record_shape N d r ->
  sorted_columns N (units d) (maximums r) ->
  batch_shape b d o -> all_zero o -> u < units d ->
  (forall i, i < N -> (0 < item (maximums r) [i; u])%Z) ->
  forall i, i < N ->
    slot d (_create_maximum_activation_update_with s o r pos (Z.of_nat N))
         i u
    = Some (item (maximums r) [i; u], coord d (indices r) i u).

(** A fresh record of a dense output with one unit and 17 slots, and a
    batch of 17 examples of activation 5. *)
Definition record_17_fresh : stat_record :=
  StatRecord [1%Z] (zeros [17; 1]) (zeros [17; 1]) None.

Definition batch_17_fives : tensor := Tensor [17; 1] (fun _ => 5%Z).


(** * Properties *)

(** ** The error monad *)

Lemma bind_some {A B : Type} (m : option A) (f : A -> option B) (b : B) :
  bind m f = Some b -> exists a, m = Some a /\ f a = Some b.
Proof.
  destruct m as [a|]; simpl; intros H; [exists a; auto | discriminate].
Qed.

(** ** The sorting permutation *)

Section ArgsortList.

Variable key : nat -> Z.

Lemma insert_by_perm (i : nat) (l : list nat) :
  Permutation (i :: l) (insert_by key i l).
Proof.
  induction l as [|j l IH]; simpl; [reflexivity|].
  destruct (key i <? key j)%Z; [reflexivity|].
  rewrite perm_swap. now constructor.
Qed.

Lemma insert_by_sorted (i : nat) (l : list nat) :
  StronglySorted (before key) l ->
  Forall (fun j => j < i) l ->
  StronglySorted (before key) (insert_by key i l).
Proof.
  induction l as [|j l IH]; simpl; intros Hs Hlt.
  - repeat constructor.
  - inversion Hs as [|? ? Hs' Hj]; subst.
    inversion Hlt as [|? ? Hji Hlt']; subst.
    destruct (key i <? key j)%Z eqn:E.
    + apply Z.ltb_lt in E. constructor; [assumption|].
      constructor; [left; assumption|].
      eapply Forall_impl; [|exact Hj].
      intros k [Hk|[Hk _]]; left; lia.
    + apply Z.ltb_ge in E. constructor; [auto|].
      eapply Permutation_Forall; [apply insert_by_perm|].
      constructor; [|assumption].
      unfold before. destruct (Z.eq_dec (key j) (key i)); [right|left]; lia.
Qed.

Lemma insert_by_last (i : nat) (l : list nat) :
  Forall (fun j => (key j <= key i)%Z) l -> insert_by key i l = l ++ [i].
Proof.
  induction 1 as [|j l Hj _ IH]; simpl; [reflexivity|].
  destruct (key i <? key j)%Z eqn:E; [apply Z.ltb_lt in E; lia|].
  now rewrite IH.
Qed.

Lemma fold_insert_spec (k a : nat) (acc : list nat) :
  Permutation (seq 0 a) acc ->
  StronglySorted (before key) acc ->
  let r := fold_left (fun acc i => insert_by key i acc) (seq a k) acc in
  Permutation (seq 0 (a + k)) r /\ StronglySorted (before key) r.
Proof.
  revert a acc. induction k as [|k IH]; intros a acc Hp Hs; simpl.
  - rewrite Nat.add_0_r. auto.
  - replace (a + S k) with (S a + k) by lia.
    apply IH.
    + rewrite seq_S. simpl.
      rewrite <- insert_by_perm.
      rewrite Permutation_app_comm. simpl. now constructor.
    + apply insert_by_sorted; [assumption|].
      eapply Permutation_Forall; [exact Hp|].
      apply Forall_forall. intros x Hx. apply in_seq in Hx. lia.
Qed.

Lemma fold_insert_sorted_id (k a : nat) :
  (forall i j, i <= j -> j < a + k -> (key i <= key j)%Z) ->
  fold_left (fun acc i => insert_by key i acc) (seq a k) (seq 0 a)
  = seq 0 (a + k).
Proof.
  revert a. induction k as [|k IH]; intros a H; simpl.
  - now rewrite Nat.add_0_r.
  - rewrite insert_by_last.
    + replace (seq 0 a ++ [a]) with (seq 0 (S a)) by (now rewrite seq_S).
      replace (a + S k) with (S a + k) by lia.
      apply IH. intros i j Hij Hj. apply H; lia.
    + apply Forall_forall. intros x Hx. apply in_seq in Hx.
      apply H; lia.
Qed.

End ArgsortList.

Lemma StronglySorted_nth {A : Type} (R : A -> A -> Prop) (l : list A) (d : A) :
  StronglySorted R l ->
  forall i j, i < j -> j < length l -> R (nth i l d) (nth j l d).
Proof.
  induction 1 as [|a l Hs IH Ha]; intros i j Hij Hj; simpl in *; [lia|].
  destruct j as [|j]; [lia|].
  destruct i as [|i].
  - rewrite Forall_forall in Ha. apply Ha. apply nth_In. lia.
  - apply IH; lia.
Qed.

Lemma argsort_list_spec (keys : list Z) :
  Permutation (seq 0 (length keys)) (argsort_list keys)
  /\ StronglySorted (before (key_of keys)) (argsort_list keys).
Proof.
  unfold argsort_list.
  apply (fold_insert_spec (key_of keys) (length keys) 0 []); constructor.
Qed.

Lemma argsort_list_length (keys : list Z) :
  length (argsort_list keys) = length keys.
Proof.
  destruct (argsort_list_spec keys) as [Hp _].
  apply Permutation_length in Hp. now rewrite length_seq in Hp.
Qed.

Lemma argsort_list_lt (keys : list Z) (i : nat) :
  i < length keys -> nth i (argsort_list keys) 0 < length keys.
Proof.
  intros Hi. destruct (argsort_list_spec keys) as [Hp _].
  assert (In (nth i (argsort_list keys) 0) (seq 0 (length keys))) as Hin.
  { eapply Permutation_in; [symmetry; exact Hp|].
    apply nth_In. now rewrite argsort_list_length. }
  apply in_seq in Hin. lia.
Qed.

Lemma argsort_list_before (keys : list Z) (i j : nat) :
  i < j -> j < length keys ->
  before (key_of keys) (nth i (argsort_list keys) 0)
                       (nth j (argsort_list keys) 0).
Proof.
  intros Hij Hj. destruct (argsort_list_spec keys) as [_ Hs].
  apply StronglySorted_nth; [assumption|assumption|].
  now rewrite argsort_list_length.
Qed.

Lemma argsort_list_sorted_id (keys : list Z) :
  (forall i j, i <= j -> j < length keys ->
               (key_of keys i <= key_of keys j)%Z) ->
  argsort_list keys = seq 0 (length keys).
Proof.
  intros H. unfold argsort_list.
  apply (fold_insert_sorted_id (key_of keys) (length keys) 0). exact H.
Qed.

(** ** Tensors: multi-indices, broadcasting, indexing *)

Lemma in_indices_of (sh s : list nat) :
  In s (indices_of sh) <-> Forall2 lt s sh.
Proof.
  revert s. induction sh as [|n sh IH]; intros s; simpl.
  - split.
    + intros [<-|[]]. constructor.
    + intros H. inversion H. now left.
  - rewrite in_flat_map. split.
    + intros (i & Hi & Hs). apply in_map_iff in Hs as (s' & <- & Hs').
      apply in_seq in Hi. constructor; [lia|]. now apply IH.
    + intros H. inversion H as [|i ? s' ? Hi Hs']; subst.
      exists i. split; [apply in_seq; lia|].
      apply in_map. now apply IH.
Qed.

Lemma bidx_lt (d i : nat) : i < d -> bidx d i = i.
Proof.
  unfold bidx. intros H. destruct (Nat.eqb_spec d 1); [lia | reflexivity].
Qed.

Lemma bidx_one (i : nat) : bidx 1 i = 0.
Proof. reflexivity. Qed.

Lemma bdim_refl (x : nat) : bdim x x = Some x.
Proof. unfold bdim. now rewrite Nat.eqb_refl. Qed.

Lemma bdim_1_r (x : nat) : bdim x 1 = Some x.
Proof.
  unfold bdim. destruct (Nat.eqb_spec x 1); [now subst | reflexivity].
Qed.

Lemma bdim_1_l (x : nat) : bdim 1 x = Some x.
Proof.
  unfold bdim. destruct (Nat.eqb_spec 1 x); [now subst | reflexivity].
Qed.

Lemma adv_index_some (data : tensor) (idxs : list tensor) (bs : list nat) :
  length idxs = ndim data ->
  broadcast_shapes (map shape idxs) = Some bs ->
  (forall s, Forall2 lt s bs ->
             forallb2 (fun d ix => in_bounds d (bitem ix s))
                      (shape data) idxs = true) ->
  adv_index data idxs
  = Some (Tensor bs
            (fun s => item data (map2 (fun d ix => resolve d (bitem ix s))
                                      (shape data) idxs))).
Proof.
  intros Hlen Hbs Hall. unfold adv_index.
  rewrite Hlen, Nat.eqb_refl, Hbs. simpl.
  replace (forallb _ (indices_of bs)) with true; [reflexivity|].
  symmetry. apply forallb_forall. intros s Hs.
  apply Hall. now apply in_indices_of.
Qed.

Lemma in_bounds_of_nat (d i : nat) : i < d -> in_bounds d (Z.of_nat i) = true.
Proof.
  intros H. unfold in_bounds. apply andb_true_iff.
  split; [apply Z.leb_le | apply Z.ltb_lt]; lia.
Qed.

Lemma resolve_of_nat (d i : nat) : resolve d (Z.of_nat i) = i.
Proof.
  unfold resolve. destruct (Z.ltb_spec (Z.of_nat i) 0); lia.
Qed.

Arguments bdim : simpl never.
Arguments bidx : simpl never.
Arguments in_bounds : simpl never.
Arguments resolve : simpl never.

Lemma in_bounds_nonneg (d : nat) (v : Z) :
  (0 <= v < Z.of_nat d)%Z -> in_bounds d v = true.
Proof.
  intros H. unfold in_bounds. apply andb_true_iff.
  split; [apply Z.leb_le | apply Z.ltb_lt]; lia.
Qed.

Lemma resolve_nonneg (d : nat) (v : Z) : (0 <= v)%Z -> resolve d v = Z.to_nat v.
Proof.
  intros H. unfold resolve. destruct (Z.ltb_spec v 0); [lia | reflexivity].
Qed.

(** Inversion of [Forall2 lt s sh] for a shape of known rank. *)
Ltac inv_index H :=
  repeat match type of H with
         | Forall2 lt _ (_ :: _) =>
             let i := fresh "i" in
             let s := fresh "s" in
             let Hi := fresh "Hi" in
             let Hs := fresh "Hs" in
             inversion H as [|i ? s ? Hi Hs]; subst; clear H; rename Hs into H
         | Forall2 lt _ [] => inversion H; subst; clear H
         end.

Ltac simpl_bcast :=
  cbn; rewrite ?bdim_refl, ?bdim_1_r, ?bdim_1_l;
  cbn; rewrite ?bdim_refl, ?bdim_1_r, ?bdim_1_l;
  cbn; rewrite ?bdim_refl, ?bdim_1_r, ?bdim_1_l;
  cbn; rewrite ?bdim_refl, ?bdim_1_r, ?bdim_1_l; cbn.

Ltac simpl_bidx :=
  cbn; rewrite ?bidx_one; rewrite ?bidx_lt by assumption; cbn.

(** *** [_apply_perm] along axis 0, for the three ranks the update uses *)

Lemma apply_perm0_2d (data idx : tensor) (M U N : nat) :
  shape data = [M; U] -> shape idx = [N; U] ->
  (forall i u, i < N -> u < U -> (0 <= item idx [i; u] < Z.of_nat M)%Z) ->
  exists t, _apply_perm data idx 0 = Some t /\ shape t = [N; U] /\
    forall i u, i < N -> u < U ->
      item t [i; u] = item data [Z.to_nat (item idx [i; u]); u].
Proof.
  intros Hd Hi Hr. destruct data as [sh f], idx as [shi fi].
  simpl in *. subst. unfold _apply_perm.
  cbn [Tensor.ndim shape length Nat.ltb Nat.leb seq map Nat.eqb].
  erewrite adv_index_some; [eexists; split; [reflexivity|] | reflexivity | |].
  - split; [reflexivity|]. intros i u Hi Hu. simpl_bidx.
    rewrite resolve_nonneg by (apply Hr; assumption).
    now rewrite resolve_of_nat.
  - simpl_bcast. reflexivity.
  - intros s Hs. inv_index Hs. simpl_bidx.
    rewrite in_bounds_nonneg by (apply Hr; assumption).
    now rewrite in_bounds_of_nat.
Qed.

Lemma apply_perm0_3d (data idx : tensor) (M U K N : nat) :
  shape data = [M; U; K] -> shape idx = [N; U] ->
  (forall i u, i < N -> u < U -> (0 <= item idx [i; u] < Z.of_nat M)%Z) ->
  exists t, _apply_perm data idx 0 = Some t /\ shape t = [N; U; K] /\
    forall i u k, i < N -> u < U -> k < K ->
      item t [i; u; k] = item data [Z.to_nat (item idx [i; u]); u; k].
Proof.
  intros Hd Hi Hr. destruct data as [sh f], idx as [shi fi].
  simpl in *. subst. unfold _apply_perm.
  cbn [Tensor.ndim shape length Nat.ltb Nat.leb seq map Nat.eqb].
  erewrite adv_index_some; [eexists; split; [reflexivity|] | reflexivity | |].
  - split; [reflexivity|]. intros i u k Hi Hu Hk. simpl_bidx.
    rewrite resolve_nonneg by (apply Hr; assumption).
    now rewrite !resolve_of_nat.
  - simpl_bcast. reflexivity.
  - intros s Hs. inv_index Hs. simpl_bidx.
    rewrite in_bounds_nonneg by (apply Hr; assumption).
    now rewrite !in_bounds_of_nat.
Qed.

Lemma apply_perm0_4d (data idx : tensor) (M U H W N : nat) :
  shape data = [M; U; H; W] -> shape idx = [N; U] ->
  (forall i u, i < N -> u < U -> (0 <= item idx [i; u] < Z.of_nat M)%Z) ->
  exists t, _apply_perm data idx 0 = Some t /\ shape t = [N; U; H; W] /\
    forall i u y x, i < N -> u < U -> y < H -> x < W ->
      item t [i; u; y; x] = item data [Z.to_nat (item idx [i; u]); u; y; x].
Proof.
  intros Hd Hi Hr. destruct data as [sh f], idx as [shi fi].
  simpl in *. subst. unfold _apply_perm.
  cbn [Tensor.ndim shape length Nat.ltb Nat.leb seq map Nat.eqb].
  erewrite adv_index_some; [eexists; split; [reflexivity|] | reflexivity | |].
  - split; [reflexivity|]. intros i u y x Hi Hu Hy Hx. simpl_bidx.
    rewrite resolve_nonneg by (apply Hr; assumption).
    now rewrite !resolve_of_nat.
  - simpl_bcast. reflexivity.
  - intros s Hs. inv_index Hs. simpl_bidx.
    rewrite in_bounds_nonneg by (apply Hr; assumption).
    now rewrite !in_bounds_of_nat.
Qed.

(** *** [_apply_index] along the last axis of a 3d tensor *)

Lemma apply_index2_3d (data idx : tensor) (C U K : nat) :
  shape data = [C; U; K] -> shape idx = [C; U] ->
  (forall c u, c < C -> u < U -> (0 <= item idx [c; u] < Z.of_nat K)%Z) ->
  exists t, _apply_index data idx 2 = Some t /\ shape t = [C; U] /\
    forall c u, c < C -> u < U ->
      item t [c; u] = item data [c; u; Z.to_nat (item idx [c; u])].
Proof.
  intros Hd Hi Hr. destruct data as [sh f], idx as [shi fi].
  simpl in *. subst. unfold _apply_index.
  cbn [Tensor.ndim shape length Nat.ltb Nat.leb seq map Nat.eqb Nat.sub].
  erewrite adv_index_some; [eexists; split; [reflexivity|] | reflexivity | |].
  - split; [reflexivity|]. intros c u Hc Hu. simpl_bidx.
    rewrite !resolve_of_nat.
    now rewrite resolve_nonneg by (apply Hr; assumption).
  - simpl_bcast. reflexivity.
  - intros s Hs. inv_index Hs. simpl_bidx.
    rewrite !in_bounds_of_nat by assumption.
    now rewrite in_bounds_nonneg by (apply Hr; assumption).
Qed.

(** *** The operations the update is built from *)

Lemma column_length (t : tensor) (u : nat) : length (column t u) = dim t 0.
Proof. unfold column, lane. now rewrite length_map, length_seq. Qed.

Lemma column_nth (t : tensor) (u i : nat) :
  i < dim t 0 -> nth i (column t u) 0%Z = item t [i; u].
Proof.
  intros Hi. unfold column, lane.
  rewrite (nth_indep _ 0%Z (item t (insert_axis 0 0 [u])))
    by (now rewrite length_map, length_seq).
  rewrite (map_nth (fun r => item t (insert_axis 0 r [u]))).
  now rewrite seq_nth.
Qed.

Lemma concatenate0_some (a b : tensor) (na nb : nat) (r : list nat) :
  shape a = na :: r -> shape b = nb :: r ->
  concatenate0 a b
  = Some (Tensor (na + nb :: r)
            (fun s => match s with
                      | i :: r =>
                          if i <? na then item a (i :: r)
                          else item b (i - na :: r)
                      | [] => 0%Z
                      end)).
Proof.
  intros Ha Hb. unfold concatenate0. rewrite Ha, Hb.
  destruct (list_eq_dec Nat.eq_dec r r); [reflexivity | contradiction].
Qed.

Lemma column_concatenate0 (a b c : tensor) (na nb U u : nat) :
  shape a = [na; U] -> shape b = [nb; U] ->
  concatenate0 a b = Some c ->
  column c u = column a u ++ column b u.
Proof.
  intros Ha Hb Hc. rewrite (concatenate0_some a b na nb [U] Ha Hb) in Hc.
  injection Hc as <-. unfold column, lane, dim. rewrite Ha, Hb.
  cbn [shape item nth insert_axis firstn skipn app].
  rewrite seq_app, map_app. f_equal.
  - apply map_ext_in. intros i Hi. apply in_seq in Hi.
    destruct (Nat.ltb_spec i na); [reflexivity | lia].
  - cbn [Nat.add].
    replace (seq na nb) with (map (fun i => na + i) (seq 0 nb)).
    + rewrite !map_map. apply map_ext_in. intros i Hi.
      destruct (Nat.ltb_spec (na + i) na); [lia|].
      now replace (na + i - na) with i by lia.
    + clear. revert na. induction nb as [|nb IH]; intros na; [reflexivity|].
      cbn. rewrite <- seq_shift, map_map. rewrite Nat.add_0_r. f_equal.
      rewrite <- (IH (S na)). apply map_ext. intros; lia.
Qed.

Arguments argsort_list : simpl never.

(** The ranking of the update: [(-cmax).argsort(axis=0)[:topn]]. *)
Lemma cargsort_spec (cmax : tensor) (M U N : nat) :
  shape cmax = [M; U] -> N <= M ->
  let cargsort := slice_to (argsort (neg cmax) 0) (Z.of_nat N) in
  shape cargsort = [N; U] /\
  forall i u,
    item cargsort [i; u]
    = Z.of_nat (nth i (argsort_list (map Z.opp (column cmax u))) 0).
Proof.
  intros Hc HN. cbn. unfold slice_to. cbn. rewrite Hc.
  destruct (Z.ltb_spec (Z.of_nat N) 0); [lia|]. cbn. split.
  - rewrite Nat2Z.id. now rewrite Nat.min_l.
  - intros i u. unfold column, lane, dim. cbn. rewrite Hc.
    now rewrite map_map.
Qed.

Lemma cargsort_range (cmax : tensor) (M U i u : nat) :
  shape cmax = [M; U] -> i < M ->
  nth i (argsort_list (map Z.opp (column cmax u))) 0 < M.
Proof.
  intros Hc Hi.
  assert (length (map Z.opp (column cmax u)) = M) as Hlen.
  { rewrite length_map, column_length. unfold dim. now rewrite Hc. }
  pose proof (argsort_list_lt (map Z.opp (column cmax u)) i) as H.
  rewrite Hlen in H. now apply H.
Qed.

Lemma counters_shape (b u : nat) (pos : Z) :
  shape (counters_of b u pos) = [b; u].
Proof. cbn. now rewrite Nat.mul_1_r, Nat.add_0_r. Qed.

Lemma counters_item (b u : nat) (pos : Z) (e k : nat) :
  e < b -> item (counters_of b u pos) [e; k] = wrap64 (Z.of_nat e + pos).
Proof. intros He. cbn. now rewrite Nat.mod_small. Qed.

(** *** [argmax] and [max] of a list *)

Lemma argmax_from_spec (l : list Z) (best : nat) (bestv : Z) (i : nat) :
  let r := argmax_from best bestv i l in
  (r = best /\ fold_left Z.max l bestv = bestv)
  \/ (i <= r < i + length l /\ nth (r - i) l 0%Z = fold_left Z.max l bestv).
Proof.
  revert best bestv i. induction l as [|x l IH]; intros best bestv i; simpl.
  - left. auto.
  - destruct (Z.ltb_spec bestv x) as [Hlt|Hge].
    + rewrite (Z.max_r bestv x) by lia. right.
      destruct (IH i x (S i)) as [[-> Hf]|[Hr Hn]].
      * rewrite Nat.sub_diag. split; [lia | now rewrite Hf].
      * split; [lia|]. rewrite <- Hn.
        now replace (argmax_from i x (S i) l - i)
          with (S (argmax_from i x (S i) l - S i)) by lia.
    + rewrite (Z.max_l bestv x) by lia.
      destruct (IH best bestv (S i)) as [[-> Hf]|[Hr Hn]]; [left; auto|].
      right. split; [lia|]. rewrite <- Hn.
      now replace (argmax_from best bestv (S i) l - i)
        with (S (argmax_from best bestv (S i) l - S i)) by lia.
Qed.

Lemma argmax_list_lt (l : list Z) : l <> [] -> argmax_list l < length l.
Proof.
  destruct l as [|x l]; [congruence|]. intros _. simpl.
  destruct (argmax_from_spec l 0 x 1) as [[-> _]|[Hr _]]; lia.
Qed.

Lemma argmax_list_max (l : list Z) :
  l <> [] -> nth (argmax_list l) l 0%Z = max_list l.
Proof.
  destruct l as [|x l]; [congruence|]. intros _. simpl.
  destruct (argmax_from_spec l 0 x 1) as [[-> Hf]|[Hr Hn]].
  - now rewrite Hf.
  - destruct (argmax_from 0 x 1 l) as [|r]; [lia|].
    simpl in Hn. now rewrite Nat.sub_0_r in Hn.
Qed.

(** *** The spatial reduction *)

Lemma flatten3_4d (output : tensor) (b U h w : nat) :
  shape output = [b; U; h; w] ->
  exists fmax, flatten output 3 = Some fmax /\ shape fmax = [b; U; h * w] /\
    forall e u k, item fmax [e; u; k] = item output [e; u; k / w; k mod w].
Proof.
  intros Ho. unfold flatten, Tensor.ndim. rewrite Ho. cbn.
  eexists. split; [reflexivity|]. cbn. rewrite Nat.mul_1_r.
  split; [reflexivity|]. intros e u k.
  change (fst (Nat.divmod (k mod w) 0 0 0)) with ((k mod w) / 1).
  now rewrite Nat.div_1_r.
Qed.

Lemma lane2_3d (t : tensor) (b U K e u : nat) :
  shape t = [b; U; K] ->
  lane t 2 [e; u] = map (fun k => item t [e; u; k]) (seq 0 K).
Proof. intros Ht. unfold lane, dim. now rewrite Ht. Qed.

Lemma argmax2_3d (t : tensor) (b U K : nat) :
  shape t = [b; U; K] -> 0 < K ->
  exists a, argmax t 2 = Some a /\ shape a = [b; U] /\
    forall e u, item a [e; u] = Z.of_nat (argmax_list (lane t 2 [e; u])).
Proof.
  intros Ht HK. unfold argmax, Tensor.ndim, dim. rewrite Ht. cbn.
  destruct (Nat.eqb_spec K 0); [lia|]. cbn.
  eexists. split; [reflexivity|]. split; reflexivity.
Qed.

Lemma stack3_2d (t0 t1 t2 : tensor) (b U : nat) :
  shape t0 = [b; U] -> shape t1 = [b; U] -> shape t2 = [b; U] ->
  exists t, stack [t0; t1; t2] 2 = Some t /\ shape t = [b; U; 3] /\
    forall e u,
      item t [e; u; 0] = item t0 [e; u] /\
      item t [e; u; 1] = item t1 [e; u] /\
      item t [e; u; 2] = item t2 [e; u].
Proof.
  intros H0 H1 H2. unfold stack. cbn. rewrite H0, H1, H2.
  destruct (list_eq_dec Nat.eq_dec [b; U] [b; U]) as [_|]; [|contradiction].
  cbn.
  eexists. split; [reflexivity|]. split; [reflexivity|].
  intros e u. repeat split.
Qed.

Lemma feature_map_nonempty (output : tensor) (h w e u : nat) :
  0 < h -> 0 < w -> feature_map output h w e u <> [].
Proof.
  intros Hh Hw Hnil. apply (f_equal (@length Z)) in Hnil.
  unfold feature_map in Hnil. rewrite length_map, length_seq in Hnil.
  simpl in Hnil. nia.
Qed.

(** *** Merge, rank, truncate, gather *)

Lemma rank_lt (maximums tmax : tensor) (N U b u i : nat) :
  shape maximums = [N; U] -> shape tmax = [b; U] ->
  i < N + b -> rank maximums tmax u i < N + b.
Proof.
  intros Hm Ht Hi. unfold rank.
  assert (length (map Z.opp (column maximums u ++ column tmax u)) = N + b)
    as Hlen.
  { rewrite length_map, length_app, !column_length. unfold dim.
    now rewrite Hm, Ht. }
  pose proof (argsort_list_lt _ i ltac:(rewrite Hlen; exact Hi)) as H.
  now rewrite Hlen in H.
Qed.

Lemma merge_gather (maximums tmax old new : tensor) (N U b : nat)
    (R : list nat) :
  shape maximums = [N; U] -> shape tmax = [b; U] ->
  shape old = N :: U :: R -> shape new = b :: U :: R ->
  length R <= 2 ->
  exists cmax cdata t,
    concatenate0 maximums tmax = Some cmax /\
    concatenate0 old new = Some cdata /\
    _apply_perm cdata (slice_to (argsort (neg cmax) 0) (Z.of_nat N)) 0
    = Some t /\
    shape t = N :: U :: R /\
    forall i u r, i < N -> u < U -> Forall2 lt r R ->
      item t (i :: u :: r) = pick old new N (rank maximums tmax u i) (u :: r).
Proof.
  intros Hm Ht Ho Hn HR.
  pose proof (concatenate0_some maximums tmax N b [U] Hm Ht) as Hcmax.
  pose proof (concatenate0_some old new N b (U :: R) Ho Hn) as Hcdata.
  match type of Hcmax with _ = Some ?c => set (cmax := c) in * end.
  match type of Hcdata with _ = Some ?c => set (cdata := c) in * end.
  assert (shape cmax = [N + b; U]) as Hsc by reflexivity.
  destruct (cargsort_spec cmax (N + b) U N Hsc ltac:(lia)) as [Hcs Hci].
  set (cargsort := slice_to (argsort (neg cmax) 0) (Z.of_nat N)) in *.
  assert (forall u, column cmax u = column maximums u ++ column tmax u)
    as Hcol.
  { intros u. eapply column_concatenate0; eassumption. }
  assert (forall i u, i < N -> u < U ->
            (0 <= item cargsort [i; u] < Z.of_nat (N + b))%Z) as Hrange.
  { intros i u Hi Hu. rewrite Hci.
    pose proof (cargsort_range cmax (N + b) U i u Hsc ltac:(lia)). lia. }
  assert (forall i u, item cargsort [i; u]
                      = Z.of_nat (rank maximums tmax u i)) as Hrank.
  { intros i u. rewrite Hci. unfold rank. now rewrite Hcol. }
  exists cmax, cdata.
  destruct R as [|K [|W [|? ?]]]; [| | |simpl in HR; lia].
  - destruct (apply_perm0_2d cdata cargsort (N + b) U N eq_refl Hcs Hrange)
      as (t & Ht' & Hst & Hit).
    exists t. repeat split; try assumption.
    intros i u r Hi Hu Hr. inversion Hr; subst.
    rewrite Hit, Hrank, Nat2Z.id by assumption. reflexivity.
  - destruct (apply_perm0_3d cdata cargsort (N + b) U K N eq_refl Hcs Hrange)
      as (t & Ht' & Hst & Hit).
    exists t. repeat split; try assumption.
    intros i u r Hi Hu Hr. inv_index Hr.
    rewrite Hit, Hrank, Nat2Z.id by assumption. reflexivity.
  - destruct (apply_perm0_4d cdata cargsort (N + b) U K W N eq_refl Hcs
                Hrange) as (t & Ht' & Hst & Hit).
    exists t. repeat split; try assumption.
    intros i u r Hi Hu Hr. inv_index Hr.
    rewrite Hit, Hrank, Nat2Z.id by assumption. reflexivity.
Qed.

(** ** The update on a dense output *)

Lemma update_dense (output : tensor) (r : stat_record) (pos : Z)
    (N U b : nat) :
  length (dims r) = 1 -> snapshot r = None ->
  shape output = [b; U] ->
  shape (maximums r) = [N; U] -> shape (indices r) = [N; U] ->
  exists newmax newind,
    _create_maximum_activation_update output r pos (Z.of_nat N)
    = Some (newmax, newind, None) /\
    shape newmax = [N; U] /\ shape newind = [N; U] /\
    forall i u, i < N -> u < U ->
      item newmax [i; u]
      = pick (maximums r) output N (rank (maximums r) output u i) [u] /\
      item newind [i; u]
      = pick (indices r) (counters_of b U pos) N
             (rank (maximums r) output u i) [u].
Proof.
  intros Hd Hsnap Ho Hm Hi.
  destruct (merge_gather (maximums r) output (maximums r) output N U b []
              Hm Ho Hm Ho ltac:(simpl; lia))
    as (cmax & cmax' & newmax & Hc1 & Hc1' & Hnm & Hsm & Hqm).
  destruct (merge_gather (maximums r) output (indices r)
              (counters_of b U pos) N U b []
              Hm Ho Hi (counters_shape b U pos) ltac:(simpl; lia))
    as (cmax2 & cind & newind & Hc2 & Hci & Hni & Hsi & Hqi).
  rewrite Hc1 in Hc2, Hc1'. injection Hc2 as <-. injection Hc1' as <-.
  exists newmax, newind. split; [|split; [|split]]; try assumption.
  - unfold _create_maximum_activation_update.
    rewrite Ho, Hd, Hsnap. cbn [nth_error bind Nat.eqb fst snd].
    fold (counters_of b U pos).
    rewrite Hc1. cbn [bind]. rewrite Hci. cbn [bind].
    rewrite Hnm. cbn [bind]. rewrite Hni. reflexivity.
  - intros i u Hi' Hu. split; [apply Hqm | apply Hqi]; auto.
Qed.

(** ** The update on a spatial output *)

Lemma update_spatial (output : tensor) (r : stat_record) (pos : Z)
    (N U b h w : nat) (snap : tensor) :
  dims r = [Z.of_nat U; Z.of_nat h; Z.of_nat w] ->
  snapshot r = Some snap -> shape snap = [N; U; h; w] ->
  shape output = [b; U; h; w] -> 0 < h -> 0 < w ->
  shape (maximums r) = [N; U] -> shape (indices r) = [N; U; 3] ->
  exists tmax tind newmax newind newsnap,
    _create_maximum_activation_update output r pos (Z.of_nat N)
    = Some (newmax, newind, Some newsnap) /\
    shape tmax = [b; U] /\ shape tind = [b; U; 3] /\
    (forall e u, e < b -> u < U ->
       let k := argmax_list (feature_map output h w e u) in
       item tmax [e; u] = item output [e; u; k / w; k mod w] /\
       item tind [e; u; 0] = wrap64 (Z.of_nat e + pos) /\
       item tind [e; u; 1] = Z.of_nat (k / w) /\
       item tind [e; u; 2] = Z.of_nat (k mod w)) /\
    shape newmax = [N; U] /\ shape newind = [N; U; 3] /\
    shape newsnap = [N; U; h; w] /\
    forall i u, i < N -> u < U ->
      item newmax [i; u]
      = pick (maximums r) tmax N (rank (maximums r) tmax u i) [u] /\
      forall k, k < 3 ->
        item newind [i; u; k]
        = pick (indices r) tind N (rank (maximums r) tmax u i) [u; k].
Proof.
  intros Hd Hsnap Hss Ho Hh Hw Hm Hi.
  destruct (flatten3_4d output b U h w Ho) as (fmax & Hfl & Hsf & Hif).
  assert (0 < h * w) as HK by nia.
  destruct (argmax2_3d fmax b U (h * w) Hsf HK) as (fargmax & Ham & Hsa & Hia).
  assert (forall e u, lane fmax 2 [e; u] = feature_map output h w e u) as Hlane.
  { intros e u. rewrite (lane2_3d fmax b U (h * w) e u Hsf).
    unfold feature_map. apply map_ext. intros k. apply Hif. }
  assert (forall e u, argmax_list (feature_map output h w e u) < h * w)
    as Hklt.
  { intros e u.
    pose proof (argmax_list_lt (feature_map output h w e u)
                  (feature_map_nonempty output h w e u Hh Hw)) as H.
    unfold feature_map in H at 2. now rewrite length_map, length_seq in H. }
  destruct (apply_index2_3d fmax fargmax b U (h * w) Hsf Hsa) as
    (tmax & Htm & Hst & Hit).
  { intros e u _ _. rewrite Hia, Hlane. specialize (Hklt e u). lia. }
  set (targmax := tdivmod fargmax (Z.of_nat w)).
  destruct (stack3_2d (counters_of b U pos) (fst targmax) (snd targmax) b U
              (counters_shape b U pos) Hsa Hsa) as (tind & Hti & Hsti & Hiti).
  destruct (merge_gather (maximums r) tmax (maximums r) tmax N U b []
              Hm Hst Hm Hst ltac:(simpl; lia))
    as (cmax & cmax' & newmax & Hc1 & Hc1' & Hnm & Hsm & Hqm).
  destruct (merge_gather (maximums r) tmax (indices r) tind N U b [3]
              Hm Hst Hi Hsti ltac:(simpl; lia))
    as (cmax2 & cind & newind & Hc2 & Hci & Hni & Hsi & Hqi).
  destruct (merge_gather (maximums r) tmax snap output N U b [h; w]
              Hm Hst Hss Ho ltac:(simpl; lia))
    as (cmax3 & csnap & newsnap & Hc3 & Hcs & Hns & Hsn & _).
  rewrite Hc1 in Hc2, Hc1', Hc3.
  injection Hc2 as <-. injection Hc1' as <-. injection Hc3 as <-.
  exists tmax, tind, newmax, newind, newsnap.
  split; [|split; [|split; [|split; [|split; [|split; [|split]]]]]];
    try assumption.
  - unfold _create_maximum_activation_update.
    rewrite Ho, Hd, Hsnap. cbn [nth_error bind Nat.eqb length fst snd].
    fold (counters_of b U pos).
    rewrite Hfl. cbn [bind]. rewrite Ham. cbn [bind].
    rewrite Htm. cbn [bind]. fold targmax. rewrite Hti. cbn [bind fst snd].
    rewrite Hc1. cbn [bind]. rewrite Hci. cbn [bind].
    rewrite Hnm. cbn [bind]. rewrite Hni. cbn [bind].
    rewrite Hcs. cbn [bind]. rewrite Hns. reflexivity.
  - intros e u He Hu k. destruct (Hiti e u) as (H0 & H1 & H2).
    rewrite H0, H1, H2. rewrite (Hit e u He Hu), Hia, Hlane, Nat2Z.id, Hif.
    fold k. rewrite counters_item by assumption. unfold targmax. cbn.
    rewrite Hia, Hlane. fold k.
    rewrite <- Nat2Z.inj_div, <- Nat2Z.inj_mod. auto.
  - intros i u Hi' Hu. split; [apply Hqm; auto|].
    intros k Hk. apply Hqi; auto.
Qed.

(** ** Dense and spatial outputs together *)

Lemma update_spec (d : dims_arg) (N b : nat) (r : stat_record) (o : tensor)
    (pos : Z) :
  dims_ok d -> record_shape N d r -> batch_shape b d o ->
  exists tmax tind newmax newind newsnap,
    _create_maximum_activation_update o r pos (Z.of_nat N)
    = Some (newmax, newind, newsnap) /\
    record_shape N d (apply_updates r (newmax, newind, newsnap)) /\
    shape tmax = [b; units d] /\
    (forall e u, e < b -> u < units d ->
       produced d o pos e u (item tmax [e; u]) (coord d tind e u)) /\
    forall i u, i < N -> u < units d ->
      let p := rank (maximums r) tmax u i in
      item newmax [i; u] = pick (maximums r) tmax N p [u] /\
      coord d newind i u
      = if p <? N then coord d (indices r) p u else coord d tind (p - N) u.
Proof.
  intros Hok [Hm Hr] Ho. destruct d as [n|dd].
  - destruct Hr as (Hd & Hsnap & Hi). simpl in Ho, Hok.
    destruct (update_dense o r pos N (units (DimsInt n)) b
                ltac:(now rewrite Hd) Hsnap Ho Hm Hi)
      as (newmax & newind & Hup & Hsm & Hsi & Hq).
    exists o, (counters_of b (units (DimsInt n)) pos), newmax, newind, None.
    split; [exact Hup|]. split; [|split; [exact Ho|split]].
    + split; [exact Hsm|]. simpl. rewrite Hsnap. auto.
    + intros e u He Hu. cbn [produced coord]. split; [reflexivity|].
      now rewrite counters_item.
    + intros i u Hi' Hu. destruct (Hq i u Hi' Hu) as [H1 H2].
      split; [exact H1|]. cbn [coord]. rewrite H2. unfold pick.
      destruct (rank (maximums r) o u i <? N); reflexivity.
  - destruct dd as [|u0 [|h0 [|w0 [|? ?]]]]; try contradiction.
    destruct Hok as (Hu0 & Hh0 & Hw0).
    destruct Hr as (Hd & Hi & snap & Hsnap & Hss). simpl in Ho, Hss, Hm, Hi.
    destruct (update_spatial o r pos N (Z.to_nat u0) b (Z.to_nat h0)
                (Z.to_nat w0) snap
                ltac:(rewrite Hd, !Z2Nat.id by lia; reflexivity)
                Hsnap Hss Ho ltac:(lia) ltac:(lia) Hm Hi)
      as (tmax & tind & newmax & newind & newsnap & Hup & Hst & Hsti & Hc
          & Hsm & Hsi & Hsn & Hq).
    exists tmax, tind, newmax, newind, (Some newsnap).
    split; [exact Hup|]. split; [|split; [exact Hst|split]].
    + split; [exact Hsm|]. simpl. repeat split; auto. exists newsnap. auto.
    + intros e u He Hu. destruct (Hc e u He Hu) as (H1 & H2 & H3 & H4).
      set (k := argmax_list (feature_map o (Z.to_nat h0) (Z.to_nat w0) e u))
        in *.
      assert (k < Z.to_nat h0 * Z.to_nat w0) as Hk.
      { pose proof (argmax_list_lt
                      (feature_map o (Z.to_nat h0) (Z.to_nat w0) e u)
                      (feature_map_nonempty o (Z.to_nat h0) (Z.to_nat w0)
                         e u ltac:(lia) ltac:(lia)))
          as H.
        unfold feature_map in H at 2.
        now rewrite length_map, length_seq in H. }
      exists (k / Z.to_nat w0), (k mod Z.to_nat w0). unfold dim.
      rewrite Ho. cbn [nth coord]. rewrite H1, H2, H3, H4.
      repeat split.
      * apply Nat.Div0.div_lt_upper_bound. lia.
      * apply Nat.mod_upper_bound. lia.
    + intros i u Hi' Hu. destruct (Hq i u Hi' Hu) as [H1 H2].
      split; [exact H1|]. cbn [coord].
      rewrite !H2 by lia. unfold pick.
      destruct (rank (maximums r) tmax u i <? N); reflexivity.
Qed.

(** ** The ranking, seen on the list of candidates of one unit *)

Lemma pick_nth (old new : tensor) (N U b u p : nat) :
  shape old = [N; U] -> shape new = [b; U] -> p < N + b ->
  pick old new N p [u] = nth p (column old u ++ column new u) 0%Z.
Proof.
  intros Ho Hn Hp. unfold pick.
  assert (length (column old u) = N) as Hlen
    by (rewrite column_length; unfold dim; now rewrite Ho).
  destruct (Nat.ltb_spec p N).
  - rewrite app_nth1 by lia. rewrite column_nth; [reflexivity|].
    unfold dim. now rewrite Ho.
  - rewrite app_nth2 by lia. rewrite Hlen. rewrite column_nth; [reflexivity|].
    unfold dim. rewrite Hn. simpl. lia.
Qed.

Lemma candidates_length (maximums tmax : tensor) (N U b u : nat) :
  shape maximums = [N; U] -> shape tmax = [b; U] ->
  length (map Z.opp (column maximums u ++ column tmax u)) = N + b.
Proof.
  intros Hm Ht. rewrite length_map, length_app, !column_length.
  unfold dim. now rewrite Hm, Ht.
Qed.

Lemma key_of_candidates (maximums tmax : tensor) (N U b u p : nat) :
  shape maximums = [N; U] -> shape tmax = [b; U] -> p < N + b ->
  key_of (map Z.opp (column maximums u ++ column tmax u)) p
  = (- pick maximums tmax N p [u])%Z.
Proof.
  intros Hm Ht Hp. unfold key_of.
  rewrite (pick_nth maximums tmax N U b u p Hm Ht Hp).
  change 0%Z with (- 0)%Z at 1. apply map_nth.
Qed.

(** The ranking orders the candidates by decreasing quantity and, among
    equal quantities, by increasing position in the concatenation. *)
Lemma rank_order (maximums tmax : tensor) (N U b u i j : nat) :
  shape maximums = [N; U] -> shape tmax = [b; U] ->
  i < j -> j < N + b ->
  let v k := pick maximums tmax N (rank maximums tmax u k) [u] in
  (v j < v i)%Z
  \/ (v i = v j /\ rank maximums tmax u i < rank maximums tmax u j).
Proof.
  intros Hm Ht Hij Hj v.
  pose proof (candidates_length maximums tmax N U b u Hm Ht) as Hlen.
  pose proof (argsort_list_before
                (map Z.opp (column maximums u ++ column tmax u)) i j Hij
                ltac:(now rewrite Hlen)) as Hb.
  fold (rank maximums tmax u i) in Hb. fold (rank maximums tmax u j) in Hb.
  unfold before in Hb.
  rewrite !(key_of_candidates maximums tmax N U b u) in Hb
    by (assumption || (apply (rank_lt maximums tmax N U b); auto; lia)).
  fold (v i) in Hb. fold (v j) in Hb. lia.
Qed.

Lemma rank_permutation (maximums tmax : tensor) (N U b u : nat) :
  shape maximums = [N; U] -> shape tmax = [b; U] ->
  Permutation (seq 0 (N + b))
              (map (rank maximums tmax u) (seq 0 (N + b))).
Proof.
  intros Hm Ht.
  pose proof (candidates_length maximums tmax N U b u Hm Ht) as Hlen.
  destruct (argsort_list_spec
              (map Z.opp (column maximums u ++ column tmax u))) as [Hp _].
  rewrite Hlen in Hp.
  replace (map (rank maximums tmax u) (seq 0 (N + b)))
    with (argsort_list (map Z.opp (column maximums u ++ column tmax u)));
    [exact Hp|].
  apply (nth_ext _ _ 0 0).
  - now rewrite length_map, length_seq, argsort_list_length.
  - intros n Hn. rewrite argsort_list_length, Hlen in Hn.
    rewrite (nth_indep (map _ _) 0 (rank maximums tmax u 0))
      by (now rewrite length_map, length_seq).
    rewrite map_nth, seq_nth by assumption. reflexivity.
Qed.

(** ** Re-fetching an activation from the batches seen so far *)

Arguments fetch_batch : simpl never.

Lemma total_nonneg (h : list tensor) : (0 <= total h)%Z.
Proof. induction h; simpl; lia. Qed.

Lemma total_app (h : list tensor) (o : tensor) :
  total (h ++ [o]) = (total h + Z.of_nat (dim o 0))%Z.
Proof. induction h; simpl; lia. Qed.

Lemma wrap64_small (z : Z) : (0 <= z < 2 ^ 63)%Z -> wrap64 z = z.
Proof. intros H. unfold wrap64. rewrite Z.mod_small; lia. Qed.

Lemma fetch_batch_range (d : dims_arg) (o : tensor) (start : Z) (u : nat)
    (c : list Z) (q : Z) :
  fetch_batch d o start u c = Some q ->
  exists p loc, c = p :: loc /\
                (start <= p < start + Z.of_nat (dim o 0))%Z.
Proof.
  unfold fetch_batch. destruct c as [|p loc]; [discriminate|].
  destruct (Z.leb_spec start p), (Z.ltb_spec p (start + Z.of_nat (dim o 0)));
    simpl; try discriminate.
  intros _. exists p, loc. split; [reflexivity | lia].
Qed.

Lemma fetch_none_ge (d : dims_arg) (h : list tensor) (start : Z) (u : nat)
    (p : Z) (loc : list Z) :
  (start + total h <= p)%Z -> fetch d h start u (p :: loc) = None.
Proof.
  revert start. induction h as [|o h IH]; intros start Hp; simpl in *.
  - reflexivity.
  - destruct (fetch_batch d o start u (p :: loc)) eqn:E.
    + apply fetch_batch_range in E as (p' & loc' & Heq & Hr).
      injection Heq as <- <-. pose proof (total_nonneg h). lia.
    + apply IH. lia.
Qed.

Lemma fetch_app (d : dims_arg) (h : list tensor) (o : tensor) (start : Z)
    (u : nat) (c : list Z) :
  fetch d (h ++ [o]) start u c
  = match fetch d h start u c with
    | Some q => Some q
    | None => fetch_batch d o (start + total h)%Z u c
    end.
Proof.
  revert start. induction h as [|o' h IH]; intros start; simpl.
  - rewrite Z.add_0_r. now destruct (fetch_batch d o start u c).
  - destruct (fetch_batch d o' start u c); [reflexivity|].
    rewrite IH. now rewrite Z.add_assoc.
Qed.

Lemma fetch_batch_produced (d : dims_arg) (o : tensor) (pos : Z) (e u : nat)
    (q : Z) (c : list Z) :
  produced d o pos e u q c -> e < dim o 0 ->
  (0 <= pos)%Z -> (pos + Z.of_nat (dim o 0) < 2 ^ 63)%Z ->
  fetch_batch d o pos u c = Some q.
Proof.
  intros Hp He Hpos Hmax.
  assert (wrap64 (Z.of_nat e + pos) = (Z.of_nat e + pos)%Z) as Hw
    by (apply wrap64_small; lia).
  destruct d as [n|dd]; simpl in Hp.
  - destruct Hp as [-> ->]. rewrite Hw. unfold fetch_batch.
    destruct (Z.leb_spec pos (Z.of_nat e + pos)); [|lia].
    destruct (Z.ltb_spec (Z.of_nat e + pos) (pos + Z.of_nat (dim o 0)));
      [|lia].
    simpl. now replace (Z.to_nat (Z.of_nat e + pos - pos)) with e by lia.
  - destruct Hp as (row & col & Hrow & Hcol & -> & ->).
    rewrite Hw. unfold fetch_batch.
    destruct (Z.leb_spec pos (Z.of_nat e + pos)); [|lia].
    destruct (Z.ltb_spec (Z.of_nat e + pos) (pos + Z.of_nat (dim o 0)));
      [|lia].
    destruct (Z.leb_spec 0 (Z.of_nat row)); [|lia].
    destruct (Z.ltb_spec (Z.of_nat row) (Z.of_nat (dim o 2))); [|lia].
    destruct (Z.leb_spec 0 (Z.of_nat col)); [|lia].
    destruct (Z.ltb_spec (Z.of_nat col) (Z.of_nat (dim o 3))); [|lia].
    simpl. rewrite !Nat2Z.id.
    now replace (Z.to_nat (Z.of_nat e + pos - pos)) with e by lia.
Qed.

(** ** The invariant of a record *)

Lemma batch_shape_dim0 (b : nat) (d : dims_arg) (o : tensor) :
  batch_shape b d o -> dim o 0 = b.
Proof. unfold dim. destruct d; simpl; now intros ->. Qed.

Lemma update_sorted_columns (d : dims_arg) (N b : nat) (r : stat_record)
    (tmax newmax : tensor) :
  shape (maximums r) = [N; units d] -> shape tmax = [b; units d] ->
  (forall i u, i < N -> u < units d ->
     item newmax [i; u]
     = pick (maximums r) tmax N (rank (maximums r) tmax u i) [u]) ->
  sorted_columns N (units d) newmax.
Proof.
  intros Hm Ht Hq u i j Hu Hij Hj.
  rewrite !Hq by (assumption || lia).
  destruct (Nat.eq_dec i j) as [->|Hne]; [lia|].
  destruct (rank_order (maximums r) tmax N (units d) b u i j Hm Ht
              ltac:(lia) ltac:(lia)) as [H|[H _]]; lia.
Qed.

Lemma record_step (d : dims_arg) (N b : nat) (r : stat_record) (o : tensor)
    (history : list tensor) :
  dims_ok d -> record_inv N d history r -> batch_shape b d o ->
  (total history + Z.of_nat b < 2 ^ 63)%Z ->
  exists upd,
    _create_maximum_activation_update o r (total history) (Z.of_nat N)
    = Some upd /\
    record_inv N d (history ++ [o]) (apply_updates r upd).
Proof.
  intros Hok (Hshape & Hsorted & Hslots) Ho Hmax.
  destruct (update_spec d N b r o (total history) Hok Hshape Ho)
    as (tmax & tind & newmax & newind & newsnap & Hup & Hsh' & Hst & Hprod
        & Hnew).
  exists (newmax, newind, newsnap). split; [exact Hup|].
  pose proof (proj1 Hshape) as Hm.
  split; [exact Hsh'|]. split.
  - cbn [apply_updates maximums].
    eapply update_sorted_columns; [exact Hm | exact Hst |].
    intros i u Hi Hu. apply (Hnew i u Hi Hu).
  - cbn [apply_updates maximums indices]. intros i u Hi Hu.
    destruct (Hnew i u Hi Hu) as [Hq Hc]. rewrite Hq, Hc. unfold pick.
    pose proof (rank_lt (maximums r) tmax N (units d) b u i Hm Hst
                  ltac:(lia)) as Hp.
    destruct (Nat.ltb_spec (rank (maximums r) tmax u i) N) as [Hlt|Hge].
    + destruct (Hslots _ u Hlt Hu) as [Hz|Hf]; [left; exact Hz|].
      right. rewrite fetch_app. now rewrite Hf.
    + right. rewrite fetch_app.
      set (e := rank (maximums r) tmax u i - N) in *.
      assert (e < b) as He by (unfold e; lia).
      pose proof (Hprod e u He Hu) as Hpr.
      pose proof (batch_shape_dim0 b d o Ho) as Hb.
      pose proof (total_nonneg history) as Hnn.
      assert (fetch_batch d o (total history) u (coord d tind e u)
              = Some (item tmax [e; u])) as Hfb.
      { apply (fetch_batch_produced d o (total history) e u); auto;
          rewrite Hb; lia. }
      destruct (fetch_batch_range _ _ _ _ _ _ Hfb) as (p & loc & Hcp & Hr).
      rewrite Hcp in *. rewrite fetch_none_ge by lia.
      now rewrite Z.add_0_l.
Qed.

(** ** The controller over a sequence of batches *)

Lemma Forall2_nth_error {A B : Type} (P : A -> B -> Prop) (la : list A)
    (lb : list B) :
  Forall2 P la lb ->
  forall k a b, nth_error la k = Some a -> nth_error lb k = Some b -> P a b.
Proof.
  induction 1 as [|a' b' la lb Hab _ IH]; intros k a b Ha Hb.
  - destruct k; discriminate.
  - destruct k as [|k]; simpl in *.
    + injection Ha as <-. injection Hb as <-. exact Hab.
    + eapply IH; eassumption.
Qed.

Lemma nth_error_some_lt {A : Type} (l : list A) (k : nat) (a : A) :
  nth_error l k = Some a -> k < length l.
Proof. intros H. apply nth_error_Some. congruence. Qed.

Lemma nth_error_lt_some {A : Type} (l : list A) (k : nat) :
  k < length l -> exists a, nth_error l k = Some a.
Proof.
  intros H. destruct (nth_error l k) eqn:E; [eauto|].
  apply nth_error_None in E. lia.
Qed.

Lemma zipM_length {A B C : Type} (f : A -> B -> option C) (la : list A)
    (lb : list B) (lc : list C) :
  zipM f la lb = Some lc -> length la = length lb /\ length lc = length lb.
Proof.
  revert lb lc. induction la as [|a la IH]; intros [|b lb] lc H;
    simpl in H; try discriminate.
  - injection H as <-. auto.
  - apply bind_some in H as (c & Hc & H).
    apply bind_some in H as (cs & Hcs & H). injection H as <-.
    destruct (IH _ _ Hcs). simpl. lia.
Qed.

Lemma zipM_nth_error {A B C : Type} (f : A -> B -> option C) (la : list A)
    (lb : list B) (lc : list C) (k : nat) (c : C) :
  zipM f la lb = Some lc -> nth_error lc k = Some c ->
  exists a b, nth_error la k = Some a /\ nth_error lb k = Some b /\
              f a b = Some c.
Proof.
  revert lb lc k. induction la as [|a la IH]; intros [|b lb] lc k H Hk;
    simpl in H; try discriminate.
  - injection H as <-. destruct k; discriminate.
  - apply bind_some in H as (c' & Hc & H).
    apply bind_some in H as (cs & Hcs & H). injection H as <-.
    destruct k as [|k]; simpl in *.
    + injection Hk as <-. eauto.
    + eapply IH; eassumption.
Qed.

Lemma zipM_some {A B C : Type} (f : A -> B -> option C) (la : list A)
    (lb : list B) :
  length la = length lb ->
  (forall k a b, nth_error la k = Some a -> nth_error lb k = Some b ->
                 exists c, f a b = Some c) ->
  exists lc, zipM f la lb = Some lc.
Proof.
  revert lb. induction la as [|a la IH]; intros [|b lb] Hlen Hf;
    simpl in Hlen; try discriminate.
  - exists []. reflexivity.
  - destruct (Hf 0 a b eq_refl eq_refl) as (c & Hc).
    destruct (IH lb ltac:(lia)) as (cs & Hcs).
    { intros k a' b' Ha Hb. apply (Hf (S k)); assumption. }
    exists (c :: cs). simpl. rewrite Hc. simpl. now rewrite Hcs.
Qed.

Lemma mapM_some {A B : Type} (f : A -> option B) (P : A -> B -> Prop)
    (l : list A) :
  Forall (fun a => exists b, f a = Some b /\ P a b) l ->
  exists lb, mapM f l = Some lb /\ Forall2 P l lb.
Proof.
  induction 1 as [|a l (b & Hb & HP) _ (lb & Hlb & HF)].
  - exists []. split; [reflexivity | constructor].
  - exists (b :: lb). simpl. rewrite Hb. simpl. rewrite Hlb.
    split; [reflexivity | now constructor].
Qed.

(** *** Construction *)

Lemma create_spec (N : nat) (d : dims_arg) :
  dims_ok d ->
  exists r, _create_maximum_activation_for (Z.of_nat N) d = Some r /\
            record_shape N d r /\ zero_record d r.
Proof.
  intros Hok. destruct d as [n|dd]; simpl in Hok.
  - unfold _create_maximum_activation_for, np_zeros. cbn [forallb].
    destruct (Z.leb_spec 0 (Z.of_nat N)); [|lia].
    destruct (Z.leb_spec 0 n); [|lia].
    cbn [andb bind map]. eexists. split; [reflexivity|].
    rewrite Nat2Z.id. repeat split.
  - destruct dd as [|u [|h [|w [|? ?]]]]; try contradiction.
    destruct Hok as (Hu & Hh & Hw).
    unfold _create_maximum_activation_for, np_zeros.
    cbn [forallb nth_error bind].
    destruct (Z.leb_spec 0 (Z.of_nat N)); [|lia].
    destruct (Z.leb_spec 0 u); [|lia].
    destruct (Z.leb_spec 0 h); [|lia].
    destruct (Z.leb_spec 0 w); [|lia].
    cbn [andb bind map Z.leb]. eexists. split; [reflexivity|].
    rewrite Nat2Z.id. repeat split. eexists. split; reflexivity.
Qed.

Lemma zero_record_inv (N : nat) (d : dims_arg) (r : stat_record) :
  record_shape N d r -> zero_record d r -> record_inv N d [] r.
Proof.
  intros Hs [Hq Hi]. split; [exact Hs|]. split.
  - intros u i j _ _ _. rewrite !Hq. lia.
  - intros i u _ _. left. split; [apply Hq|].
    destruct d; cbn [coord]; rewrite !Hi; repeat constructor.
Qed.

Lemma init_spec (N : nat) (ds : list dims_arg) :
  ds <> [] -> Forall dims_ok ds ->
  exists c0, MaximumActivationSearch_init ds (Z.of_nat N) = Some c0 /\
             controller_inv N ds [] c0.
Proof.
  intros Hne Hok.
  destruct (mapM_some (_create_maximum_activation_for (Z.of_nat N))
              (fun d r => record_inv N d [] r) ds) as (recs & Hm & HF).
  { eapply Forall_impl; [|exact Hok]. intros d Hd.
    destruct (create_spec N d Hd) as (r & Hr & Hs & Hz).
    exists r. split; [exact Hr|]. now apply zero_record_inv. }
  exists (Controller (Z.of_nat N) 0 recs). split.
  - unfold MaximumActivationSearch_init. rewrite Hm. cbn [bind].
    destruct ds; [contradiction | reflexivity].
  - split; [reflexivity|]. split; [reflexivity|]. split; cbn.
    + symmetry. now apply (Forall2_length HF).
    + intros k d r Hd Hr. apply (Forall2_nth_error _ _ _ HF k d r Hd Hr).
Qed.

(** *** One step and a run *)

Lemma position_nonneg (batches : list (list tensor)) : (0 <= position batches)%Z.
Proof. induction batches; simpl; lia. Qed.

Lemma position_app (batches rest : list (list tensor)) :
  position (batches ++ rest) = (position batches + position rest)%Z.
Proof. induction batches; simpl; lia. Qed.

Lemma step_ok_size (ds : list dims_arg) (outs : list tensor) (b k : nat)
    (d : dims_arg) :
  Forall2 (batch_shape b) ds outs -> nth_error ds k = Some d ->
  exists o, nth_error outs k = Some o /\ batch_shape b d o /\
            nth k outs (zeros []) = o /\ dim o 0 = b.
Proof.
  intros HF Hd.
  destruct (nth_error_lt_some outs k) as (o & Ho).
  { rewrite <- (Forall2_length HF). eapply nth_error_some_lt; eassumption. }
  pose proof (Forall2_nth_error _ _ _ HF k d o Hd Ho) as Hb.
  exists o. repeat split; auto.
  - now apply nth_error_nth.
  - now apply (batch_shape_dim0 b d).
Qed.

Lemma batch_size_step (ds : list dims_arg) (outs : list tensor) (b : nat) :
  ds <> [] -> Forall2 (batch_shape b) ds outs -> batch_size outs = b.
Proof.
  intros Hne HF. destruct ds as [|d ds]; [contradiction|].
  destruct (step_ok_size (d :: ds) outs b 0 d HF eq_refl)
    as (o & _ & _ & Hn & Hb).
  unfold batch_size. now rewrite Hn.
Qed.

Lemma total_history (ds : list dims_arg) (batches : list (list tensor))
    (k : nat) (d : dims_arg) :
  ds <> [] -> Forall (step_ok ds) batches -> nth_error ds k = Some d ->
  total (history k batches) = position batches.
Proof.
  intros Hne HF Hd. induction HF as [|outs batches [b Hb] _ IH]; simpl.
  - reflexivity.
  - rewrite IH. rewrite (batch_size_step ds outs b Hne Hb).
    destruct (step_ok_size ds outs b k d Hb Hd) as (o & _ & _ & -> & ->).
    reflexivity.
Qed.

Lemma history_app (k : nat) (batches : list (list tensor))
    (outs : list tensor) :
  history k (batches ++ [outs])
  = history k batches ++ [nth k outs (zeros [])].
Proof. unfold history. now rewrite map_app. Qed.

Lemma process_batch_spec (N : nat) (ds : list dims_arg)
    (batches : list (list tensor)) (outs : list tensor)
    (c : MaximumActivationSearch) :
  ds <> [] -> Forall dims_ok ds ->
  Forall (step_ok ds) batches -> step_ok ds outs ->
  (position (batches ++ [outs]) < 2 ^ 63)%Z ->
  controller_inv N ds batches c ->
  exists c', process_batch c outs = Some c' /\
             controller_inv N ds (batches ++ [outs]) c'.
Proof.
  intros Hne Hok Hdone [b Hb] Hmax (Htopn & Hpos & Hlen & Hrec).
  rewrite position_app in Hmax. simpl in Hmax.
  rewrite (batch_size_step ds outs b Hne Hb), Z.add_0_r in Hmax.
  set (f := fun o r =>
              u <- _create_maximum_activation_update
                     o r (streamindex c) (topn c) ;;
              Some (apply_updates r u)).
  assert (forall k o r, nth_error outs k = Some o ->
            nth_error (maximum_activations c) k = Some r ->
            exists d, nth_error ds k = Some d /\
            exists upd,
              _create_maximum_activation_update
                o r (streamindex c) (topn c) = Some upd /\
              record_inv N d (history k (batches ++ [outs]))
                         (apply_updates r upd)) as Hstep.
  { intros k o r Ho Hr.
    destruct (nth_error_lt_some ds k) as (d & Hd).
    { rewrite <- Hlen. eapply nth_error_some_lt; eassumption. }
    exists d. split; [exact Hd|].
    destruct (step_ok_size ds outs b k d Hb Hd) as (o' & Ho' & Hbs & Hn & _).
    rewrite Ho in Ho'. injection Ho' as <-.
    pose proof (total_history ds batches k d Hne Hdone Hd) as Htot.
    rewrite Hpos, Htopn, <- Htot, history_app, Hn.
    apply (record_step d N b r o (history k batches)).
    - rewrite Forall_forall in Hok. apply Hok.
      eapply nth_error_In; eassumption.
    - now apply (Hrec k).
    - exact Hbs.
    - rewrite Htot. exact Hmax. }
  destruct (zipM_some f outs (maximum_activations c)) as (recs & Hz).
  { rewrite Hlen. symmetry. apply (Forall2_length Hb). }
  { intros k o r Ho Hr.
    destruct (Hstep k o r Ho Hr) as (d & _ & upd & Hu & _).
    exists (apply_updates r upd). unfold f. now rewrite Hu. }
  destruct ds as [|d0 ds']; [contradiction|].
  destruct (step_ok_size (d0 :: ds') outs b 0 d0 Hb eq_refl)
    as (o0 & Ho0 & Hbs0 & _ & Hd0).
  assert (nth_error (shape o0) 0 = Some b) as Hsb.
  { destruct d0; simpl in Hbs0; now rewrite Hbs0. }
  eexists. split.
  - unfold process_batch. fold f. rewrite Hz. cbn [bind].
    rewrite Ho0. cbn [bind]. rewrite Hsb. cbn [bind]. reflexivity.
  - split; [exact Htopn|]. split; [|split]; cbn.
    + rewrite position_app. simpl.
      rewrite (batch_size_step (d0 :: ds') outs b Hne Hb), Z.add_0_r.
      rewrite Hpos. apply wrap64_small.
      pose proof (position_nonneg batches). lia.
    + destruct (zipM_length _ _ _ _ Hz) as [_ ->]. exact Hlen.
    + intros k d r Hd Hr.
      destruct (zipM_nth_error _ _ _ _ _ _ Hz Hr) as (o & r0 & Ho & Hr0 & Hf).
      destruct (Hstep k o r0 Ho Hr0) as (d' & Hd' & upd & Hu & Hinv).
      rewrite Hd in Hd'. injection Hd' as <-.
      unfold f in Hf. rewrite Hu in Hf. injection Hf as <-. exact Hinv.
Qed.

Lemma process_batches_spec (N : nat) (ds : list dims_arg)
    (todo done : list (list tensor)) (c : MaximumActivationSearch) :
  ds <> [] -> Forall dims_ok ds ->
  Forall (step_ok ds) done -> Forall (step_ok ds) todo ->
  (position (done ++ todo) < 2 ^ 63)%Z ->
  controller_inv N ds done c ->
  exists c', process_batches c todo = Some c' /\
             controller_inv N ds (done ++ todo) c'.
Proof.
  intros Hne Hok. revert done c.
  induction todo as [|outs todo IH]; intros done c Hdone Htodo Hmax Hinv.
  - exists c. rewrite app_nil_r. auto.
  - inversion Htodo as [|? ? Houts Htodo']; subst.
    replace (done ++ outs :: todo) with ((done ++ [outs]) ++ todo) in *
      by (now rewrite <- app_assoc).
    destruct (process_batch_spec N ds done outs c Hne Hok Hdone Houts)
      as (c1 & Hc1 & Hinv1); [|exact Hinv|].
    { rewrite position_app in Hmax. pose proof (position_nonneg todo). lia. }
    destruct (IH (done ++ [outs]) c1) as (c' & Hc' & Hinv'); auto.
    { apply Forall_app. split; [exact Hdone | now constructor]. }
    exists c'. simpl. rewrite Hc1. simpl. auto.
Qed.

(** Construction followed by any sequence of well-shaped steps succeeds
    and establishes the invariant. *)
Lemma run_spec (N : nat) (ds : list dims_arg) (batches : list (list tensor)) :
  ds <> [] -> Forall dims_ok ds -> Forall (step_ok ds) batches ->
  (position batches < 2 ^ 63)%Z ->
  exists c0 c,
    MaximumActivationSearch_init ds (Z.of_nat N) = Some c0 /\
    process_batches c0 batches = Some c /\
    controller_inv N ds batches c.
Proof.
  intros Hne Hok Hb Hmax.
  destruct (init_spec N ds Hne Hok) as (c0 & Hc0 & Hinv0).
  destruct (process_batches_spec N ds batches [] c0 Hne Hok
              ltac:(constructor) Hb Hmax Hinv0) as (c & Hc & Hinv).
  exists c0, c. auto.
Qed.

(** * The claims *)

(** ** C2: sortedness *)

(** C2.  After a streaming top-N update, from any prior contents of the
    record and for any batch (of the declared shape), the update returns
    and every column [quantities[:, u]] of the new quantities buffer is
    non-increasing from slot 0 to slot N-1. *)
Theorem update_sorted (d : dims_arg) (N b : nat) (r : stat_record)
    (o : tensor) (pos : Z) :
  dims_ok d -> record_shape N d r -> batch_shape b d o ->
  exists newmax newind newsnap,
    _create_maximum_activation_update o r pos (Z.of_nat N)
    = Some (newmax, newind, newsnap) /\
    forall u i j, u < units d -> i <= j -> j < N ->
                  (item newmax [j; u] <= item newmax [i; u])%Z.
Proof.
  intros Hok Hr Ho.
  destruct (update_spec d N b r o pos Hok Hr Ho)
    as (tmax & tind & newmax & newind & newsnap & Hup & _ & Hst & _ & Hnew).
  exists newmax, newind, newsnap. split; [exact Hup|].
  apply (update_sorted_columns d N b r tmax newmax (proj1 Hr) Hst).
  intros i u Hi Hu. apply (Hnew i u Hi Hu).
Qed.

Lemma update_sorted_witness :
  exists newmax newind newsnap,
    _create_maximum_activation_update (of_list2 1 [[3%Z]]) record_5_1 2
                                      (Z.of_nat 2)
    = Some (newmax, newind, newsnap) /\
    forall u i j, u < 1 -> i <= j -> j < 2 ->
                  (item newmax [j; u] <= item newmax [i; u])%Z.
Proof.
  apply (update_sorted (DimsInt 1) 2 1 record_5_1 (of_list2 1 [[3%Z]]) 2).
  - simpl. lia.
  - repeat split.
  - reflexivity.
Defined.

(** ** C3: size conservation *)

(** C3.  Whatever the batch size [b] (smaller than, equal to or larger
    than N), the update returns a new quantities value of shape
    (N, units) and a new indices value of shape (N, units) for a dense
    output, (N, units, 3) for a spatial one. *)
Theorem update_size_conservation (d : dims_arg) (N b : nat) (r : stat_record)
    (o : tensor) (pos : Z) :
  dims_ok d -> record_shape N d r -> batch_shape b d o ->
  exists newmax newind newsnap,
    _create_maximum_activation_update o r pos (Z.of_nat N)
    = Some (newmax, newind, newsnap) /\
    shape newmax = [N; units d] /\
    shape newind = N :: units d :: match d with
                                   | DimsInt _ => []
                                   | DimsTuple _ => [3]
                                   end.
Proof.
  intros Hok Hr Ho.
  destruct (update_spec d N b r o pos Hok Hr Ho)
    as (tmax & tind & newmax & newind & newsnap & Hup & [Hsm Hsr] & _).
  exists newmax, newind, newsnap. split; [exact Hup|].
  split; [exact Hsm|].
  destruct d; cbn [apply_updates indices] in Hsr; tauto.
Qed.

Lemma update_size_conservation_witness :
  exists newmax newind newsnap,
    _create_maximum_activation_update
      (of_list2 1 [[3%Z]; [7%Z]; [4%Z]]) record_5_1 2 (Z.of_nat 2)
    = Some (newmax, newind, newsnap) /\
    shape newmax = [2; 1] /\ shape newind = [2; 1].
Proof.
  apply (update_size_conservation (DimsInt 1) 2 3 record_5_1
           (of_list2 1 [[3%Z]; [7%Z]; [4%Z]]) 2).
  - simpl. lia.
  - repeat split.
  - reflexivity.
Defined.

(** ** The ranking along axis 0 *)

Lemma argsort0_item (t : tensor) (i u : nat) :
  item (argsort t 0) [i; u]
  = Z.of_nat (nth i (argsort_list (column t u)) 0).
Proof. reflexivity. Qed.

(** ** C4: scenario A *)

(** C4.  Dense output, N = 2, one unit.  From the all-zero record at stream
    position 0 the batch [[5], [1]] gives quantities [[5], [1]] and indices
    [[0], [1]]; the stream position is then 2, and the batch [[3]] gives
    quantities [[5], [3]] and indices [[0], [2]]: the entry 1 is
    displaced. *)
Theorem scenario_A :
  (c0 <- MaximumActivationSearch_init [DimsInt 1] 2 ;;
   c1 <- process_batch c0 [of_list2 1 [[5]; [1]]%Z] ;;
   c2 <- process_batch c1 [of_list2 1 [[3%Z]]] ;;
   Some (view2 c0, streamindex c0,
         view2 c1, streamindex c1,
         view2 c2))
  = Some ([([[0]; [0]], [[0]; [0]])], 0,
          [([[5]; [1]], [[0]; [1]])], 2,
          [([[5]; [3]], [[0]; [2]])])%Z.
Proof. vm_compute. reflexivity. Qed.

(** ** C5: scenario B *)

(** C5.  Spatial output, N = 1, one unit, one example whose 2x2 feature map
    is [[1, 9], [2, 3]].  The map is flattened to [1, 9, 2, 3], its flat
    argmax is 1, [divmod] by the width 2 gives row 0 and column 1; the
    update records the quantity 9 with the index triple (0, 0, 1). *)
Theorem scenario_B :
  let output := of_list4 1 2 2 [[[[1; 9]; [2; 3]]]]%Z in
  (fmax <- flatten output 3 ;;
   fargmax <- argmax fmax 2 ;;
   tmax <- _apply_index fmax fargmax 2 ;;
   Some (to_list3 fmax, to_list2 fargmax, to_list2 tmax,
         to_list2 (fst (tdivmod fargmax 2)),
         to_list2 (snd (tdivmod fargmax 2))))
  = Some ([[[1; 9; 2; 3]]], [[1]], [[9]], [[0]], [[1]])%Z
  /\
  (record <- _create_maximum_activation_for 1 (DimsTuple [1; 2; 2]%Z) ;;
   upd <- _create_maximum_activation_update output record 0 1 ;;
   Some (to_list2 (fst (fst upd)), to_list3 (snd (fst upd))))
  = Some ([[9]], [[[0; 0; 1]]])%Z.
Proof. vm_compute. split; reflexivity. Qed.

(** ** C9: a degenerate top-N size *)




(** ** C10: dereferencing an argmax *)

(** C10 fails on the code: along an axis that is not the last one,
    [_apply_index] builds the index of a later axis [a] from the length of
    axis [a - 1].  On the 1x3 matrix [[1, 9, 2]] and axis 0 it returns
    [1, 1, 1], where the maximum along axis 0 is [1, 9, 2]; on a 3x2 matrix
    the index arrays do not broadcast and the call raises. *)
Theorem apply_index_axis0_diverges :
  let data := of_list2 3 [[1; 9; 2]]%Z in
  (a <- argmax data 0 ;; t <- _apply_index data a 0 ;; Some (to_list1 t))
  = Some [1; 1; 1]%Z /\
  (m <- amax data 0 ;; Some (to_list1 m)) = Some [1; 9; 2]%Z /\
  let data' := of_list2 2 [[1; 9]; [2; 3]; [7; 0]]%Z in
  (a <- argmax data' 0 ;; _apply_index data' a 0) = None.
Proof. vm_compute. repeat split; reflexivity. Qed.

(** X17.  Along the last axis of a 3d tensor, which is the only use the
    update makes of it, [_apply_index] does dereference the argmax: the
    result is the maximum of every lane. *)
Lemma apply_index_argmax_last_axis (data : tensor) (C U K : nat) :
  shape data = [C; U; K] -> 0 < K ->
  exists a t m,
    argmax data 2 = Some a /\ _apply_index data a 2 = Some t /\
    amax data 2 = Some m /\ shape t = shape m /\
    forall c u, c < C -> u < U -> item t [c; u] = item m [c; u].
Proof.
  intros Hs HK.
  destruct (argmax2_3d data C U K Hs HK) as (a & Ha & Hsa & Hia).
  assert (forall c u, lane data 2 [c; u] <> []) as Hne.
  { intros c u Hnil. apply (f_equal (@length Z)) in Hnil.
    rewrite (lane2_3d data C U K c u Hs), length_map, length_seq in Hnil.
    simpl in Hnil. lia. }
  destruct (apply_index2_3d data a C U K Hs Hsa) as (t & Ht & Hst & Hit).
  { intros c u _ _. rewrite Hia.
    pose proof (argmax_list_lt _ (Hne c u)) as H.
    rewrite (lane2_3d data C U K c u Hs) in H at 2.
    rewrite length_map, length_seq in H. lia. }
  exists a, t. unfold amax, Tensor.ndim, dim. rewrite Hs. cbn.
  destruct (Nat.eqb_spec K 0); [lia|]. cbn.
  eexists. repeat split; [exact Ha | exact Ht | exact Hst |].
  intros c u Hc Hu. cbn. rewrite (Hit c u Hc Hu), Hia, Nat2Z.id.
  rewrite <- (argmax_list_max _ (Hne c u)).
  pose proof (argmax_list_lt _ (Hne c u)) as Hlt.
  rewrite (lane2_3d data C U K c u Hs) in *.
  rewrite length_map, length_seq in Hlt.
  rewrite (nth_indep _ 0%Z (item data [c; u; 0]))
    by (now rewrite length_map, length_seq).
  rewrite (map_nth (fun k => item data [c; u; k])), seq_nth by assumption.
  reflexivity.
Qed.

(** ** C1: index-quantity correspondence *)

(** C1, as stated, fails on the zero entries of the initial record that
    have not been displaced yet: with N = 2 and the single batch [[5]], slot
    1 holds quantity 0 at coordinate 0, and example 0 has activation 5. *)
Lemma index_quantity_counterexample :
  ~ index_quantity_correspondence 2 [DimsInt 1] [[of_list2 1 [[5%Z]]]].
Proof.
  intros H.
  specialize (H _ _ eq_refl eq_refl 0 (DimsInt 1) _ eq_refl eq_refl
                1 0 ltac:(lia) ltac:(simpl; lia)).
  vm_compute in H. discriminate.
Qed.

(** C1, amended.  For every monitored output, after any number of updates
    (batches of the declared shapes, one batch size per step, fewer than
    2^63 examples in all), every retained slot either still holds the zero
    entry of the initial record (quantity 0 at coordinate 0) or re-fetching
    the activation at its coordinate from the batches seen so far
    reproduces its quantity: the activation of the recorded example at
    unit [u] for a dense output, the value at the recorded (row, column)
    of the unit-[u] feature map of the recorded example for a spatial
    one. *)
Theorem index_quantity_or_initial (N : nat) (ds : list dims_arg)
    (batches : list (list tensor)) :
  ds <> [] -> Forall dims_ok ds -> Forall (step_ok ds) batches ->
  (position batches < 2 ^ 63)%Z ->
  exists c0 c,
    MaximumActivationSearch_init ds (Z.of_nat N) = Some c0 /\
    process_batches c0 batches = Some c /\
    forall k d r,
      nth_error ds k = Some d ->
      nth_error (maximum_activations c) k = Some r ->
      forall i u, i < N -> u < units d ->
        let q := item (maximums r) [i; u] in
        let co := coord d (indices r) i u in
        (q = 0%Z /\ Forall (eq 0%Z) co)
        \/ fetch d (history k batches) 0 u co = Some q.
Proof.
  intros Hne Hok Hb Hmax.
  destruct (run_spec N ds batches Hne Hok Hb Hmax)
    as (c0 & c & Hc0 & Hc & _ & _ & _ & Hrec).
  exists c0, c. split; [exact Hc0|]. split; [exact Hc|].
  intros k d r Hd Hr i u Hi Hu.
  destruct (Hrec k d r Hd Hr) as (_ & _ & Hslots).
  apply (Hslots i u Hi Hu).
Qed.

Lemma index_quantity_or_initial_witness :
  exists c0 c,
    MaximumActivationSearch_init [DimsInt 1] (Z.of_nat 2) = Some c0 /\
    process_batches c0 [[of_list2 1 [[5%Z]]]; [of_list2 1 [[7%Z]; [6%Z]]]]
    = Some c /\
    forall k d r,
      nth_error [DimsInt 1] k = Some d ->
      nth_error (maximum_activations c) k = Some r ->
      forall i u, i < 2 -> u < units d ->
        let q := item (maximums r) [i; u] in
        let co := coord d (indices r) i u in
        (q = 0%Z /\ Forall (eq 0%Z) co)
        \/ fetch d (history k [[of_list2 1 [[5%Z]]];
                               [of_list2 1 [[7%Z]; [6%Z]]]]) 0 u co
           = Some q.
Proof.
  apply (index_quantity_or_initial 2 [DimsInt 1]
           [[of_list2 1 [[5%Z]]]; [of_list2 1 [[7%Z]; [6%Z]]]]).
  - discriminate.
  - repeat constructor. simpl. lia.
  - repeat constructor; [exists 1 | exists 2]; repeat constructor.
  - vm_compute. reflexivity.
Defined.

(** ** C6: stream position and coordinate range *)

(** C6, as stated, fails on the zero entries of the initial record: with
    N = 2 and the single batch [[5]], slot 1 holds coordinate 0 with
    quantity 0, and the example at stream position 0 produced 5.  (Before
    any batch the range [0, 0) is empty and every slot holds
    coordinate 0.) *)
Lemma stream_position_counterexample :
  ~ stream_position_claim 2 [DimsInt 1] [[of_list2 1 [[5%Z]]]].
Proof.
  intros H.
  destruct (H _ _ eq_refl eq_refl) as [_ H'].
  specialize (H' 0 (DimsInt 1) _ eq_refl eq_refl 1 0
                 ltac:(lia) ltac:(simpl; lia)).
  destruct H' as (p & loc & j & o & e & Hc & Hp & Hj & He & Hpe & Hf).
  destruct j as [|[|j]]; try discriminate.
  injection Hj as <-. vm_compute in Hc. injection Hc as <- <-.
  vm_compute in Hf. discriminate.
Qed.

Lemma fetch_inv (d : dims_arg) (h : list tensor) (start : Z) (u : nat)
    (c : list Z) (q : Z) :
  fetch d h start u c = Some q ->
  exists j o,
    nth_error h j = Some o /\
    fetch_batch d o (start + total (firstn j h)) u c = Some q /\
    (total (firstn j h) + Z.of_nat (dim o 0) <= total h)%Z.
Proof.
  revert start. induction h as [|o h IH]; intros start H; simpl in H.
  - discriminate.
  - destruct (fetch_batch d o start u c) eqn:E.
    + injection H as ->. exists 0, o. simpl. rewrite Z.add_0_r.
      pose proof (total_nonneg h). repeat split; auto. lia.
    + destruct (IH _ H) as (j & o' & Hj & Hf & Hle).
      exists (S j), o'. simpl. rewrite Z.add_assoc.
      repeat split; auto. lia.
Qed.

(** C6, amended.  From a freshly constructed controller, after k steps
    of batch sizes b_1..b_k (batches of the declared shapes, one batch size
    per step, sum below 2^63) the stream position is b_1 + ... + b_k, and
    every slot either still holds the zero entry of the initial record
    (quantity 0 at coordinate 0) or records an example coordinate in
    [0, b_1 + ... + b_k) that is the absolute stream position (position at
    batch start plus offset within the batch) of the example that produced
    the slot. *)
Theorem stream_position_and_coordinates (N : nat) (ds : list dims_arg)
    (batches : list (list tensor)) :
  ds <> [] -> Forall dims_ok ds -> Forall (step_ok ds) batches ->
  (position batches < 2 ^ 63)%Z ->
  exists c0 c,
    MaximumActivationSearch_init ds (Z.of_nat N) = Some c0 /\
    streamindex c0 = 0%Z /\
    process_batches c0 batches = Some c /\
    streamindex c = position batches /\
    forall k d r,
      nth_error ds k = Some d ->
      nth_error (maximum_activations c) k = Some r ->
      forall i u, i < N -> u < units d ->
        let q := item (maximums r) [i; u] in
        let co := coord d (indices r) i u in
        (q = 0%Z /\ Forall (eq 0%Z) co)
        \/ recorded_example d (history k batches) (position batches) u q co.
Proof.
  intros Hne Hok Hb Hmax.
  destruct (run_spec N ds batches Hne Hok Hb Hmax)
    as (c0 & c & Hc0 & Hc & _ & Hpos & _ & Hrec).
  exists c0, c. split; [exact Hc0|]. split.
  { destruct (init_spec N ds Hne Hok) as (c0' & Hc0' & _ & Hp0 & _).
    rewrite Hc0 in Hc0'. injection Hc0' as <-. exact Hp0. }
  split; [exact Hc|]. split; [exact Hpos|].
  intros k d r Hd Hr i u Hi Hu q co.
  destruct (Hrec k d r Hd Hr) as (_ & _ & Hslots).
  destruct (Hslots i u Hi Hu) as [Hz|Hf]; [left; exact Hz|]. right.
  destruct (fetch_inv _ _ _ _ _ _ Hf) as (j & o & Hj & Hfb & Hle).
  rewrite Z.add_0_l in Hfb.
  destruct (fetch_batch_range _ _ _ _ _ _ Hfb) as (p & loc & Hco & Hrange).
  pose proof (total_history ds batches k d Hne Hb Hd) as Htot.
  pose proof (total_nonneg (firstn j (history k batches))) as Hnn.
  exists p, loc, j, o, (Z.to_nat (p - total (firstn j (history k batches)))).
  fold co. fold q. repeat split; auto; try lia.
Qed.

Lemma stream_position_and_coordinates_witness :
  exists c0 c,
    MaximumActivationSearch_init [DimsInt 1] (Z.of_nat 2) = Some c0 /\
    streamindex c0 = 0%Z /\
    process_batches c0 [[of_list2 1 [[5%Z]]]; [of_list2 1 [[7%Z]; [6%Z]]]]
    = Some c /\
    streamindex c = 3%Z /\
    forall k d r,
      nth_error [DimsInt 1] k = Some d ->
      nth_error (maximum_activations c) k = Some r ->
      forall i u, i < 2 -> u < units d ->
        let q := item (maximums r) [i; u] in
        let co := coord d (indices r) i u in
        (q = 0%Z /\ Forall (eq 0%Z) co)
        \/ recorded_example d
             (history k [[of_list2 1 [[5%Z]]]; [of_list2 1 [[7%Z]; [6%Z]]]])
             3 u q co.
Proof.
  apply (stream_position_and_coordinates 2 [DimsInt 1]
           [[of_list2 1 [[5%Z]]]; [of_list2 1 [[7%Z]; [6%Z]]]]).
  - discriminate.
  - repeat constructor. simpl. lia.
  - repeat constructor; [exists 1 | exists 2]; repeat constructor.
  - vm_compute. reflexivity.
Defined.

(** * Further properties of the module *)

(** ** [_axis_count] *)

Lemma unit_shape_seq (axis d k n : nat) :
  k <= axis -> axis < k + n ->
  map (fun a => if axis =? a then d else 1) (seq k n)
  = repeat 1 (axis - k) ++ d :: repeat 1 (k + n - axis - 1).
Proof.
  revert k. induction n as [|n IH]; intros k Hk Hn; [lia|].
  cbn [seq map]. destruct (Nat.eqb_spec axis k) as [->|Hne].
  - rewrite Nat.sub_diag. cbn [repeat app]. f_equal.
    replace (k + S n - k - 1) with n by lia.
    clear. revert k. induction n as [|n IH]; intros k; [reflexivity|].
    cbn [seq map repeat].
    destruct (Nat.eqb_spec k (S k)); [lia|]. f_equal.
    specialize (IH (S k)).
    rewrite <- IH. apply map_ext_in. intros a Ha. apply in_seq in Ha.
    destruct (Nat.eqb_spec k a), (Nat.eqb_spec (S k) a); try lia; reflexivity.
  - rewrite (IH (S k)) by lia.
    replace (axis - k) with (S (axis - S k)) by lia. cbn [repeat app].
    f_equal. f_equal. f_equal. f_equal. lia.
Qed.

Lemma position_of_axis (axis k n : nat) :
  k <= axis -> axis < k + n ->
  position_of 0 (map (fun a => if axis =? a then Some 0 else None) (seq k n))
  = axis - k.
Proof.
  revert k. induction n as [|n IH]; intros k Hk Hn; [lia|].
  cbn [seq map position_of]. destruct (Nat.eqb_spec axis k) as [->|Hne].
  - cbn. lia.
  - rewrite (IH (S k)) by lia. lia.
Qed.

(** X1.  [_axis_count(shape, axis, ndim)], for [axis < ndim], is an array
    of [ndim] axes, of length [shape[axis]] along [axis] and 1 along every
    other axis, whose item at any position is the component [axis] of the
    position: indexing with it leaves that axis in place. *)
Theorem axis_count_spec (shp : list nat) (axis ndim : nat) :
  axis < ndim ->
  shape (_axis_count shp axis ndim)
  = repeat 1 axis ++ nth axis shp 0 :: repeat 1 (ndim - axis - 1) /\
  forall s, item (_axis_count shp axis ndim) s = Z.of_nat (nth axis s 0).
Proof.
  intros Hlt. unfold _axis_count, dimshuffle, arange. cbn [shape item].
  split.
  - rewrite map_map.
    rewrite (map_ext _ (fun a => if axis =? a then nth axis shp 0 else 1)).
    + rewrite (unit_shape_seq axis (nth axis shp 0) 0 ndim) by lia.
      now rewrite Nat.sub_0_r.
    + intros a. now destruct (axis =? a).
  - intros s. cbn [Tensor.ndim shape length seq map nth].
    rewrite (position_of_axis axis 0 ndim) by lia.
    now rewrite Nat.sub_0_r.
Qed.

Lemma axis_count_spec_witness :
  shape (_axis_count [4; 5; 6] 1 3) = [1; 5; 1] /\
  forall s, item (_axis_count [4; 5; 6] 1 3) s = Z.of_nat (nth 1 s 0).
Proof. apply (axis_count_spec [4; 5; 6] 1 3). lia. Defined.

(** ** [_apply_perm] *)

Lemma adv_index_none (data : tensor) (idxs : list tensor) (bs s : list nat) :
  length idxs = ndim data ->
  broadcast_shapes (map shape idxs) = Some bs ->
  Forall2 lt s bs ->
  forallb2 (fun d ix => in_bounds d (bitem ix s)) (shape data) idxs = false ->
  adv_index data idxs = None.
Proof.
  intros Hlen Hbs Hs Hf. unfold adv_index.
  rewrite Hlen, Nat.eqb_refl, Hbs. cbn [bind].
  destruct (forallb _ (indices_of bs)) eqn:E; [|reflexivity].
  rewrite forallb_forall in E.
  rewrite (E s (proj2 (in_indices_of bs s) Hs)) in Hf. discriminate.
Qed.

Lemma in_bounds_iff (d : nat) (v : Z) :
  in_bounds d v = true <-> (- Z.of_nat d <= v < Z.of_nat d)%Z.
Proof.
  unfold in_bounds. rewrite andb_true_iff, Z.leb_le, Z.ltb_lt. tauto.
Qed.

(** X2.  [_apply_perm(data, indices, 0)] on a matrix, with indices of shape
    (N, units) that all lie in [-M, M) for the M rows of [data]: the result
    has the shape of the indices, and its item (i, u) is the item of column
    [u] of [data] at row [indices[i, u]], a negative index counting from
    the last row. *)
Theorem apply_perm_matrix (data idx : tensor) (M U N : nat) :
  shape data = [M; U] -> shape idx = [N; U] ->
  (forall i u, i < N -> u < U ->
     (- Z.of_nat M <= item idx [i; u] < Z.of_nat M)%Z) ->
  exists t, _apply_perm data idx 0 = Some t /\ shape t = [N; U] /\
    forall i u, i < N -> u < U ->
      item t [i; u]
      = item data [Z.to_nat (if (item idx [i; u] <? 0)%Z
                             then item idx [i; u] + Z.of_nat M
                             else item idx [i; u])%Z; u].
Proof.
  intros Hd Hi Hr. destruct data as [sh f], idx as [shi fi].
  simpl in *. subst. unfold _apply_perm.
  cbn [Tensor.ndim shape length Nat.ltb Nat.leb seq map Nat.eqb].
  erewrite adv_index_some; [eexists; split; [reflexivity|] | reflexivity | |].
  - split; [reflexivity|]. intros i u Hi Hu. simpl_bidx.
    now rewrite resolve_of_nat.
  - simpl_bcast. reflexivity.
  - intros s Hs. inv_index Hs. simpl_bidx.
    rewrite (proj2 (in_bounds_iff M (fi [i; i0]))) by (apply Hr; assumption).
    now rewrite in_bounds_of_nat.
Qed.

Lemma apply_perm_matrix_witness :
  exists t,
    _apply_perm (of_list2 1 [[5%Z]; [7%Z]; [9%Z]])
                (of_list2 1 [[(-1)%Z]; [0%Z]]) 0 = Some t /\
    shape t = [2; 1] /\
    forall i u, i < 2 -> u < 1 ->
      item t [i; u]
      = item (of_list2 1 [[5%Z]; [7%Z]; [9%Z]])
          [Z.to_nat
             (if (item (of_list2 1 [[(-1)%Z]; [0%Z]]) [i; u] <? 0)%Z
              then item (of_list2 1 [[(-1)%Z]; [0%Z]]) [i; u] + Z.of_nat 3
              else item (of_list2 1 [[(-1)%Z]; [0%Z]]) [i; u])%Z; u].
Proof.
  apply (apply_perm_matrix (of_list2 1 [[5%Z]; [7%Z]; [9%Z]])
           (of_list2 1 [[(-1)%Z]; [0%Z]]) 3 1 2 eq_refl eq_refl).
  intros i u Hi Hu.
  destruct i as [|[|i]]; [| |lia]; destruct u as [|u]; try lia;
    simpl; lia.
Defined.

(** X3.  [_apply_perm(data, indices, 0)] raises as soon as one index lies
    outside [-M, M), M being the number of rows of [data]. *)
Theorem apply_perm_out_of_bounds (data idx : tensor) (M U N i u : nat) :
  shape data = [M; U] -> shape idx = [N; U] ->
  i < N -> u < U ->
  ~ (- Z.of_nat M <= item idx [i; u] < Z.of_nat M)%Z ->
  _apply_perm data idx 0 = None.
Proof.
  intros Hd Hi Hlt Hu Hout. destruct data as [sh f], idx as [shi fi].
  simpl in *. subst. unfold _apply_perm.
  cbn [Tensor.ndim shape length Nat.ltb Nat.leb seq map Nat.eqb].
  apply (adv_index_none _ _ [N; U] [i; u]).
  - reflexivity.
  - simpl_bcast. reflexivity.
  - repeat constructor; assumption.
  - simpl_bidx.
    destruct (in_bounds M (fi [i; u])) eqn:E; [|reflexivity].
    apply in_bounds_iff in E. contradiction.
Qed.

Lemma apply_perm_out_of_bounds_witness :
  _apply_perm (of_list2 1 [[5%Z]; [7%Z]; [9%Z]])
              (of_list2 1 [[3%Z]; [0%Z]]) 0 = None.
Proof.
  apply (apply_perm_out_of_bounds (of_list2 1 [[5%Z]; [7%Z]; [9%Z]])
           (of_list2 1 [[3%Z]; [0%Z]]) 3 1 2 0 0 eq_refl eq_refl);
    [lia | lia |].
  vm_compute. intros [_ H]. discriminate.
Defined.

(** X4.  [_apply_perm] works along every axis.  For a 3d tensor [data] and
    indices of the same shape except along [axis] (any length there), with
    values inside the length of that axis, the result has the shape of the
    indices and its item at a position is the item of [data] at the same
    position with the component [axis] replaced by the index found
    there. *)
Theorem apply_perm_any_axis (data idx : tensor) (A B C L axis : nat) :
  shape data = [A; B; C] -> axis < 3 ->
  shape idx = set_axis axis L [A; B; C] ->
  (forall s, Forall2 lt s (shape idx) ->
     (0 <= item idx s < Z.of_nat (nth axis [A; B; C] 0%nat))%Z) ->
  exists t, _apply_perm data idx axis = Some t /\ shape t = shape idx /\
    forall s, Forall2 lt s (shape idx) ->
      item t s = item data (set_axis axis (Z.to_nat (item idx s)) s).
Proof.
  intros Hd Hax Hi Hr. destruct data as [sh f], idx as [shi fi].
  simpl in Hd, Hi, Hr. subst sh shi. unfold _apply_perm.
  destruct axis as [|[|[|axis]]]; [| | |lia];
    cbn [set_axis firstn skipn app nth] in *;
    cbn [Tensor.ndim shape length Nat.ltb Nat.leb seq map Nat.eqb];
    (erewrite adv_index_some;
     [eexists; split; [reflexivity|] | reflexivity | |]).
  - split; [reflexivity|]. intros s Hs.
    pose proof (Hr s Hs) as Hv. inv_index Hs. simpl_bidx.
    rewrite !resolve_of_nat. now rewrite resolve_nonneg by lia.
  - simpl_bcast. reflexivity.
  - intros s Hs. pose proof (Hr s Hs) as Hv. inv_index Hs. simpl_bidx.
    rewrite !in_bounds_of_nat by assumption.
    now rewrite in_bounds_nonneg by lia.
  - split; [reflexivity|]. intros s Hs.
    pose proof (Hr s Hs) as Hv. inv_index Hs. simpl_bidx.
    rewrite !resolve_of_nat. now rewrite resolve_nonneg by lia.
  - simpl_bcast. reflexivity.
  - intros s Hs. pose proof (Hr s Hs) as Hv. inv_index Hs. simpl_bidx.
    rewrite !in_bounds_of_nat by assumption.
    now rewrite in_bounds_nonneg by lia.
  - split; [reflexivity|]. intros s Hs.
    pose proof (Hr s Hs) as Hv. inv_index Hs. simpl_bidx.
    rewrite !resolve_of_nat. now rewrite resolve_nonneg by lia.
  - simpl_bcast. reflexivity.
  - intros s Hs. pose proof (Hr s Hs) as Hv. inv_index Hs. simpl_bidx.
    rewrite !in_bounds_of_nat by assumption.
    now rewrite in_bounds_nonneg by lia.
Qed.

Lemma apply_perm_any_axis_witness :
  let data := Tensor [2; 2; 2]
                (fun s => Z.of_nat (nth 0 s 0 * 4 + nth 1 s 0 * 2 + nth 2 s 0))
  in
  exists t, _apply_perm data (zeros [2; 1; 2]) 1 = Some t /\
    shape t = [2; 1; 2] /\
    forall s, Forall2 lt s [2; 1; 2] ->
      item t s = item data (set_axis 1 (Z.to_nat 0) s).
Proof.
  apply (apply_perm_any_axis
           (Tensor [2; 2; 2]
              (fun s => Z.of_nat (nth 0 s 0 * 4 + nth 1 s 0 * 2 + nth 2 s 0)))
           (zeros [2; 1; 2]) 2 2 2 1 1 eq_refl ltac:(lia) eq_refl).
  intros s _. simpl. lia.
Defined.

(** X5.  Indices with fewer axes than [data] are padded on the right:
    [_apply_perm(data, indices, 0)] with (N, units) indices into a tensor
    with one or two further axes selects, for every slot and unit, the whole
    trailing block of [data] at the indexed row. *)
Theorem apply_perm_padded (data idx : tensor) (M U N : nat) (R : list nat) :
  shape data = M :: U :: R -> 1 <= length R <= 2 ->
  shape idx = [N; U] ->
  (forall i u, i < N -> u < U -> (0 <= item idx [i; u] < Z.of_nat M)%Z) ->
  exists t, _apply_perm data idx 0 = Some t /\ shape t = N :: U :: R /\
    forall i u r, i < N -> u < U -> Forall2 lt r R ->
      item t (i :: u :: r)
      = item data (Z.to_nat (item idx [i; u]) :: u :: r).
Proof.
  intros Hd HR Hi Hr.
  destruct R as [|K [|W [|? ?]]]; simpl in HR; try lia.
  - destruct (apply_perm0_3d data idx M U K N Hd Hi Hr)
      as (t & Ht & Hst & Hit).
    exists t. repeat split; try assumption.
    intros i u r Hi' Hu Hr'. inv_index Hr'. now apply Hit.
  - destruct (apply_perm0_4d data idx M U K W N Hd Hi Hr)
      as (t & Ht & Hst & Hit).
    exists t. repeat split; try assumption.
    intros i u r Hi' Hu Hr'. inv_index Hr'. now apply Hit.
Qed.

Lemma apply_perm_padded_witness :
  let data := Tensor [2; 1; 3] (fun s => Z.of_nat (nth 0 s 0 * 3 + nth 2 s 0))
  in
  exists t, _apply_perm data (of_list2 1 [[1%Z]]) 0 = Some t /\
    shape t = [1; 1; 3] /\
    forall i u r, i < 1 -> u < 1 -> Forall2 lt r [3] ->
      item t (i :: u :: r)
      = item data (Z.to_nat (item (of_list2 1 [[1%Z]]) [i; u]) :: u :: r).
Proof.
  apply (apply_perm_padded
           (Tensor [2; 1; 3] (fun s => Z.of_nat (nth 0 s 0 * 3 + nth 2 s 0)))
           (of_list2 1 [[1%Z]]) 2 1 1 [3] eq_refl ltac:(simpl; lia) eq_refl).
  intros i u Hi Hu. destruct i; [|lia]. destruct u; [|lia]. simpl. lia.
Defined.

Lemma map_nth_seq {A : Type} (l : list A) (d : A) :
  map (fun i => nth i l d) (seq 0 (length l)) = l.
Proof.
  apply (nth_ext _ _ d d).
  - now rewrite length_map, length_seq.
  - intros n Hn. rewrite length_map, length_seq in Hn.
    rewrite (nth_indep _ d (nth 0 l d)) by (now rewrite length_map, length_seq).
    rewrite (map_nth (fun i => nth i l d)), seq_nth by assumption.
    reflexivity.
Qed.

(** X6.  [_apply_perm] applies the permutation returned by [argsort], as
    its docstring says: [_apply_perm(data, data.argsort(axis=0), 0)] is
    [data] with every column sorted in ascending order, each column of the
    result being a rearrangement of the column of [data]. *)
Theorem apply_perm_argsort (data : tensor) (M U : nat) :
  shape data = [M; U] ->
  exists t, _apply_perm data (argsort data 0) 0 = Some t /\
    shape t = [M; U] /\
    forall u, u < U ->
      Permutation (column data u) (column t u) /\
      forall i j, i <= j -> j < M -> (item t [i; u] <= item t [j; u])%Z.
Proof.
  intros Hd.
  assert (forall u, length (column data u) = M) as Hlen.
  { intros u. rewrite column_length. unfold dim. now rewrite Hd. }
  destruct (apply_perm0_2d data (argsort data 0) M U M Hd Hd)
    as (t & Ht & Hst & Hit).
  { intros i u Hi Hu. rewrite argsort0_item.
    pose proof (argsort_list_lt (column data u) i) as H.
    rewrite Hlen in H. specialize (H Hi). lia. }
  exists t. split; [exact Ht|]. split; [exact Hst|].
  intros u Hu.
  assert (forall i, i < M ->
            item t [i; u]
            = nth (nth i (argsort_list (column data u)) 0) (column data u) 0%Z)
    as Hitem.
  { intros i Hi. rewrite (Hit i u Hi Hu), argsort0_item, Nat2Z.id.
    rewrite column_nth; [reflexivity|].
    pose proof (argsort_list_lt (column data u) i) as H.
    rewrite Hlen in H. unfold dim. rewrite Hd. simpl. now apply H. }
  split.
  - replace (column t u)
      with (map (fun p => nth p (column data u) 0%Z)
                (argsort_list (column data u))).
    + rewrite <- (map_nth_seq (column data u) 0%Z) at 1.
      apply Permutation_map. apply argsort_list_spec.
    + rewrite <- (map_nth_seq (argsort_list (column data u)) 0) at 1.
      rewrite argsort_list_length, Hlen, map_map.
      unfold column at 3. unfold lane, dim. rewrite Hst. cbn.
      apply map_ext_in. intros i Hi. apply in_seq in Hi.
      symmetry. apply Hitem. lia.
  - intros i j Hij Hj. rewrite !Hitem by lia.
    destruct (Nat.eq_dec i j) as [->|Hne]; [lia|].
    pose proof (argsort_list_before (column data u) i j ltac:(lia)
                  ltac:(now rewrite Hlen)) as Hb.
    unfold before, key_of in Hb. lia.
Qed.

Lemma apply_perm_argsort_witness :
  exists t,
    _apply_perm (of_list2 1 [[5%Z]; [1%Z]; [3%Z]])
                (argsort (of_list2 1 [[5%Z]; [1%Z]; [3%Z]]) 0) 0 = Some t /\
    shape t = [3; 1] /\
    forall u, u < 1 ->
      Permutation (column (of_list2 1 [[5%Z]; [1%Z]; [3%Z]]) u) (column t u)
      /\ forall i j, i <= j -> j < 3 -> (item t [i; u] <= item t [j; u])%Z.
Proof.
  apply (apply_perm_argsort (of_list2 1 [[5%Z]; [1%Z]; [3%Z]]) 3 1 eq_refl).
Defined.

(** ** [_apply_index] *)

(** X7.  [_apply_index(data, indices, 2)] on a 3d tensor, with one index
    per position of the first two axes and every index inside the last
    axis: the result drops the last axis and holds, at every position, the
    item of [data] selected by the index found there. *)
Theorem apply_index_last_axis (data idx : tensor) (C U K : nat) :
  shape data = [C; U; K] -> shape idx = [C; U] ->
  (forall c u, c < C -> u < U -> (0 <= item idx [c; u] < Z.of_nat K)%Z) ->
  exists t, _apply_index data idx 2 = Some t /\ shape t = [C; U] /\
    forall c u, c < C -> u < U ->
      item t [c; u] = item data [c; u; Z.to_nat (item idx [c; u])].
Proof. apply apply_index2_3d. Qed.

Lemma apply_index_last_axis_witness :
  let data := Tensor [1; 1; 3] (fun s => Z.of_nat (10 + nth 2 s 0)) in
  exists t, _apply_index data (of_list2 1 [[2%Z]]) 2 = Some t /\
    shape t = [1; 1] /\
    forall c u, c < 1 -> u < 1 ->
      item t [c; u]
      = item data [c; u; Z.to_nat (item (of_list2 1 [[2%Z]]) [c; u])].
Proof.
  apply (apply_index_last_axis
           (Tensor [1; 1; 3] (fun s => Z.of_nat (10 + nth 2 s 0)))
           (of_list2 1 [[2%Z]]) 1 1 3 eq_refl eq_refl).
  intros c u Hc Hu. destruct c; [|lia]. destruct u; [|lia]. simpl. lia.
Defined.

Lemma apply_index_argmax_last_axis_witness :
  let data := Tensor [1; 1; 3] (fun s => Z.of_nat (10 + nth 2 s 0)) in
  exists a t m,
    argmax data 2 = Some a /\ _apply_index data a 2 = Some t /\
    amax data 2 = Some m /\ shape t = shape m /\
    forall c u, c < 1 -> u < 1 -> item t [c; u] = item m [c; u].
Proof.
  apply (apply_index_argmax_last_axis
           (Tensor [1; 1; 3] (fun s => Z.of_nat (10 + nth 2 s 0)))
           1 1 3 eq_refl).
  lia.
Defined.

(** ** Allocation and construction *)

Lemma np_zeros_some (sh : list Z) :
  Forall (fun x => (0 <= x)%Z) sh ->
  np_zeros sh = Some (zeros (map Z.to_nat sh)).
Proof.
  intros H. unfold np_zeros.
  replace (forallb _ sh) with true; [reflexivity|].
  symmetry. apply forallb_forall. rewrite Forall_forall in H.
  intros x Hx. apply Z.leb_le. now apply H.
Qed.



Lemma create_some (topn : Z) (d : dims_arg) :
  allocatable topn d ->
  exists r, _create_maximum_activation_for topn d = Some r /\
            record_shape (Z.to_nat topn) d r /\ zero_record d r /\
            forall snap s, snapshot r = Some snap -> item snap s = 0%Z.
Proof.
  intros [Ht Hd]. unfold _create_maximum_activation_for.
  destruct d as [n|dd].
  - rewrite !np_zeros_some by (repeat constructor; assumption).
    cbn [bind]. eexists. split; [reflexivity|].
    split; [repeat split|]. split; [split; reflexivity|].
    intros snap s H. discriminate.
  - destruct Hd as [Hne Hall]. destruct dd as [|d0 dd]; [contradiction|].
    cbn [nth_error bind]. inversion Hall; subst.
    rewrite !np_zeros_some by (repeat constructor; assumption || lia).
    cbn [bind]. eexists. split; [reflexivity|].
    split; [|split; [split; reflexivity|]].
    + split; [reflexivity|]. cbn. repeat split. eexists. split; reflexivity.
    + intros snap s H. cbn in H. injection H as <-. reflexivity.
Qed.



(** ** Shape mismatch *)

Lemma bind_none {A B : Type} (m : option A) (f : A -> option B) :
  (forall a, m = Some a -> f a = None) -> bind m f = None.
Proof. intros H. destruct m as [a|]; [now apply H | reflexivity]. Qed.

Lemma concatenate0_none (a b : tensor) (na nb : nat) (ra rb : list nat) :
  shape a = na :: ra -> shape b = nb :: rb -> ra <> rb ->
  concatenate0 a b = None.
Proof.
  intros Ha Hb Hne. unfold concatenate0. rewrite Ha, Hb.
  destruct (list_eq_dec Nat.eq_dec ra rb); [contradiction | reflexivity].
Qed.

Lemma update_mismatch (d : dims_arg) (N : nat) (r : stat_record) (o : tensor)
    (pos : Z) :
  dims_ok d -> record_shape N d r ->
  (forall b, ~ batch_shape b d o) ->
  _create_maximum_activation_update o r pos (Z.of_nat N) = None.
Proof.
  intros Hok [Hm Hr] Hno. unfold _create_maximum_activation_update.
  apply bind_none. intros b Hb. apply bind_none. intros u Hu.
  destruct (shape o) as [|b' sh'] eqn:Hso; [discriminate|].
  cbn in Hb. injection Hb as ->.
  destruct d as [n|dd].
  - destruct Hr as (Hd & _ & _). rewrite Hd. cbn [length Nat.eqb bind fst].
    rewrite (concatenate0_none _ _ N b [units (DimsInt n)] sh' Hm Hso);
      [reflexivity|].
    intros <-. apply (Hno b). exact Hso.
  - destruct Hr as (Hd & _ & snap & Hsnap & Hss). rewrite Hsnap.
    apply bind_none. intros tt _. apply bind_none. intros cmax _.
    apply bind_none. intros cind _. apply bind_none. intros newmax _.
    apply bind_none. intros newind _.
    rewrite (concatenate0_none _ _ N b (map Z.to_nat dd) sh' Hss Hso);
      [reflexivity|].
    intros <-. apply (Hno b). exact Hso.
Qed.

(** X10.  The update returns exactly when the batch has the declared
    shape: (batch, units) for a dense record, (batch, units, height, width)
    for a spatial one.  A batch of any other shape (another rank, another
    number of units, another map size) makes the update raise, so no buffer
    receives a new value. *)
Theorem update_returns_iff (d : dims_arg) (N : nat) (r : stat_record)
    (o : tensor) (pos : Z) :
  dims_ok d -> record_shape N d r ->
  ((exists b, batch_shape b d o) <->
   _create_maximum_activation_update o r pos (Z.of_nat N) <> None).
Proof.
  intros Hok Hr. split.
  - intros [b Hb].
    destruct (update_spec d N b r o pos Hok Hr Hb)
      as (? & ? & ? & ? & ? & Hup & _).
    rewrite Hup. discriminate.
  - intros Hsome.
    destruct (shape o) as [|b sh'] eqn:Hso.
    + exfalso. apply Hsome. apply (update_mismatch d); auto.
      intros b Hb. destruct d; simpl in Hb; rewrite Hso in Hb; discriminate.
    + destruct (list_eq_dec Nat.eq_dec sh'
                  (match d with
                   | DimsInt n => [Z.to_nat n]
                   | DimsTuple dd => map Z.to_nat dd
                   end)) as [Heq|Hne].
      * exists b. destruct d; simpl; rewrite Hso, Heq; reflexivity.
      * exfalso. apply Hsome. apply (update_mismatch d); auto.
        intros b' Hb. apply Hne.
        destruct d; simpl in Hb; rewrite Hso in Hb; now injection Hb.
Qed.

Lemma update_returns_iff_witness :
  (exists b, batch_shape b (DimsInt 1) (of_list2 2 [[3%Z; 4%Z]])) <->
  _create_maximum_activation_update (of_list2 2 [[3%Z; 4%Z]]) record_5_1 2
                                    (Z.of_nat 2) <> None.
Proof.
  apply (update_returns_iff (DimsInt 1) 2 record_5_1
           (of_list2 2 [[3%Z; 4%Z]]) 2).
  - simpl. lia.
  - repeat split.
Defined.

(** ** The N largest candidates *)


Lemma key_of_opp (cands : list Z) (p : nat) :
  key_of (map Z.opp cands) p = (- nth p cands 0)%Z.
Proof. unfold key_of. change 0%Z with (- 0)%Z at 1. apply map_nth. Qed.

Lemma firstn_map_nth {A : Type} (l : list A) (d : A) (n : nat) :
  n <= length l -> firstn n l = map (fun i => nth i l d) (seq 0 n).
Proof.
  intros Hn. apply (nth_ext _ _ d d).
  - rewrite length_firstn, length_map, length_seq. lia.
  - intros i Hi. rewrite length_firstn in Hi.
    rewrite nth_firstn. destruct (Nat.ltb_spec i n); [|lia].
    rewrite (nth_indep (map _ _) d (nth 0 l d))
      by (rewrite length_map, length_seq; lia).
    rewrite (map_nth (fun i => nth i l d)), seq_nth by lia. reflexivity.
Qed.


(** When the retained quantities are in descending order, every slot of
    the new top-N is at least what it was. *)
Lemma top_n_monotone (old new : list Z) (i : nat) :
  (forall a c, a <= c -> c < length old ->
               (nth c old 0 <= nth a old 0)%Z) ->
  i < length old ->
  (nth i old 0 <= nth i (top_n (length old) (old ++ new)) 0)%Z.
Proof.
  intros Hsorted Hi.
  set (cands := old ++ new).
  destruct (argsort_list_spec (map Z.opp cands)) as [Hp Hs].
  rewrite length_map in Hp.
  pose proof (argsort_list_length (map Z.opp cands)) as Hlen.
  rewrite length_map in Hlen.
  set (plist := argsort_list (map Z.opp cands)) in *.
  assert (length cands = length old + length new) as Hlc
    by (unfold cands; apply length_app).
  assert (nth i (top_n (length old) cands) 0%Z
          = nth (nth i plist 0) cands 0%Z) as Htop.
  { unfold top_n. fold plist.
    rewrite (nth_indep _ 0%Z (nth (nth 0 plist 0) cands 0%Z))
      by (rewrite length_map, length_firstn; lia).
    rewrite (firstn_map_nth plist 0) by lia.
    rewrite map_map.
    rewrite (map_nth (fun k => nth (nth k plist 0) cands 0%Z)).
    now rewrite seq_nth. }
  rewrite Htop.
  assert (NoDup plist) as Hnd
    by (eapply Permutation_NoDup; [exact Hp | apply seq_NoDup]).
  assert (exists p, p <= i /\ ~ In p (firstn i plist)) as (p & Hpi & Hnot).
  { destruct (Forall_Exists_dec (fun p => In p (firstn i plist))
                (fun p => in_dec Nat.eq_dec p (firstn i plist))
                (seq 0 (S i))) as [Hall|Hex].
    - exfalso.
      assert (incl (seq 0 (S i)) (firstn i plist)) as Hincl.
      { intros p Hin. rewrite Forall_forall in Hall. now apply Hall. }
      pose proof (NoDup_incl_length (seq_NoDup (S i) 0) Hincl) as Hle.
      rewrite length_seq, length_firstn in Hle. lia.
    - apply Exists_exists in Hex as (p & Hin & Hn).
      apply in_seq in Hin. exists p. split; [lia | exact Hn]. }
  assert (In p plist) as Hin.
  { eapply Permutation_in; [exact Hp|]. apply in_seq. lia. }
  destruct (In_nth plist p 0 Hin) as (j & Hj & Hjp).
  assert (i <= j) as Hij.
  { destruct (Nat.le_gt_cases i j) as [H|H]; [exact H|].
    exfalso. apply Hnot. rewrite <- Hjp.
    replace (nth j plist 0) with (nth j (firstn i plist) 0).
    - apply nth_In. rewrite length_firstn. lia.
    - rewrite nth_firstn. destruct (Nat.ltb_spec j i); [reflexivity | lia]. }
  assert (nth p cands 0%Z = nth p old 0%Z) as Hpold
    by (unfold cands; apply app_nth1; lia).
  assert (nth i old 0 <= nth p old 0)%Z as Hold
    by (apply Hsorted; lia).
  destruct (Nat.eq_dec i j) as [->|Hne].
  - rewrite Hjp, Hpold. exact Hold.
  - pose proof (StronglySorted_nth _ plist 0 Hs i j ltac:(lia) Hj) as Hb.
    unfold before in Hb. rewrite !key_of_opp, Hjp, Hpold in Hb. lia.
Qed.

(** A list already in descending order is its own top-N. *)
Lemma top_n_sorted (old : list Z) :
  (forall a c, a <= c -> c < length old ->
               (nth c old 0 <= nth a old 0)%Z) ->
  top_n (length old) old = old.
Proof.
  intros Hsorted. unfold top_n.
  rewrite argsort_list_sorted_id.
  - rewrite length_map, firstn_all2 by (rewrite length_seq; lia).
    apply map_nth_seq.
  - rewrite length_map. intros a c Hac Hc. rewrite !key_of_opp.
    specialize (Hsorted a c Hac Hc). lia.
Qed.

Lemma column_top_n (maximums tmax newmax : tensor) (N U b u : nat) :
  shape maximums = [N; U] -> shape tmax = [b; U] -> shape newmax = [N; U] ->
  (forall i, i < N ->
     item newmax [i; u]
     = pick maximums tmax N (rank maximums tmax u i) [u]) ->
  column newmax u = top_n N (column maximums u ++ column tmax u).
Proof.
  intros Hm Ht Hn Hq.
  pose proof (candidates_length maximums tmax N U b u Hm Ht) as Hlen.
  rewrite length_map in Hlen.
  unfold top_n.
  rewrite (firstn_map_nth _ 0) by (rewrite argsort_list_length, length_map; lia).
  rewrite map_map. unfold column at 1. unfold lane, dim. rewrite Hn. cbn.
  apply map_ext_in. intros i Hi. apply in_seq in Hi.
  rewrite Hq by lia.
  apply (pick_nth maximums tmax N U b u); auto.
  apply (rank_lt maximums tmax N U b); auto. lia.
Qed.

Lemma feature_map_nth (o : tensor) (h w e u k : nat) :
  k < h * w ->
  nth k (feature_map o h w e u) 0%Z = item o [e; u; k / w; k mod w].
Proof.
  intros Hk. unfold feature_map.
  rewrite (nth_indep _ 0%Z (item o [e; u; 0 / w; 0 mod w]))
    by (now rewrite length_map, length_seq).
  rewrite (map_nth (fun k => item o [e; u; k / w; k mod w])).
  now rewrite seq_nth.
Qed.

(** The new quantities of a unit are the N first of its candidates in
    descending order. *)
Lemma update_quantities (d : dims_arg) (N b : nat) (r : stat_record)
    (o : tensor) (pos : Z) :
  dims_ok d -> record_shape N d r -> batch_shape b d o ->
  exists newmax newind newsnap,
    _create_maximum_activation_update o r pos (Z.of_nat N)
    = Some (newmax, newind, newsnap) /\
    forall u, u < units d ->
      column newmax u = top_n N (candidates d r o u).
Proof.
  intros Hok [Hm Hr] Ho. destruct d as [n|dd].
  - destruct Hr as (Hd & Hsnap & Hi). simpl in Ho, Hok.
    destruct (update_dense o r pos N (units (DimsInt n)) b
                ltac:(now rewrite Hd) Hsnap Ho Hm Hi)
      as (newmax & newind & Hup & Hsm & Hsi & Hq).
    exists newmax, newind, None. split; [exact Hup|]. intros u Hu.
    rewrite (column_top_n (maximums r) o newmax N (units (DimsInt n)) b u
               Hm Ho Hsm).
    + reflexivity.
    + intros i Hi'. apply (Hq i u Hi' Hu).
  - destruct dd as [|u0 [|h0 [|w0 [|? ?]]]]; try contradiction.
    destruct Hok as (Hu0 & Hh0 & Hw0).
    destruct Hr as (Hd & Hi & snap & Hsnap & Hss). simpl in Ho, Hss, Hm, Hi.
    destruct (update_spatial o r pos N (Z.to_nat u0) b (Z.to_nat h0)
                (Z.to_nat w0) snap
                ltac:(rewrite Hd, !Z2Nat.id by lia; reflexivity)
                Hsnap Hss Ho ltac:(lia) ltac:(lia) Hm Hi)
      as (tmax & tind & newmax & newind & newsnap & Hup & Hst & Hsti & Hc
          & Hsm & Hsi & Hsn & Hq).
    exists newmax, newind, (Some newsnap). split; [exact Hup|].
    intros u Hu. cbn [units] in Hu.
    rewrite (column_top_n (maximums r) tmax newmax N (Z.to_nat u0) b u
               Hm Hst Hsm).
    + unfold candidates. do 2 f_equal.
      unfold column, lane, dim. rewrite Hst, Ho. cbn.
      apply map_ext_in. intros e He. apply in_seq in He.
      destruct (Hc e u ltac:(lia) Hu) as (H1 & _). rewrite H1.
      assert (feature_map o (Z.to_nat h0) (Z.to_nat w0) e u <> []) as Hne
        by (apply feature_map_nonempty; lia).
      rewrite <- (argmax_list_max _ Hne).
      rewrite feature_map_nth; [reflexivity|].
      pose proof (argmax_list_lt _ Hne) as Hk.
      unfold feature_map in Hk at 2.
      now rewrite length_map, length_seq in Hk.
    + intros i Hi'. apply (Hq i u Hi' Hu).
Qed.



(** ** One more step from a reachable state *)

Lemma reachable_step (N : nat) (ds : list dims_arg)
    (batches : list (list tensor)) (outs : list tensor) :
  ds <> [] -> Forall dims_ok ds -> Forall (step_ok ds) batches ->
  step_ok ds outs ->
  (position (batches ++ [outs]) < 2 ^ 63)%Z ->
  exists c0 c c',
    MaximumActivationSearch_init ds (Z.of_nat N) = Some c0 /\
    process_batches c0 batches = Some c /\
    process_batch c outs = Some c' /\
    streamindex c = position batches /\
    streamindex c' = (position batches + Z.of_nat (batch_size outs))%Z /\
    forall k d r',
      nth_error ds k = Some d ->
      nth_error (maximum_activations c') k = Some r' ->
      exists r o b upd,
        nth_error (maximum_activations c) k = Some r /\
        nth_error outs k = Some o /\ batch_shape b d o /\ dims_ok d /\
        record_inv N d (history k batches) r /\
        _create_maximum_activation_update o r (streamindex c) (Z.of_nat N)
        = Some upd /\
        r' = apply_updates r upd.
Proof.
  intros Hne Hok Hb Hz Hmax.
  destruct (run_spec N ds batches Hne Hok Hb) as (c0 & c & Hc0 & Hc & Hinv).
  { rewrite position_app in Hmax. pose proof (position_nonneg [outs]). lia. }
  destruct (process_batch_spec N ds batches outs c Hne Hok Hb Hz Hmax Hinv)
    as (c' & Hc' & Hinv').
  exists c0, c, c'. split; [exact Hc0|]. split; [exact Hc|].
  split; [exact Hc'|].
  destruct Hinv as (Htopn & Hpos & _ & Hrec).
  split; [exact Hpos|]. split.
  { destruct Hinv' as (_ & Hpos' & _). rewrite Hpos', position_app.
    simpl. lia. }
  intros k d r' Hd Hr'.
  unfold process_batch in Hc'.
  apply bind_some in Hc' as (recs & Hzip & Hc').
  apply bind_some in Hc' as (o0 & _ & Hc').
  apply bind_some in Hc' as (b0 & _ & Hc'). injection Hc' as <-.
  cbn [maximum_activations] in Hr'.
  destruct (zipM_nth_error _ _ _ _ _ _ Hzip Hr') as (o & r & Ho & Hr & Hf).
  apply bind_some in Hf as (upd & Hup & Hf). injection Hf as <-.
  rewrite Htopn in Hup. destruct Hz as [b Hbs].
  exists r, o, b, upd. split; [exact Hr|]. split; [exact Ho|].
  split; [apply (Forall2_nth_error _ _ _ Hbs k d o Hd Ho)|].
  split.
  { rewrite Forall_forall in Hok. apply Hok.
    eapply nth_error_In; eassumption. }
  split; [now apply (Hrec k)|]. split; [exact Hup | reflexivity].
Qed.

(** X12.  The quantities of a slot never decrease: in any state reached
    from construction, a further step leaves every slot of every record
    with a quantity at least as large as before. *)
Theorem quantities_never_decrease (N : nat) (ds : list dims_arg)
    (batches : list (list tensor)) (outs : list tensor) :
  ds <> [] -> Forall dims_ok ds -> Forall (step_ok ds) batches ->
  step_ok ds outs ->
  (position (batches ++ [outs]) < 2 ^ 63)%Z ->
  exists c0 c c',
    MaximumActivationSearch_init ds (Z.of_nat N) = Some c0 /\
    process_batches c0 batches = Some c /\
    process_batch c outs = Some c' /\
    forall k d r r',
      nth_error ds k = Some d ->
      nth_error (maximum_activations c) k = Some r ->
      nth_error (maximum_activations c') k = Some r' ->
      forall i u, i < N -> u < units d ->
        (item (maximums r) [i; u] <= item (maximums r') [i; u])%Z.
Proof.
  intros Hne Hok Hb Hz Hmax.
  destruct (reachable_step N ds batches outs Hne Hok Hb Hz Hmax)
    as (c0 & c & c' & Hc0 & Hc & Hc' & _ & _ & Hstep).
  exists c0, c, c'. split; [exact Hc0|]. split; [exact Hc|].
  split; [exact Hc'|].
  intros k d r r' Hd Hr Hr' i u Hi Hu.
  destruct (Hstep k d r' Hd Hr')
    as (r0 & o & b & upd & Hr0 & Ho & Hbs & Hdok & (Hshape & Hsorted & _)
        & Hup & ->).
  rewrite Hr in Hr0. injection Hr0 as <-.
  destruct (update_quantities d N b r o (streamindex c) Hdok Hshape Hbs)
    as (newmax & newind & newsnap & Hup' & Hcol).
  destruct (update_spec d N b r o (streamindex c) Hdok Hshape Hbs)
    as (? & ? & newmax2 & newind2 & newsnap2 & Hup2 & [Hsm _] & _).
  rewrite Hup in Hup', Hup2. injection Hup' as ->.
  injection Hup2 as <- <- <-. cbn [apply_updates maximums] in *.
  pose proof (proj1 Hshape) as Hm.
  assert (length (column (maximums r) u) = N) as Hlen
    by (rewrite column_length; unfold dim; now rewrite Hm).
  rewrite <- (column_nth newmax u i) by (unfold dim; now rewrite Hsm).
  rewrite <- (column_nth (maximums r) u i) by (unfold dim; now rewrite Hm).
  rewrite (Hcol u Hu). unfold candidates. rewrite <- Hlen.
  apply top_n_monotone; [|lia].
  intros a c1 Hac Hc1. rewrite Hlen in Hc1.
  rewrite !column_nth by (unfold dim; rewrite Hm; simpl; lia).
  apply Hsorted; assumption.
Qed.

Lemma quantities_never_decrease_witness :
  exists c0 c c',
    MaximumActivationSearch_init [DimsInt 1] (Z.of_nat 2) = Some c0 /\
    process_batches c0 [[of_list2 1 [[5%Z]; [1%Z]]]] = Some c /\
    process_batch c [of_list2 1 [[3%Z]]] = Some c' /\
    forall k d r r',
      nth_error [DimsInt 1] k = Some d ->
      nth_error (maximum_activations c) k = Some r ->
      nth_error (maximum_activations c') k = Some r' ->
      forall i u, i < 2 -> u < units d ->
        (item (maximums r) [i; u] <= item (maximums r') [i; u])%Z.
Proof.
  apply (quantities_never_decrease 2 [DimsInt 1]
           [[of_list2 1 [[5%Z]; [1%Z]]]] [of_list2 1 [[3%Z]]]).
  - discriminate.
  - repeat constructor. simpl. lia.
  - repeat constructor. exists 2. repeat constructor.
  - exists 1. repeat constructor.
  - vm_compute. reflexivity.
Defined.

(** X13.  A step whose batches hold no example adds nothing: in any
    state reached from construction, it leaves the stream position and the
    quantities of every record as they were.  (The update sorts the
    retained entries again; the coordinates of retained entries of equal
    quantity follow the order in which [argsort] returns equal keys.) *)
Theorem empty_batch_no_change (N : nat) (ds : list dims_arg)
    (batches : list (list tensor)) (outs : list tensor) :
  ds <> [] -> Forall dims_ok ds -> Forall (step_ok ds) batches ->
  step_ok ds outs -> Forall (fun o => dim o 0 = 0) outs ->
  (position batches < 2 ^ 63)%Z ->
  exists c0 c c',
    MaximumActivationSearch_init ds (Z.of_nat N) = Some c0 /\
    process_batches c0 batches = Some c /\
    process_batch c outs = Some c' /\
    streamindex c' = streamindex c /\
    forall k d r r',
      nth_error ds k = Some d ->
      nth_error (maximum_activations c) k = Some r ->
      nth_error (maximum_activations c') k = Some r' ->
      forall i u, i < N -> u < units d ->
        item (maximums r') [i; u] = item (maximums r) [i; u].
Proof.
  intros Hne Hok Hb Hz Hempty Hmax.
  assert (batch_size outs = 0) as Hbs0.
  { destruct Hz as [b Hbs]. destruct ds as [|d0 ds']; [contradiction|].
    destruct (step_ok_size (d0 :: ds') outs b 0 d0 Hbs eq_refl)
      as (o0 & Ho0 & _ & Hn & _).
    unfold batch_size. rewrite Hn. rewrite Forall_forall in Hempty.
    apply Hempty. eapply nth_error_In; eassumption. }
  destruct (reachable_step N ds batches outs Hne Hok Hb Hz)
    as (c0 & c & c' & Hc0 & Hc & Hc' & Hp & Hp' & Hstep).
  { rewrite position_app. simpl. rewrite Hbs0. lia. }
  exists c0, c, c'. split; [exact Hc0|]. split; [exact Hc|].
  split; [exact Hc'|]. split; [rewrite Hp', Hp, Hbs0; lia|].
  intros k d r r' Hd Hr Hr' i u Hi Hu.
  destruct (Hstep k d r' Hd Hr')
    as (r0 & o & b & upd & Hr0 & Ho & Hbs & Hdok & (Hshape & Hsorted & _)
        & Hup & ->).
  rewrite Hr in Hr0. injection Hr0 as <-.
  assert (dim o 0 = 0) as Hdim.
  { rewrite Forall_forall in Hempty. apply Hempty.
    eapply nth_error_In; eassumption. }
  destruct (update_quantities d N b r o (streamindex c) Hdok Hshape Hbs)
    as (newmax & newind & newsnap & Hup' & Hcol).
  destruct (update_spec d N b r o (streamindex c) Hdok Hshape Hbs)
    as (? & ? & newmax2 & newind2 & newsnap2 & Hup2 & [Hsm _] & _).
  rewrite Hup in Hup', Hup2. injection Hup' as ->.
  injection Hup2 as <- <- <-. cbn [apply_updates maximums] in *.
  pose proof (proj1 Hshape) as Hm.
  assert (length (column (maximums r) u) = N) as Hlen
    by (rewrite column_length; unfold dim; now rewrite Hm).
  rewrite <- (column_nth newmax u i) by (unfold dim; now rewrite Hsm).
  rewrite <- (column_nth (maximums r) u i) by (unfold dim; now rewrite Hm).
  rewrite (Hcol u Hu). unfold candidates. rewrite Hdim. cbn [seq map].
  rewrite app_nil_r. rewrite <- Hlen at 1. rewrite top_n_sorted; [reflexivity|].
  intros a c1 Hac Hc1. rewrite Hlen in Hc1.
  rewrite !column_nth by (unfold dim; rewrite Hm; simpl; lia).
  apply Hsorted; assumption.
Qed.

Lemma empty_batch_no_change_witness :
  exists c0 c c',
    MaximumActivationSearch_init [DimsInt 1] (Z.of_nat 2) = Some c0 /\
    process_batches c0 [[of_list2 1 [[5%Z]; [1%Z]]]] = Some c /\
    process_batch c [zeros [0; 1]] = Some c' /\
    streamindex c' = streamindex c /\
    forall k d r r',
      nth_error [DimsInt 1] k = Some d ->
      nth_error (maximum_activations c) k = Some r ->
      nth_error (maximum_activations c') k = Some r' ->
      forall i u, i < 2 -> u < units d ->
        item (maximums r') [i; u] = item (maximums r) [i; u].
Proof.
  apply (empty_batch_no_change 2 [DimsInt 1]
           [[of_list2 1 [[5%Z]; [1%Z]]]] [zeros [0; 1]]).
  - discriminate.
  - repeat constructor. simpl. lia.
  - repeat constructor. exists 2. repeat constructor.
  - exists 0. repeat constructor.
  - repeat constructor.
  - vm_compute. reflexivity.
Defined.

(** ** The spatial reduction in general *)

Lemma fold_left_max_ge (l : list Z) (a : Z) :
  (a <= fold_left Z.max l a)%Z /\
  forall x, In x l -> (x <= fold_left Z.max l a)%Z.
Proof.
  revert a. induction l as [|y l IH]; intros a; simpl.
  - split; [lia | contradiction].
  - destruct (IH (Z.max a y)) as [H1 H2]. split; [lia|].
    intros x [<-|Hx]; [lia | now apply H2].
Qed.

Lemma max_list_ge (l : list Z) (x : Z) : In x l -> (x <= max_list l)%Z.
Proof.
  destruct l as [|y l]; [contradiction|]. simpl.
  destruct (fold_left_max_ge l y) as [H1 H2].
  intros [<-|Hx]; [exact H1 | now apply H2].
Qed.

Lemma argmax_from_first (l : list Z) (best : nat) (bestv : Z) (i : nat) :
  best < i ->
  let r := argmax_from best bestv i l in
  let m := fold_left Z.max l bestv in
  (forall j, j < length l -> i + j < r -> (nth j l 0 < m)%Z) /\
  (r <> best -> (bestv < m)%Z).
Proof.
  revert best bestv i. induction l as [|x l IH]; intros best bestv i Hb.
  - simpl. split; [intros; lia | congruence].
  - cbn [argmax_from fold_left length].
    destruct (Z.ltb_spec bestv x) as [Hlt|Hge].
    + rewrite (Z.max_r bestv x) by lia.
      destruct (IH i x (S i) ltac:(lia)) as [H1 H2].
      pose proof (proj1 (fold_left_max_ge l x)) as Hm. split.
      * intros [|j] Hj Hr; cbn [nth].
        -- apply H2. lia.
        -- apply H1; lia.
      * intros _. lia.
    + rewrite (Z.max_l bestv x) by lia.
      destruct (IH best bestv (S i) ltac:(lia)) as [H1 H2]. split.
      * intros [|j] Hj Hr; cbn [nth].
        -- assert (bestv < fold_left Z.max l bestv)%Z by (apply H2; lia).
           lia.
        -- apply H1; lia.
      * exact H2.
Qed.

(** [argmax] takes the first position of the maximum. *)
Lemma argmax_list_first (l : list Z) (j : nat) :
  j < argmax_list l -> (nth j l 0 < max_list l)%Z.
Proof.
  destruct l as [|x l]; [simpl; lia|]. cbn [argmax_list max_list].
  intros Hj.
  destruct (argmax_from_first l 0 x 1 ltac:(lia)) as [H1 H2].
  assert (argmax_from 0 x 1 l < S (length l)) as Hlt.
  { destruct (argmax_from_spec l 0 x 1) as [[-> _]|[Hr _]]; lia. }
  destruct j as [|j]; cbn [nth].
  - apply H2. lia.
  - apply H1; lia.
Qed.

Lemma feature_map_at (o : tensor) (h w e u y x : nat) :
  y < h -> x < w ->
  nth (y * w + x) (feature_map o h w e u) 0%Z = item o [e; u; y; x].
Proof.
  intros Hy Hx. rewrite feature_map_nth by nia.
  assert ((y * w + x) / w = y) as ->
    by (symmetry; apply (Nat.div_unique _ _ _ x); lia).
  assert ((y * w + x) mod w = x) as ->
    by (symmetry; apply (Nat.mod_unique _ _ y); lia).
  reflexivity.
Qed.

(** X14.  The reduction of a spatial batch (height and width not zero):
    [flatten], [argmax], [_apply_index] and [divmod] by the declared width
    give, for every example and unit, a (row, column) inside the feature map
    and the value of the map there; that value is the maximum of the map,
    and the location is the first one, row by row, that reaches it. *)
Theorem spatial_reduction (output : tensor) (b U h w : nat) :
  shape output = [b; U; h; w] -> 0 < h -> 0 < w ->
  exists fmax fargmax tmax,
    flatten output 3 = Some fmax /\
    argmax fmax 2 = Some fargmax /\
    _apply_index fmax fargmax 2 = Some tmax /\
    shape tmax = [b; U] /\
    forall e u, e < b -> u < U ->
      let targmax := tdivmod fargmax (Z.of_nat w) in
      exists row col,
        item (fst targmax) [e; u] = Z.of_nat row /\
        item (snd targmax) [e; u] = Z.of_nat col /\
        row < h /\ col < w /\
        item tmax [e; u] = item output [e; u; row; col] /\
        (forall y x, y < h -> x < w ->
           (item output [e; u; y; x] <= item tmax [e; u])%Z) /\
        (forall y x, y < h -> x < w -> y * w + x < row * w + col ->
           (item output [e; u; y; x] < item tmax [e; u])%Z).
Proof.
  intros Ho Hh Hw.
  destruct (flatten3_4d output b U h w Ho) as (fmax & Hfl & Hsf & Hif).
  assert (0 < h * w) as HK by nia.
  destruct (argmax2_3d fmax b U (h * w) Hsf HK) as (fargmax & Ham & Hsa & Hia).
  assert (forall e u, lane fmax 2 [e; u] = feature_map output h w e u) as Hlane.
  { intros e u. rewrite (lane2_3d fmax b U (h * w) e u Hsf).
    unfold feature_map. apply map_ext. intros k. apply Hif. }
  assert (forall e u, feature_map output h w e u <> []) as Hne
    by (intros; now apply feature_map_nonempty).
  assert (forall e u, argmax_list (feature_map output h w e u) < h * w)
    as Hklt.
  { intros e u. pose proof (argmax_list_lt _ (Hne e u)) as H.
    unfold feature_map in H at 2. now rewrite length_map, length_seq in H. }
  destruct (apply_index2_3d fmax fargmax b U (h * w) Hsf Hsa) as
    (tmax & Htm & Hst & Hit).
  { intros e u _ _. rewrite Hia, Hlane. specialize (Hklt e u). lia. }
  exists fmax, fargmax, tmax. repeat split; try assumption.
  intros e u He Hu targmax.
  set (k := argmax_list (feature_map output h w e u)).
  assert (item tmax [e; u] = max_list (feature_map output h w e u)) as Hmax.
  { rewrite (Hit e u He Hu), Hia, Hlane, Nat2Z.id, Hif. fold k.
    rewrite <- (argmax_list_max _ (Hne e u)). fold k.
    symmetry. apply feature_map_nth. apply Hklt. }
  exists (k / w), (k mod w). unfold targmax. cbn.
  rewrite Hia, Hlane. fold k.
  rewrite <- Nat2Z.inj_div, <- Nat2Z.inj_mod.
  split; [reflexivity|]. split; [reflexivity|].
  split; [apply Nat.Div0.div_lt_upper_bound; specialize (Hklt e u); fold k in Hklt; lia|].
  split; [apply Nat.mod_upper_bound; lia|].
  split; [|split].
  - rewrite (Hit e u He Hu), Hia, Hlane, Nat2Z.id, Hif. reflexivity.
  - intros y x Hy Hx. rewrite Hmax. apply max_list_ge.
    rewrite <- (feature_map_at output h w e u y x Hy Hx).
    apply nth_In. unfold feature_map. rewrite length_map, length_seq. nia.
  - intros y x Hy Hx Hbefore. rewrite Hmax.
    rewrite <- (feature_map_at output h w e u y x Hy Hx).
    apply argmax_list_first. fold k.
    pose proof (Nat.div_mod_eq k w). lia.
Qed.

Lemma spatial_reduction_witness :
  let output := of_list4 1 2 2 [[[[1; 9]; [9; 3]]]]%Z in
  exists fmax fargmax tmax,
    flatten output 3 = Some fmax /\
    argmax fmax 2 = Some fargmax /\
    _apply_index fmax fargmax 2 = Some tmax /\
    shape tmax = [1; 1] /\
    forall e u, e < 1 -> u < 1 ->
      let targmax := tdivmod fargmax (Z.of_nat 2) in
      exists row col,
        item (fst targmax) [e; u] = Z.of_nat row /\
        item (snd targmax) [e; u] = Z.of_nat col /\
        row < 2 /\ col < 2 /\
        item tmax [e; u] = item output [e; u; row; col] /\
        (forall y x, y < 2 -> x < 2 ->
           (item output [e; u; y; x] <= item tmax [e; u])%Z) /\
        (forall y x, y < 2 -> x < 2 -> y * 2 + x < row * 2 + col ->
           (item output [e; u; y; x] < item tmax [e; u])%Z).
Proof.
  apply (spatial_reduction (of_list4 1 2 2 [[[[1; 9]; [9; 3]]]]%Z) 1 1 2 2
           eq_refl); lia.
Defined.

(** ** The snapshots of a spatial record *)

Lemma update_spatial_snapshot (output : tensor) (r : stat_record) (pos : Z)
    (N U b h w : nat) (snap : tensor) :
  dims r = [Z.of_nat U; Z.of_nat h; Z.of_nat w] ->
  snapshot r = Some snap -> shape snap = [N; U; h; w] ->
  shape output = [b; U; h; w] -> 0 < h -> 0 < w ->
  shape (maximums r) = [N; U] -> shape (indices r) = [N; U; 3] ->
  exists tmax tind newmax newind newsnap,
    _create_maximum_activation_update output r pos (Z.of_nat N)
    = Some (newmax, newind, Some newsnap) /\
    shape tmax = [b; U] /\
    (forall e u, e < b -> u < U ->
       let k := argmax_list (feature_map output h w e u) in
       item tmax [e; u] = item output [e; u; k / w; k mod w] /\
       item tind [e; u; 1] = Z.of_nat (k / w) /\
       item tind [e; u; 2] = Z.of_nat (k mod w)) /\
    forall i u, i < N -> u < U ->
      let p := rank (maximums r) tmax u i in
      p < N + b /\
      item newmax [i; u] = pick (maximums r) tmax N p [u] /\
      (forall k, k < 3 ->
         item newind [i; u; k] = pick (indices r) tind N p [u; k]) /\
      (forall y x, y < h -> x < w ->
         item newsnap [i; u; y; x] = pick snap output N p [u; y; x]).
Proof.
  intros Hd Hsnap Hss Ho Hh Hw Hm Hi.
  destruct (flatten3_4d output b U h w Ho) as (fmax & Hfl & Hsf & Hif).
  assert (0 < h * w) as HK by nia.
  destruct (argmax2_3d fmax b U (h * w) Hsf HK) as (fargmax & Ham & Hsa & Hia).
  assert (forall e u, lane fmax 2 [e; u] = feature_map output h w e u) as Hlane.
  { intros e u. rewrite (lane2_3d fmax b U (h * w) e u Hsf).
    unfold feature_map. apply map_ext. intros k. apply Hif. }
  assert (forall e u, argmax_list (feature_map output h w e u) < h * w)
    as Hklt.
  { intros e u.
    pose proof (argmax_list_lt (feature_map output h w e u)
                  (feature_map_nonempty output h w e u Hh Hw)) as H.
    unfold feature_map in H at 2. now rewrite length_map, length_seq in H. }
  destruct (apply_index2_3d fmax fargmax b U (h * w) Hsf Hsa) as
    (tmax & Htm & Hst & Hit).
  { intros e u _ _. rewrite Hia, Hlane. specialize (Hklt e u). lia. }
  set (targmax := tdivmod fargmax (Z.of_nat w)).
  destruct (stack3_2d (counters_of b U pos) (fst targmax) (snd targmax) b U
              (counters_shape b U pos) Hsa Hsa) as (tind & Hti & Hsti & Hiti).
  destruct (merge_gather (maximums r) tmax (maximums r) tmax N U b []
              Hm Hst Hm Hst ltac:(simpl; lia))
    as (cmax & cmax' & newmax & Hc1 & Hc1' & Hnm & Hsm & Hqm).
  destruct (merge_gather (maximums r) tmax (indices r) tind N U b [3]
              Hm Hst Hi Hsti ltac:(simpl; lia))
    as (cmax2 & cind & newind & Hc2 & Hci & Hni & Hsi & Hqi).
  destruct (merge_gather (maximums r) tmax snap output N U b [h; w]
              Hm Hst Hss Ho ltac:(simpl; lia))
    as (cmax3 & csnap & newsnap & Hc3 & Hcs & Hns & Hsn & Hqs).
  rewrite Hc1 in Hc2, Hc1', Hc3.
  injection Hc2 as <-. injection Hc1' as <-. injection Hc3 as <-.
  exists tmax, tind, newmax, newind, newsnap.
  split; [|split; [exact Hst|split]].
  - unfold _create_maximum_activation_update.
    rewrite Ho, Hd, Hsnap. cbn [nth_error bind Nat.eqb length fst snd].
    fold (counters_of b U pos).
    rewrite Hfl. cbn [bind]. rewrite Ham. cbn [bind].
    rewrite Htm. cbn [bind]. fold targmax. rewrite Hti. cbn [bind fst snd].
    rewrite Hc1. cbn [bind]. rewrite Hci. cbn [bind].
    rewrite Hnm. cbn [bind]. rewrite Hni. cbn [bind].
    rewrite Hcs. cbn [bind]. rewrite Hns. reflexivity.
  - intros e u He Hu k. destruct (Hiti e u) as (_ & H1 & H2).
    rewrite H1, H2. rewrite (Hit e u He Hu), Hia, Hlane, Nat2Z.id, Hif.
    fold k. unfold targmax. cbn. rewrite Hia, Hlane. fold k.
    rewrite <- Nat2Z.inj_div, <- Nat2Z.inj_mod. auto.
  - intros i u Hi' Hu p. split.
    { apply (rank_lt (maximums r) tmax N U b); auto. lia. }
    split; [apply Hqm; auto|]. split.
    + intros k Hk. apply Hqi; auto.
    + intros y x Hy Hx. apply (Hqs i u [y; x]); auto.
Qed.

Lemma snapshot_step (N U b h w : nat) (r : stat_record) (o : tensor) (pos : Z)
    (upd : tensor * tensor * option tensor) :
  dims r = [Z.of_nat U; Z.of_nat h; Z.of_nat w] -> 0 < h -> 0 < w ->
  shape (maximums r) = [N; U] -> shape (indices r) = [N; U; 3] ->
  (forall snap, snapshot r = Some snap -> shape snap = [N; U; h; w]) ->
  shape o = [b; U; h; w] ->
  snapshot_ok N U h w r ->
  _create_maximum_activation_update o r pos (Z.of_nat N) = Some upd ->
  snapshot_ok N U h w (apply_updates r upd).
Proof.
  intros Hd Hh Hw Hm Hi Hshape Ho (snap & Hsnap & Hok) Hup.
  destruct (update_spatial_snapshot o r pos N U b h w snap Hd Hsnap
              (Hshape snap Hsnap) Ho Hh Hw Hm Hi)
    as (tmax & tind & newmax & newind & newsnap & Hup' & Hst & Hc & Hnew).
  rewrite Hup in Hup'. injection Hup' as ->.
  exists newsnap. split; [reflexivity|].
  cbn [apply_updates maximums indices]. intros i u Hi' Hu.
  destruct (Hnew i u Hi' Hu) as (Hp & Hq & Hind & Hsn).
  set (p := rank (maximums r) tmax u i) in *.
  rewrite Hq, !Hind by lia. unfold pick in *.
  destruct (Nat.ltb_spec p N) as [Hlt|Hge].
  - destruct (Hok p u Hlt Hu) as (row & col & H1 & H2 & Hr & Hcl & Hv & Hle).
    exists row, col. repeat split; auto.
    + rewrite Hsn by assumption. exact Hv.
    + intros y x Hy Hx. rewrite Hsn by assumption. now apply Hle.
  - destruct (Hc (p - N) u ltac:(lia) Hu) as (H1 & H2 & H3).
    set (k := argmax_list (feature_map o h w (p - N) u)) in *.
    assert (feature_map o h w (p - N) u <> []) as Hne
      by (now apply feature_map_nonempty).
    assert (k < h * w) as Hk.
    { pose proof (argmax_list_lt _ Hne) as H. fold k in H.
      unfold feature_map in H. now rewrite length_map, length_seq in H. }
    exists (k / w), (k mod w). repeat split; auto.
    + apply Nat.Div0.div_lt_upper_bound. lia.
    + apply Nat.mod_upper_bound. lia.
    + rewrite Hsn.
      * now rewrite H1.
      * apply Nat.Div0.div_lt_upper_bound. lia.
      * apply Nat.mod_upper_bound. lia.
    + intros y x Hy Hx. rewrite Hsn by assumption. rewrite H1.
      rewrite <- (feature_map_nth o h w (p - N) u k Hk). fold k.
      unfold k at 1. rewrite (argmax_list_max _ Hne).
      apply max_list_ge.
      rewrite <- (feature_map_at o h w (p - N) u y x Hy Hx).
      apply nth_In. unfold feature_map. rewrite length_map, length_seq. nia.
Qed.

Lemma mapM_nth_error {A B : Type} (f : A -> option B) (l : list A)
    (lb : list B) (k : nat) (b : B) :
  mapM f l = Some lb -> nth_error lb k = Some b ->
  exists a, nth_error l k = Some a /\ f a = Some b.
Proof.
  revert lb k. induction l as [|a l IH]; intros lb k H Hk; simpl in H.
  - injection H as <-. destruct k; discriminate.
  - apply bind_some in H as (b' & Hb & H).
    apply bind_some in H as (bs & Hbs & H). injection H as <-.
    destruct k as [|k]; simpl in *.
    + injection Hk as <-. eauto.
    + eapply IH; eassumption.
Qed.

Lemma process_batches_app (c : MaximumActivationSearch)
    (l1 l2 : list (list tensor)) :
  process_batches c (l1 ++ l2)
  = (c' <- process_batches c l1 ;; process_batches c' l2).
Proof.
  revert c. induction l1 as [|outs l1 IH]; intros c; simpl; [reflexivity|].
  destruct (process_batch c outs) as [c1|]; simpl; [apply IH | reflexivity].
Qed.

(** A property of records that holds at allocation and that every update
    preserves holds in every state reached from construction. *)
Lemma run_invariant (P : dims_arg -> stat_record -> Prop) (N : nat)
    (ds : list dims_arg) :
  (forall d r, dims_ok d ->
     _create_maximum_activation_for (Z.of_nat N) d = Some r -> P d r) ->
  (forall d r o b pos upd,
     dims_ok d -> record_shape N d r -> P d r -> batch_shape b d o ->
     _create_maximum_activation_update o r pos (Z.of_nat N) = Some upd ->
     P d (apply_updates r upd)) ->
  ds <> [] -> Forall dims_ok ds ->
  forall batches,
    Forall (step_ok ds) batches -> (position batches < 2 ^ 63)%Z ->
    exists c0 c,
      MaximumActivationSearch_init ds (Z.of_nat N) = Some c0 /\
      process_batches c0 batches = Some c /\
      forall k d r,
        nth_error ds k = Some d ->
        nth_error (maximum_activations c) k = Some r -> P d r.
Proof.
  intros Hinit Hstep Hne Hok batches.
  induction batches as [|outs batches IH] using rev_ind; intros Hb Hmax.
  - destruct (init_spec N ds Hne Hok) as (c0 & Hc0 & _).
    exists c0, c0. split; [exact Hc0|]. split; [reflexivity|].
    intros k d r Hd Hr. unfold MaximumActivationSearch_init in Hc0.
    apply bind_some in Hc0 as (recs & Hm & Hc0).
    apply bind_some in Hc0 as (? & _ & Hc0). injection Hc0 as <-.
    cbn [maximum_activations] in Hr.
    destruct (mapM_nth_error _ _ _ _ _ Hm Hr) as (d' & Hd' & Hcr).
    rewrite Hd in Hd'. injection Hd' as <-.
    apply Hinit; [|exact Hcr].
    rewrite Forall_forall in Hok. apply Hok.
    eapply nth_error_In; eassumption.
  - apply Forall_app in Hb as [Hb Houts].
    inversion Houts as [|? ? Hz _]; subst.
    destruct IH as (c0 & c & Hc0 & Hc & HP); [exact Hb| |].
    { rewrite position_app in Hmax. pose proof (position_nonneg [outs]).
      lia. }
    destruct (reachable_step N ds batches outs Hne Hok Hb Hz Hmax)
      as (c0' & c1 & c' & Hc0' & Hc1 & Hc' & _ & _ & Hst).
    rewrite Hc0 in Hc0'. injection Hc0' as <-.
    rewrite Hc in Hc1. injection Hc1 as <-.
    exists c0, c'. split; [exact Hc0|]. split.
    + rewrite process_batches_app, Hc. cbn [bind process_batches].
      now rewrite Hc'.
    + intros k d r' Hd Hr'.
      destruct (Hst k d r' Hd Hr')
        as (r & o & b & upd & Hr & Ho & Hbs & Hdok & (Hshape & _) & Hup & ->).
      apply (Hstep d r o b (streamindex c) upd); auto.
      now apply (HP k).
Qed.

(** X15.  The snapshots follow the slots.  In every state reached from
    construction, every slot of a spatial record has its recorded (row,
    column) inside the feature map, its quantity is the value of its
    snapshot at that location, and it is the maximum of the snapshot (the
    zero entries of the initial record with their all-zero snapshot
    included). *)
Theorem snapshot_matches_slots (N : nat) (ds : list dims_arg)
    (batches : list (list tensor)) :
  ds <> [] -> Forall dims_ok ds -> Forall (step_ok ds) batches ->
  (position batches < 2 ^ 63)%Z ->
  exists c0 c,
    MaximumActivationSearch_init ds (Z.of_nat N) = Some c0 /\
    process_batches c0 batches = Some c /\
    forall k u0 h0 w0 r,
      nth_error ds k = Some (DimsTuple [u0; h0; w0]) ->
      nth_error (maximum_activations c) k = Some r ->
      snapshot_ok N (Z.to_nat u0) (Z.to_nat h0) (Z.to_nat w0) r.
Proof.
  intros Hne Hok Hb Hmax.
  destruct (run_invariant
              (fun d r =>
                 match d with
                 | DimsTuple [u0; h0; w0] =>
                     snapshot_ok N (Z.to_nat u0) (Z.to_nat h0) (Z.to_nat w0) r
                 | _ => True
                 end) N ds) with (batches := batches)
    as (c0 & c & Hc0 & Hc & HP); auto.
  - intros d r Hd Hcr.
    destruct d as [n|[|u0 [|h0 [|w0 [|? ?]]]]]; try exact I.
    destruct Hd as (Hu0 & Hh0 & Hw0).
    destruct (create_some (Z.of_nat N) (DimsTuple [u0; h0; w0]))
      as (r' & Hcr' & [_ Hsh] & [Hzq Hzi] & Hzs).
    { split; [lia|]. split; [discriminate|]. repeat constructor; lia. }
    rewrite Hcr in Hcr'. injection Hcr' as <-.
    destruct Hsh as (_ & _ & snap & Hsnap & _).
    exists snap. split; [exact Hsnap|]. intros i u _ _.
    exists 0, 0. rewrite !Hzi, Hzq, (Hzs snap _ Hsnap).
    repeat split; try lia. intros y x _ _. rewrite (Hzs snap _ Hsnap). lia.
  - intros d r o b pos upd Hd Hrs HPr Hbs Hup.
    destruct d as [n|[|u0 [|h0 [|w0 [|? ?]]]]]; try exact I.
    destruct Hd as (Hu0 & Hh0 & Hw0).
    destruct Hrs as (Hm & Hdims & Hi & snap & Hsnap & Hss).
    apply (snapshot_step N (Z.to_nat u0) b (Z.to_nat h0) (Z.to_nat w0)
             r o pos upd); auto; try lia.
    + rewrite Hdims, !Z2Nat.id by lia. reflexivity.
    + intros snap' Hsnap'. rewrite Hsnap in Hsnap'. injection Hsnap' as <-.
      exact Hss.
  - exists c0, c. split; [exact Hc0|]. split; [exact Hc|].
    intros k u0 h0 w0 r Hd Hr. apply (HP k _ r Hd Hr).
Qed.

Lemma snapshot_matches_slots_witness :
  exists c0 c,
    MaximumActivationSearch_init [DimsTuple [1; 2; 2]%Z] (Z.of_nat 1)
    = Some c0 /\
    process_batches c0 [[of_list4 1 2 2 [[[[1; 9]; [2; 3]]]]%Z]] = Some c /\
    forall k u0 h0 w0 r,
      nth_error [DimsTuple [1; 2; 2]%Z] k = Some (DimsTuple [u0; h0; w0]) ->
      nth_error (maximum_activations c) k = Some r ->
      snapshot_ok 1 (Z.to_nat u0) (Z.to_nat h0) (Z.to_nat w0) r.
Proof.
  apply (snapshot_matches_slots 1 [DimsTuple [1; 2; 2]%Z]
           [[of_list4 1 2 2 [[[[1; 9]; [2; 3]]]]%Z]]).
  - discriminate.
  - repeat constructor; simpl; lia.
  - repeat constructor. exists 1. repeat constructor.
  - vm_compute. reflexivity.
Defined.

(** ** A step does not compare the batch sizes of its outputs *)

Lemma Forall2_of_nth_error {A B : Type} (P : A -> B -> Prop) (la : list A)
    (lb : list B) :
  length la = length lb ->
  (forall k a b, nth_error la k = Some a -> nth_error lb k = Some b -> P a b) ->
  Forall2 P la lb.
Proof.
  revert lb. induction la as [|a la IH]; intros [|b lb] Hlen H;
    simpl in Hlen; try discriminate; constructor.
  - apply (H 0); reflexivity.
  - apply IH; [lia|]. intros k a' b' Ha Hb. apply (H (S k)); assumption.
Qed.

(** X16.  A step only needs every batch to have the shape declared for its
    output; the batch sizes of different outputs are not compared.  The
    step then returns, every record keeps the shapes of its buffers, and
    the stream position advances (in [int64]) by the batch size of the
    first output alone. *)
Theorem step_uses_first_batch_size (N : nat) (ds : list dims_arg)
    (c : MaximumActivationSearch) (outs : list tensor) :
  ds <> [] -> Forall dims_ok ds ->
  topn c = Z.of_nat N ->
  Forall2 (record_shape N) ds (maximum_activations c) ->
  Forall2 (fun d o => exists b, batch_shape b d o) ds outs ->
  exists c',
    process_batch c outs = Some c' /\
    topn c' = topn c /\
    streamindex c'
    = wrap64 (streamindex c + Z.of_nat (batch_size outs)) /\
    Forall2 (record_shape N) ds (maximum_activations c').
Proof.
  intros Hne Hok Htopn Hrecs Houts.
  pose proof (Forall2_length Hrecs) as Hlr.
  pose proof (Forall2_length Houts) as Hlo.
  set (f := fun o r =>
              u <- _create_maximum_activation_update
                     o r (streamindex c) (topn c) ;;
              Some (apply_updates r u)).
  assert (forall k o r, nth_error outs k = Some o ->
            nth_error (maximum_activations c) k = Some r ->
            exists d upd, nth_error ds k = Some d /\
              _create_maximum_activation_update
                o r (streamindex c) (topn c) = Some upd /\
              record_shape N d (apply_updates r upd)) as Hstep.
  { intros k o r Ho Hr.
    destruct (nth_error_lt_some ds k) as (d & Hd).
    { rewrite Hlo. eapply nth_error_some_lt; eassumption. }
    pose proof (Forall2_nth_error _ _ _ Hrecs k d r Hd Hr) as Hsh.
    destruct (Forall2_nth_error _ _ _ Houts k d o Hd Ho) as [b Hb].
    assert (dims_ok d) as Hdok.
    { rewrite Forall_forall in Hok. apply Hok.
      eapply nth_error_In; eassumption. }
    destruct (update_spec d N b r o (streamindex c) Hdok Hsh Hb)
      as (? & ? & newmax & newind & newsnap & Hup & Hsh' & _).
    exists d, (newmax, newind, newsnap). rewrite Htopn. auto. }
  destruct (zipM_some f outs (maximum_activations c)) as (recs & Hz).
  { lia. }
  { intros k o r Ho Hr. destruct (Hstep k o r Ho Hr) as (d & upd & _ & Hu & _).
    exists (apply_updates r upd). unfold f. now rewrite Hu. }
  destruct ds as [|d0 ds']; [contradiction|].
  inversion Houts as [|? o0 ? outs' [b0 Hb0] Hrest]; subst.
  assert (nth_error (shape o0) 0 = Some b0) as Hsb
    by (destruct d0; simpl in Hb0; now rewrite Hb0).
  eexists. split.
  - unfold process_batch. fold f. rewrite Hz. cbn [bind].
    change (nth_error (o0 :: outs') 0) with (Some o0). cbn [bind].
    rewrite Hsb. cbn [bind]. reflexivity.
  - split; [reflexivity|]. split; cbn.
    + unfold batch_size. cbn [nth].
      now rewrite (batch_shape_dim0 b0 d0 o0 Hb0).
    + destruct (zipM_length _ _ _ _ Hz) as [_ Hlen].
      apply Forall2_of_nth_error; [lia|].
      intros k d r' Hd Hr'.
      destruct (zipM_nth_error _ _ _ _ _ _ Hz Hr') as (o & r & Ho & Hr & Hf).
      destruct (Hstep k o r Ho Hr) as (d' & upd & Hd' & Hu & Hsh').
      rewrite Hd in Hd'. injection Hd' as <-.
      unfold f in Hf. rewrite Hu in Hf. injection Hf as <-. exact Hsh'.
Qed.

Lemma step_uses_first_batch_size_witness :
  let c := Controller 2 0 [record_5_1; record_5_1] in
  let outs := [of_list2 1 [[3%Z]]; of_list2 1 [[4%Z]; [6%Z]; [8%Z]]] in
  exists c',
    process_batch c outs = Some c' /\
    topn c' = topn c /\
    streamindex c' = wrap64 (streamindex c + Z.of_nat (batch_size outs)) /\
    Forall2 (record_shape 2) [DimsInt 1; DimsInt 1] (maximum_activations c').
Proof.
  apply (step_uses_first_batch_size 2 [DimsInt 1; DimsInt 1]
           (Controller 2 0 [record_5_1; record_5_1])
           [of_list2 1 [[3%Z]]; of_list2 1 [[4%Z]; [6%Z]; [8%Z]]]).
  - discriminate.
  - repeat constructor; simpl; lia.
  - reflexivity.
  - repeat constructor.
  - repeat constructor; [exists 1 | exists 3]; reflexivity.
Defined.

(** * The update for every sort kind

    The ranking of line 119 is computed by [argsort] with its default kind.
    This part states what the update does for every routine that sorts,
    and what then depends on the order of equal keys. *)

(** ** Routines that sort *)

Lemma StronglySorted_of_nth {A : Type} (R : A -> A -> Prop) (l : list A)
    (d : A) :
  (forall i j, i < j -> j < length l -> R (nth i l d) (nth j l d)) ->
  StronglySorted R l.
Proof.
  induction l as [|a l IH]; intros H; constructor.
  - apply IH. intros i j Hij Hj. apply (H (S i) (S j)); simpl; lia.
  - apply Forall_forall. intros x Hx.
    destruct (In_nth l x d Hx) as (j & Hj & <-).
    apply (H 0 (S j)); simpl; lia.
Qed.


(** Two rankings of the same positions by a strict order are equal. *)
Lemma strict_ranking_unique (R : nat -> nat -> Prop) (l l' : list nat) :
  (forall a b, R a b -> R b a -> False) ->
  Permutation l l' -> StronglySorted R l -> StronglySorted R l' -> l = l'.
Proof.
  intros Hasym. revert l'. induction l as [|a l IH]; intros l' Hp Hs Hs'.
  - apply Permutation_nil in Hp. now subst.
  - destruct l' as [|a' l'].
    + symmetry in Hp. apply Permutation_nil in Hp. discriminate.
    + inversion Hs as [|? ? Hsl Ha]; subst.
      inversion Hs' as [|? ? Hsl' Ha']; subst.
      rewrite Forall_forall in Ha, Ha'.
      assert (a = a') as <-.
      { assert (In a (a' :: l')) as H1
          by (eapply Permutation_in; [exact Hp | now left]).
        assert (In a' (a :: l)) as H2
          by (eapply Permutation_in; [symmetry; exact Hp | now left]).
        destruct H1 as [H1|H1]; [now symmetry|].
        destruct H2 as [H2|H2]; [assumption|].
        exfalso. apply (Hasym a a'); [apply Ha | apply Ha']; assumption. }
      f_equal. apply IH; try assumption.
      eapply Permutation_cons_inv. exact Hp.
Qed.

Lemma insert_first_perm (key : nat -> Z) (i : nat) (l : list nat) :
  Permutation (i :: l) (insert_first key i l).
Proof.
  induction l as [|j l IH]; simpl; [reflexivity|].
  destruct (key i <=? key j)%Z; [reflexivity|].
  rewrite perm_swap. now constructor.
Qed.

Lemma insert_first_sorted (key : nat -> Z) (i : nat) (l : list nat) :
  StronglySorted (fun a b => (key a <= key b)%Z) l ->
  StronglySorted (fun a b => (key a <= key b)%Z) (insert_first key i l).
Proof.
  induction l as [|j l IH]; simpl; intros Hs.
  - repeat constructor.
  - inversion Hs as [|? ? Hs' Hj]; subst.
    destruct (key i <=? key j)%Z eqn:E.
    + apply Z.leb_le in E. constructor; [assumption|].
      constructor; [assumption|].
      eapply Forall_impl; [|exact Hj]. intros k Hk. simpl in Hk. lia.
    + apply Z.leb_gt in E. constructor; [auto|].
      eapply Permutation_Forall; [apply insert_first_perm|].
      constructor; [lia | assumption].
Qed.

Lemma fold_insert_first_spec (key : nat -> Z) (k a : nat) (acc : list nat) :
  Permutation (seq 0 a) acc ->
  StronglySorted (fun a b => (key a <= key b)%Z) acc ->
  let r := fold_left (fun acc i => insert_first key i acc) (seq a k) acc in
  Permutation (seq 0 (a + k)) r /\
  StronglySorted (fun a b => (key a <= key b)%Z) r.
Proof.
  revert a acc. induction k as [|k IH]; intros a acc Hp Hs; simpl.
  - rewrite Nat.add_0_r. auto.
  - replace (a + S k) with (S a + k) by lia.
    apply IH.
    + rewrite seq_S. simpl.
      rewrite <- insert_first_perm.
      rewrite Permutation_app_comm. simpl. now constructor.
    + now apply insert_first_sorted.
Qed.

(** The stable routine of the model sorts. *)
Lemma argsort_list_sorts : sorts argsort_list.
Proof.
  intros keys. destruct (argsort_list_spec keys) as [Hp Hs].
  split; [exact Hp|]. intros i j Hij Hj.
  destruct (Nat.eq_dec i j) as [->|Hne]; [lia|].
  pose proof (argsort_list_before keys i j ltac:(lia) Hj) as Hb.
  unfold before in Hb. lia.
Qed.

(** So does the routine that reverses equal keys. *)
Lemma argsort_list_unstable_sorts : sorts argsort_list_unstable.
Proof.
  intros keys.
  destruct (fold_insert_first_spec (key_of keys) (length keys) 0 [])
    as [Hp Hs]; [constructor | constructor |].
  change (fold_left _ _ _) with (argsort_list_unstable keys) in Hp, Hs.
  split; [exact Hp|]. intros i j Hij Hj.
  destruct (Nat.eq_dec i j) as [->|Hne]; [lia|].
  apply (StronglySorted_nth _ _ 0 Hs i j); [lia|].
  apply Permutation_length in Hp. rewrite length_seq in Hp. lia.
Qed.

Section SortKind.

Variable s : sorter.
Hypothesis Hs : sorts s.

Lemma sorts_length (keys : list Z) : length (s keys) = length keys.
Proof.
  destruct (Hs keys) as [Hp _].
  apply Permutation_length in Hp. now rewrite length_seq in Hp.
Qed.

Lemma sorts_lt (keys : list Z) (i : nat) :
  i < length keys -> nth i (s keys) 0 < length keys.
Proof.
  intros Hi. destruct (Hs keys) as [Hp _].
  assert (In (nth i (s keys) 0) (seq 0 (length keys))) as Hin.
  { eapply Permutation_in; [symmetry; exact Hp|].
    apply nth_In. now rewrite sorts_length. }
  apply in_seq in Hin. lia.
Qed.

(** The ranking of the update: [(-cmax).argsort(axis=0)[:topn]]. *)
Lemma cargsort_with_spec (cmax : tensor) (M U N : nat) :
  shape cmax = [M; U] -> N <= M ->
  let cargsort := slice_to (argsort_with s (neg cmax) 0) (Z.of_nat N) in
  shape cargsort = [N; U] /\
  forall i u,
    item cargsort [i; u]
    = Z.of_nat (nth i (s (map Z.opp (column cmax u))) 0).
Proof.
  intros Hc HN. cbn. unfold slice_to. cbn. rewrite Hc.
  destruct (Z.ltb_spec (Z.of_nat N) 0); [lia|]. cbn. split.
  - rewrite Nat2Z.id. now rewrite Nat.min_l.
  - intros i u. unfold column, lane, dim. cbn. rewrite Hc.
    now rewrite map_map.
Qed.

Lemma rank_with_lt (maximums tmax : tensor) (N U b u i : nat) :
  shape maximums = [N; U] -> shape tmax = [b; U] ->
  i < N + b -> rank_with s maximums tmax u i < N + b.
Proof.
  intros Hm Ht Hi. unfold rank_with.
  pose proof (candidates_length maximums tmax N U b u Hm Ht) as Hlen.
  pose proof (sorts_lt _ i ltac:(rewrite Hlen; exact Hi)) as H.
  now rewrite Hlen in H.
Qed.

Lemma merge_gather_with (maximums tmax old new : tensor) (N U b : nat)
    (R : list nat) :
  shape maximums = [N; U] -> shape tmax = [b; U] ->
  shape old = N :: U :: R -> shape new = b :: U :: R ->
  length R <= 2 ->
  exists cmax cdata t,
    concatenate0 maximums tmax = Some cmax /\
    concatenate0 old new = Some cdata /\
    _apply_perm cdata (slice_to (argsort_with s (neg cmax) 0) (Z.of_nat N)) 0
    = Some t /\
    shape t = N :: U :: R /\
    forall i u r, i < N -> u < U -> Forall2 lt r R ->
      item t (i :: u :: r)
      = pick old new N (rank_with s maximums tmax u i) (u :: r).
Proof.
  intros Hm Ht Ho Hn HR.
  pose proof (concatenate0_some maximums tmax N b [U] Hm Ht) as Hcmax.
  pose proof (concatenate0_some old new N b (U :: R) Ho Hn) as Hcdata.
  match type of Hcmax with _ = Some ?c => set (cmax := c) in * end.
  match type of Hcdata with _ = Some ?c => set (cdata := c) in * end.
  assert (shape cmax = [N + b; U]) as Hsc by reflexivity.
  destruct (cargsort_with_spec cmax (N + b) U N Hsc ltac:(lia)) as [Hcs Hci].
  set (cargsort := slice_to (argsort_with s (neg cmax) 0) (Z.of_nat N)) in *.
  assert (forall u, column cmax u = column maximums u ++ column tmax u)
    as Hcol.
  { intros u. eapply column_concatenate0; eassumption. }
  assert (forall i u, item cargsort [i; u]
                      = Z.of_nat (rank_with s maximums tmax u i)) as Hrank.
  { intros i u. rewrite Hci. unfold rank_with. now rewrite Hcol. }
  assert (forall i u, i < N -> u < U ->
            (0 <= item cargsort [i; u] < Z.of_nat (N + b))%Z) as Hrange.
  { intros i u Hi Hu. rewrite Hrank.
    pose proof (rank_with_lt maximums tmax N U b u i Hm Ht ltac:(lia)). lia. }
  exists cmax, cdata.
  destruct R as [|K [|W [|? ?]]]; [| | |simpl in HR; lia].
  - destruct (apply_perm0_2d cdata cargsort (N + b) U N eq_refl Hcs Hrange)
      as (t & Ht' & Hst & Hit).
    exists t. repeat split; try assumption.
    intros i u r Hi Hu Hr. inversion Hr; subst.
    rewrite Hit, Hrank, Nat2Z.id by assumption. reflexivity.
  - destruct (apply_perm0_3d cdata cargsort (N + b) U K N eq_refl Hcs Hrange)
      as (t & Ht' & Hst & Hit).
    exists t. repeat split; try assumption.
    intros i u r Hi Hu Hr. inv_index Hr.
    rewrite Hit, Hrank, Nat2Z.id by assumption. reflexivity.
  - destruct (apply_perm0_4d cdata cargsort (N + b) U K W N eq_refl Hcs
                Hrange) as (t & Ht' & Hst & Hit).
    exists t. repeat split; try assumption.
    intros i u r Hi Hu Hr. inv_index Hr.
    rewrite Hit, Hrank, Nat2Z.id by assumption. reflexivity.
Qed.

Lemma update_with_dense (output : tensor) (r : stat_record) (pos : Z)
    (N U b : nat) :
  length (dims r) = 1 -> snapshot r = None ->
  shape output = [b; U] ->
  shape (maximums r) = [N; U] -> shape (indices r) = [N; U] ->
  exists newmax newind,
    _create_maximum_activation_update_with s output r pos (Z.of_nat N)
    = Some (newmax, newind, None) /\
    shape newmax = [N; U] /\ shape newind = [N; U] /\
    forall i u, i < N -> u < U ->
      item newmax [i; u]
      = pick (maximums r) output N (rank_with s (maximums r) output u i) [u] /\
      item newind [i; u]
      = pick (indices r) (counters_of b U pos) N
             (rank_with s (maximums r) output u i) [u].
Proof.
  intros Hd Hsnap Ho Hm Hi.
  destruct (merge_gather_with (maximums r) output (maximums r) output N U b []
              Hm Ho Hm Ho ltac:(simpl; lia))
    as (cmax & cmax' & newmax & Hc1 & Hc1' & Hnm & Hsm & Hqm).
  destruct (merge_gather_with (maximums r) output (indices r)
              (counters_of b U pos) N U b []
              Hm Ho Hi (counters_shape b U pos) ltac:(simpl; lia))
    as (cmax2 & cind & newind & Hc2 & Hci & Hni & Hsi & Hqi).
  rewrite Hc1 in Hc2, Hc1'. injection Hc2 as <-. injection Hc1' as <-.
  exists newmax, newind. split; [|split; [|split]]; try assumption.
  - unfold _create_maximum_activation_update_with.
    rewrite Ho, Hd, Hsnap. cbn [nth_error bind Nat.eqb fst snd].
    fold (counters_of b U pos).
    rewrite Hc1. cbn [bind]. rewrite Hci. cbn [bind].
    rewrite Hnm. cbn [bind]. rewrite Hni. reflexivity.
  - intros i u Hi' Hu. split; [apply Hqm | apply Hqi]; auto.
Qed.

Lemma update_with_spatial (output : tensor) (r : stat_record) (pos : Z)
    (N U b h w : nat) (snap : tensor) :
  dims r = [Z.of_nat U; Z.of_nat h; Z.of_nat w] ->
  snapshot r = Some snap -> shape snap = [N; U; h; w] ->
  shape output = [b; U; h; w] -> 0 < h -> 0 < w ->
  shape (maximums r) = [N; U] -> shape (indices r) = [N; U; 3] ->
  exists tmax tind newmax newind newsnap,
    _create_maximum_activation_update_with s output r pos (Z.of_nat N)
    = Some (newmax, newind, Some newsnap) /\
    shape tmax = [b; U] /\ shape tind = [b; U; 3] /\
    (forall e u, e < b -> u < U ->
       let k := argmax_list (feature_map output h w e u) in
       item tmax [e; u] = item output [e; u; k / w; k mod w] /\
       item tind [e; u; 0] = wrap64 (Z.of_nat e + pos) /\
       item tind [e; u; 1] = Z.of_nat (k / w) /\
       item tind [e; u; 2] = Z.of_nat (k mod w)) /\
    shape newmax = [N; U] /\ shape newind = [N; U; 3] /\
    shape newsnap = [N; U; h; w] /\
    forall i u, i < N -> u < U ->
      item newmax [i; u]
      = pick (maximums r) tmax N (rank_with s (maximums r) tmax u i) [u] /\
      forall k, k < 3 ->
        item newind [i; u; k]
        = pick (indices r) tind N (rank_with s (maximums r) tmax u i) [u; k].
Proof.
  intros Hd Hsnap Hss Ho Hh Hw Hm Hi.
  destruct (flatten3_4d output b U h w Ho) as (fmax & Hfl & Hsf & Hif).
  assert (0 < h * w) as HK by nia.
  destruct (argmax2_3d fmax b U (h * w) Hsf HK) as (fargmax & Ham & Hsa & Hia).
  assert (forall e u, lane fmax 2 [e; u] = feature_map output h w e u) as Hlane.
  { intros e u. rewrite (lane2_3d fmax b U (h * w) e u Hsf).
    unfold feature_map. apply map_ext. intros k. apply Hif. }
  assert (forall e u, argmax_list (feature_map output h w e u) < h * w)
    as Hklt.
  { intros e u.
    pose proof (argmax_list_lt (feature_map output h w e u)
                  (feature_map_nonempty output h w e u Hh Hw)) as H.
    unfold feature_map in H at 2. now rewrite length_map, length_seq in H. }
  destruct (apply_index2_3d fmax fargmax b U (h * w) Hsf Hsa) as
    (tmax & Htm & Hst & Hit).
  { intros e u _ _. rewrite Hia, Hlane. specialize (Hklt e u). lia. }
  set (targmax := tdivmod fargmax (Z.of_nat w)).
  destruct (stack3_2d (counters_of b U pos) (fst targmax) (snd targmax) b U
              (counters_shape b U pos) Hsa Hsa) as (tind & Hti & Hsti & Hiti).
  destruct (merge_gather_with (maximums r) tmax (maximums r) tmax N U b []
              Hm Hst Hm Hst ltac:(simpl; lia))
    as (cmax & cmax' & newmax & Hc1 & Hc1' & Hnm & Hsm & Hqm).
  destruct (merge_gather_with (maximums r) tmax (indices r) tind N U b [3]
              Hm Hst Hi Hsti ltac:(simpl; lia))
    as (cmax2 & cind & newind & Hc2 & Hci & Hni & Hsi & Hqi).
  destruct (merge_gather_with (maximums r) tmax snap output N U b [h; w]
              Hm Hst Hss Ho ltac:(simpl; lia))
    as (cmax3 & csnap & newsnap & Hc3 & Hcs & Hns & Hsn & _).
  rewrite Hc1 in Hc2, Hc1', Hc3.
  injection Hc2 as <-. injection Hc1' as <-. injection Hc3 as <-.
  exists tmax, tind, newmax, newind, newsnap.
  split; [|split; [|split; [|split; [|split; [|split; [|split]]]]]];
    try assumption.
  - unfold _create_maximum_activation_update_with.
    rewrite Ho, Hd, Hsnap. cbn [nth_error bind Nat.eqb length fst snd].
    fold (counters_of b U pos).
    rewrite Hfl. cbn [bind]. rewrite Ham. cbn [bind].
    rewrite Htm. cbn [bind]. fold targmax. rewrite Hti. cbn [bind fst snd].
    rewrite Hc1. cbn [bind]. rewrite Hci. cbn [bind].
    rewrite Hnm. cbn [bind]. rewrite Hni. cbn [bind].
    rewrite Hcs. cbn [bind]. rewrite Hns. reflexivity.
  - intros e u He Hu k. destruct (Hiti e u) as (H0 & H1 & H2).
    rewrite H0, H1, H2. rewrite (Hit e u He Hu), Hia, Hlane, Nat2Z.id, Hif.
    fold k. rewrite counters_item by assumption. unfold targmax. cbn.
    rewrite Hia, Hlane. fold k.
    rewrite <- Nat2Z.inj_div, <- Nat2Z.inj_mod. auto.
  - intros i u Hi' Hu. split; [apply Hqm; auto|].
    intros k Hk. apply Hqi; auto.
Qed.

End SortKind.

(** ** The slots of the new values *)

Lemma update_with_argsort_list (o : tensor) (r : stat_record) (pos n : Z) :
  _create_maximum_activation_update_with argsort_list o r pos n
  = _create_maximum_activation_update o r pos n.
Proof. reflexivity. Qed.

Lemma candidates_size (d : dims_arg) (N b : nat) (r : stat_record)
    (o : tensor) (u : nat) :
  record_shape N d r -> batch_shape b d o ->
  length (candidates d r o u) = N + b.
Proof.
  intros [Hm _] Ho. unfold candidates.
  rewrite length_app, column_length, length_map, length_seq.
  rewrite (batch_shape_dim0 b d o Ho). unfold dim. now rewrite Hm.
Qed.

Lemma candidates_nth (d : dims_arg) (N b : nat) (r : stat_record)
    (o : tensor) (pos : Z) (u p : nat) :
  record_shape N d r -> batch_shape b d o -> p < N + b ->
  nth p (candidates d r o u) 0%Z = fst (candidate d N r o pos u p).
Proof.
  intros [Hm _] Ho Hp. unfold candidates, candidate.
  assert (length (column (maximums r) u) = N) as Hlen
    by (rewrite column_length; unfold dim; now rewrite Hm).
  destruct (Nat.ltb_spec p N).
  - rewrite app_nth1 by lia. cbn [fst]. apply column_nth.
    unfold dim. now rewrite Hm.
  - rewrite app_nth2 by lia. rewrite Hlen. cbn [fst].
    rewrite (batch_shape_dim0 b d o Ho).
    rewrite (nth_indep _ 0%Z (batch_quantity d o 0 u))
      by (rewrite length_map, length_seq; lia).
    rewrite (map_nth (fun e => batch_quantity d o e u)).
    rewrite seq_nth by lia. reflexivity.
Qed.

(** Every slot of the new values holds the candidate that [argsort] ranks
    at its place. *)
Lemma update_with_slots (s : sorter) (d : dims_arg) (N b : nat)
    (r : stat_record) (o : tensor) (pos : Z) :
  sorts s -> dims_ok d -> record_shape N d r -> batch_shape b d o ->
  exists newmax newind newsnap,
    _create_maximum_activation_update_with s o r pos (Z.of_nat N)
    = Some (newmax, newind, newsnap) /\
    shape newmax = [N; units d] /\
    forall i u, i < N -> u < units d ->
      (item newmax [i; u], coord d newind i u)
      = candidate d N r o pos u
          (nth i (s (map Z.opp (candidates d r o u))) 0).
Proof.
  intros Hs Hok [Hm Hr] Ho. destruct d as [n|dd].
  - destruct Hr as (Hd & Hsnap & Hi). simpl in Ho, Hok.
    destruct (update_with_dense s Hs o r pos N (units (DimsInt n)) b
                ltac:(now rewrite Hd) Hsnap Ho Hm Hi)
      as (newmax & newind & Hup & Hsm & Hsi & Hq).
    exists newmax, newind, None. split; [exact Hup|]. split; [exact Hsm|].
    intros i u Hi' Hu.
    change (candidates (DimsInt n) r o u)
      with (column (maximums r) u ++ column o u).
    fold (rank_with s (maximums r) o u i).
    pose proof (rank_with_lt s Hs (maximums r) o N _ b u i Hm Ho
                  ltac:(lia)) as Hp.
    destruct (Hq i u Hi' Hu) as [H1 H2].
    set (p := rank_with s (maximums r) o u i) in *.
    unfold candidate. cbn [coord batch_quantity batch_coord].
    rewrite H1, H2. unfold pick.
    destruct (Nat.ltb_spec p N); [reflexivity|].
    rewrite counters_item by lia. reflexivity.
  - destruct dd as [|u0 [|h0 [|w0 [|? ?]]]]; try contradiction.
    destruct Hok as (Hu0 & Hh0 & Hw0).
    destruct Hr as (Hd & Hi & snap & Hsnap & Hss). simpl in Ho, Hss, Hm, Hi.
    destruct (update_with_spatial s Hs o r pos N (Z.to_nat u0) b
                (Z.to_nat h0) (Z.to_nat w0) snap
                ltac:(rewrite Hd, !Z2Nat.id by lia; reflexivity)
                Hsnap Hss Ho ltac:(lia) ltac:(lia) Hm Hi)
      as (tmax & tind & newmax & newind & newsnap & Hup & Hst & Hsti & Hc
          & Hsm & Hsi & Hsn & Hq).
    exists newmax, newind, (Some newsnap). split; [exact Hup|].
    split; [exact Hsm|].
    intros i u Hi' Hu. cbn [units] in Hu.
    assert (forall e, e < b ->
              item tmax [e; u]
              = batch_quantity (DimsTuple [u0; h0; w0]) o e u) as Hbq.
    { intros e He. destruct (Hc e u He Hu) as (H1 & _). rewrite H1.
      cbn [batch_quantity nth].
      assert (feature_map o (Z.to_nat h0) (Z.to_nat w0) e u <> []) as Hne
        by (apply feature_map_nonempty; lia).
      rewrite <- (argmax_list_max _ Hne).
      rewrite feature_map_nth; [reflexivity|].
      pose proof (argmax_list_lt _ Hne) as Hk.
      unfold feature_map in Hk at 2.
      now rewrite length_map, length_seq in Hk. }
    assert (candidates (DimsTuple [u0; h0; w0]) r o u
            = column (maximums r) u ++ column tmax u) as Hcand.
    { unfold candidates. f_equal.
      unfold column, lane, dim. rewrite Hst, Ho. cbn [nth insert_axis firstn
        skipn app].
      apply map_ext_in. intros e He. apply in_seq in He.
      symmetry. apply Hbq. lia. }
    rewrite Hcand. fold (rank_with s (maximums r) tmax u i).
    pose proof (rank_with_lt s Hs (maximums r) tmax N _ b u i Hm Hst
                  ltac:(lia)) as Hp.
    destruct (Hq i u Hi' Hu) as [H1 H2].
    set (p := rank_with s (maximums r) tmax u i) in *.
    unfold candidate. cbn [coord]. rewrite H1, !H2 by lia. unfold pick.
    destruct (Nat.ltb_spec p N); [reflexivity|].
    rewrite (Hbq (p - N)) by lia.
    destruct (Hc (p - N) u ltac:(lia) Hu) as (_ & H3 & H4 & H5).
    rewrite H3, H4, H5. reflexivity.
Qed.

(** The same, read on the result of the call. *)
Lemma update_with_slot (s : sorter) (d : dims_arg) (N b : nat)
    (r : stat_record) (o : tensor) (pos : Z) (i u : nat) :
  sorts s -> dims_ok d -> record_shape N d r -> batch_shape b d o ->
  i < N -> u < units d ->
  slot d (_create_maximum_activation_update_with s o r pos (Z.of_nat N)) i u
  = Some (candidate d N r o pos u
            (nth i (s (map Z.opp (candidates d r o u))) 0)).
Proof.
  intros Hs Hok Hr Ho Hi Hu.
  destruct (update_with_slots s d N b r o pos Hs Hok Hr Ho)
    as (newmax & newind & newsnap & Hup & _ & Hslots).
  rewrite Hup. cbn [slot]. f_equal. now apply Hslots.
Qed.

(** The quantities read along the ranking of a routine that sorts are
    non-increasing. *)
Lemma sorts_descending (s : sorter) (cands : list Z) (i j : nat) :
  sorts s -> i <= j -> j < length cands ->
  (nth (nth j (s (map Z.opp cands)) 0%nat) cands 0
   <= nth (nth i (s (map Z.opp cands)) 0%nat) cands 0)%Z.
Proof.
  intros Hs Hij Hj. destruct (Hs (map Z.opp cands)) as [_ Hord].
  specialize (Hord i j Hij ltac:(now rewrite length_map)).
  rewrite !key_of_opp in Hord. lia.
Qed.

(** The stable ranking: by decreasing quantity, and by position among equal
    quantities. *)
Lemma stable_rank_order (cands : list Z) (i j : nat) :
  i < j -> j < length cands ->
  let p := nth i (stable_rank cands) 0 in
  let q := nth j (stable_rank cands) 0 in
  (nth q cands 0 < nth p cands 0)%Z
  \/ (nth p cands 0%Z = nth q cands 0%Z /\ p < q).
Proof.
  intros Hij Hj p q.
  pose proof (argsort_list_before (map Z.opp cands) i j Hij
                ltac:(now rewrite length_map)) as Hb.
  fold (stable_rank cands) in Hb. fold p in Hb. fold q in Hb.
  unfold before in Hb. rewrite !key_of_opp in Hb. lia.
Qed.

(** Without equal quantities there is one ranking only. *)
Lemma ranking_unique (s : sorter) (cands : list Z) :
  sorts s -> NoDup cands -> s (map Z.opp cands) = stable_rank cands.
Proof.
  intros Hs Hnd.
  set (keys := map Z.opp cands).
  set (R := fun a b : nat => (key_of keys a < key_of keys b)%Z).
  assert (length keys = length cands) as Hlk by apply length_map.
  assert (forall t : sorter, sorts t -> StronglySorted R (t keys)) as Hstrict.
  { intros t Ht. destruct (Ht keys) as [Hp Hord].
    assert (length (t keys) = length keys) as Hlen.
    { apply Permutation_length in Hp. now rewrite length_seq in Hp. }
    assert (NoDup (t keys)) as Hndt
      by (eapply Permutation_NoDup; [exact Hp | apply seq_NoDup]).
    apply (StronglySorted_of_nth R (t keys) 0). intros i j Hij Hj.
    rewrite Hlen in Hj.
    pose proof (Hord i j ltac:(lia) Hj) as Hle.
    assert (nth i (t keys) 0 <> nth j (t keys) 0) as Hne.
    { intros Heq. rewrite NoDup_nth in Hndt.
      specialize (Hndt i j ltac:(lia) ltac:(lia) Heq). lia. }
    assert (forall k, k < length keys -> nth k (t keys) 0 < length cands)
      as Hrange.
    { intros k Hk.
      assert (In (nth k (t keys) 0) (seq 0 (length keys))) as Hin.
      { eapply Permutation_in; [symmetry; exact Hp|].
        apply nth_In. lia. }
      apply in_seq in Hin. rewrite Hlk in Hin. lia. }
    unfold R. unfold keys at 1 3. rewrite !key_of_opp.
    unfold keys in Hle at 1 3. rewrite !key_of_opp in Hle.
    assert (nth (nth i (t keys) 0) cands 0%Z
            <> nth (nth j (t keys) 0) cands 0%Z) as Hv.
    { intros Heq. apply Hne.
      rewrite (NoDup_nth cands 0%Z) in Hnd.
      apply Hnd; [apply Hrange; lia | apply Hrange; lia | exact Heq]. }
    lia. }
  apply (strict_ranking_unique R).
  - unfold R. intros a b; lia.
  - destruct (Hs keys) as [Hp _].
    destruct (argsort_list_sorts keys) as [Hp' _].
    rewrite <- Hp. exact Hp'.
  - apply Hstrict, Hs.
  - apply (Hstrict argsort_list), argsort_list_sorts.
Qed.

(** With a stable [argsort] the update breaks ties as the specification
    asks. *)
Lemma stable_sort_tie_break (d : dims_arg) (N b : nat) (r : stat_record)
    (o : tensor) (pos : Z) :
  stable_tie_break argsort_list d N b r o pos.
Proof.
  intros Hok Hr Ho i u Hi Hu.
  apply (update_with_slot argsort_list d N b r o pos i u);
    auto using argsort_list_sorts.
Qed.

(** The new quantities are in descending order, whatever the routine. *)
Lemma update_with_sorted (s : sorter) (d : dims_arg) (N b : nat)
    (r : stat_record) (o : tensor) (pos : Z) :
  sorts s -> dims_ok d -> record_shape N d r -> batch_shape b d o ->
  exists newmax newind newsnap,
    _create_maximum_activation_update_with s o r pos (Z.of_nat N)
    = Some (newmax, newind, newsnap) /\
    sorted_columns N (units d) newmax.
Proof.
  intros Hs Hok Hr Ho.
  destruct (update_with_slots s d N b r o pos Hs Hok Hr Ho)
    as (newmax & newind & newsnap & Hup & _ & Hslots).
  exists newmax, newind, newsnap. split; [exact Hup|].
  intros u i j Hu Hij Hj.
  pose proof (candidates_size d N b r o u Hr Ho) as Hlen.
  assert (forall k, k < N ->
            item newmax [k; u]
            = nth (nth k (s (map Z.opp (candidates d r o u))) 0)
                  (candidates d r o u) 0%Z) as Hval.
  { intros k Hk.
    rewrite (candidates_nth d N b r o pos u _ Hr Ho).
    - now rewrite <- (Hslots k u Hk Hu).
    - pose proof (sorts_lt s Hs (map Z.opp (candidates d r o u)) k) as H.
      rewrite length_map, Hlen in H. apply H. lia. }
  rewrite !Hval by lia. apply sorts_descending; [exact Hs | exact Hij | lia].
Qed.

(** ** An all-zero batch *)

Lemma zero_batch_quantity (d : dims_arg) (o : tensor) (e u : nat) :
  dims_ok d -> all_zero o -> batch_quantity d o e u = 0%Z.
Proof.
  intros Hok Hz. destruct d as [n|dd]; cbn [batch_quantity]; [apply Hz|].
  destruct dd as [|u0 [|h0 [|w0 [|? ?]]]]; try contradiction.
  destruct Hok as (_ & Hh0 & Hw0). cbn [nth].
  assert (feature_map o (Z.to_nat h0) (Z.to_nat w0) e u <> []) as Hne
    by (apply feature_map_nonempty; lia).
  rewrite <- (argmax_list_max _ Hne).
  rewrite feature_map_nth; [apply Hz|].
  pose proof (argmax_list_lt _ Hne) as Hk.
  unfold feature_map in Hk at 2.
  now rewrite length_map, length_seq in Hk.
Qed.


(** With a stable [argsort] an all-zero batch changes nothing in such a
    unit. *)
Lemma stable_sort_zero_batch (d : dims_arg) (N b : nat) (r : stat_record)
    (o : tensor) (pos : Z) (u : nat) :
  zero_batch_idempotence argsort_list d N b r o pos u.
Proof.
  intros Hok Hr Hsorted Ho Hz Hu Hpos i Hi.
  rewrite (update_with_slot argsort_list d N b r o pos i u
             argsort_list_sorts Hok Hr Ho Hi Hu).
  pose proof (candidates_size d N b r o u Hr Ho) as Hlen.
  rewrite argsort_list_sorted_id.
  - rewrite length_map, Hlen, seq_nth by lia. cbn [Nat.add].
    unfold candidate. destruct (Nat.ltb_spec i N); [reflexivity | lia].
  - rewrite length_map, Hlen. intros a c Hac Hc. rewrite !key_of_opp.
    rewrite !(candidates_nth d N b r o pos u _ Hr Ho) by lia.
    unfold candidate.
    destruct (Nat.ltb_spec a N), (Nat.ltb_spec c N); cbn [fst];
      rewrite ?zero_batch_quantity by assumption; try lia.
    + specialize (Hsorted u a c Hu Hac H0). lia.
    + specialize (Hpos a H). lia.
Qed.

(** * The claims on equal quantities *)

(** ** C7: the tie-break of the ranking *)

(** C7 as stated does not hold.  The update ranks its candidates with
    [argsort] of line 119, called with the default sort kind, and a routine
    that sorts need not be stable: with the routine that returns equal keys
    in reverse, a fresh record of 17 slots and a batch of 17 examples of
    the same activation, slot 0 takes the last example of the batch and not
    the first. *)
Lemma stable_tie_break_counterexample :
  sorts argsort_list_unstable /\
  ~ stable_tie_break argsort_list_unstable (DimsInt 1) 17 17
      record_17_fresh batch_17_fives 0.
Proof.
  split; [exact argsort_list_unstable_sorts|].
  intros H.
  specialize (H ltac:(simpl; lia) ltac:(repeat split) eq_refl
                0 0 ltac:(lia) ltac:(simpl; lia)).
  vm_compute in H. discriminate.
Qed.

(** C7, amended.  For every routine that sorts, the ranking of the update
    is a sort permutation of the combined candidates of a unit (the N
    existing entries followed by the candidates of the batch) by
    non-increasing quantity, and slot [i] of the new quantities and
    coordinates holds the candidate ranked [i]-th.  The order of candidates
    of exactly equal quantity is the one [argsort] returns; when no two
    candidates are equal, the ranking is the stable descending sort of the
    concatenation. *)
Theorem update_ranking (s : sorter) (d : dims_arg) (N b : nat)
    (r : stat_record) (o : tensor) (pos : Z) :
  sorts s -> dims_ok d -> record_shape N d r -> batch_shape b d o ->
  forall u, u < units d ->
    let cands := candidates d r o u in
    let ranking := s (map Z.opp cands) in
    Permutation (seq 0 (N + b)) ranking /\
    (forall p, p < N + b ->
       nth p cands 0%Z = fst (candidate d N r o pos u p)) /\
    (forall i j, i <= j -> j < N + b ->
       (nth (nth j ranking 0%nat) cands 0
        <= nth (nth i ranking 0%nat) cands 0)%Z) /\
    (forall i, i < N ->
       slot d (_create_maximum_activation_update_with s o r pos (Z.of_nat N))
            i u
       = Some (candidate d N r o pos u (nth i ranking 0))) /\
    (NoDup cands -> ranking = stable_rank cands).
Proof.
  intros Hs Hok Hr Ho u Hu cands ranking.
  pose proof (candidates_size d N b r o u Hr Ho) as Hlen.
  split; [|split; [|split; [|split]]].
  - destruct (Hs (map Z.opp cands)) as [Hp _].
    rewrite length_map in Hp. unfold cands in Hp. now rewrite Hlen in Hp.
  - intros p Hp. now apply (candidates_nth d N b r o pos u p).
  - intros i j Hij Hj. apply sorts_descending; [exact Hs | exact Hij|].
    unfold cands. now rewrite Hlen.
  - intros i Hi. now apply (update_with_slot s d N b r o pos i u).
  - intros Hnd. now apply ranking_unique.
Qed.

Lemma update_ranking_witness :
  let cands :=
    candidates (DimsInt 1) record_5_1 (of_list2 1 [[3%Z]; [7%Z]; [5%Z]]) 0 in
  let ranking := argsort_list_unstable (map Z.opp cands) in
  Permutation (seq 0 (2 + 3)) ranking /\
  (forall p, p < 2 + 3 ->
     nth p cands 0%Z
     = fst (candidate (DimsInt 1) 2 record_5_1
              (of_list2 1 [[3%Z]; [7%Z]; [5%Z]]) 2 0 p)) /\
  (forall i j, i <= j -> j < 2 + 3 ->
     (nth (nth j ranking 0%nat) cands 0
      <= nth (nth i ranking 0%nat) cands 0)%Z) /\
  (forall i, i < 2 ->
     slot (DimsInt 1)
          (_create_maximum_activation_update_with argsort_list_unstable
             (of_list2 1 [[3%Z]; [7%Z]; [5%Z]]) record_5_1 2 (Z.of_nat 2))
          i 0
     = Some (candidate (DimsInt 1) 2 record_5_1
               (of_list2 1 [[3%Z]; [7%Z]; [5%Z]]) 2 0 (nth i ranking 0))) /\
  (NoDup cands -> ranking = stable_rank cands).
Proof.
  apply (update_ranking argsort_list_unstable (DimsInt 1) 2 3 record_5_1
           (of_list2 1 [[3%Z]; [7%Z]; [5%Z]]) 2).
  - exact argsort_list_unstable_sorts.
  - simpl. lia.
  - repeat split.
  - reflexivity.
  - simpl. lia.
Defined.

(** ** C8: an all-zero batch *)



